(** * build_pdf: channel mapping, event categories and histogram accumulation

    A shallow embedding of [scripts/build_pdf.py] (and of the mage-id
    generator of [scripts/make_tier_evt_config_file.py]) together with the
    properties of the event-categorisation and histogram-aggregation
    pipeline.

    Conventions of the embedding:
    - Python [int] is [Z]; numpy integer arrays are lists of [Z] (the
      string and position indices and primaries counts at hand are far
      from the 64-bit limits, wrap-around is not modelled);
    - Python [float] energies are rationals [Q]; [* 1000] is exact;
    - Python [dict] with scalar keys is a [gmap]; the channel map, the
      cuts and the analysis runs, whose iteration order is observable,
      are association lists in insertion order;
    - a raised exception is an [Err] result; the script itself runs in a
      state-and-exception monad whose state is the set of module-level
      histogram dictionaries and the primaries counter. The state is kept
      when an exception is raised, so that one can say what had been
      filled before the abort. *)

From Stdlib Require Import ZArith QArith Qround String Ascii.
From Stdlib Require Import DecimalString DecimalFacts DecimalPos DecimalN DecimalZ.
From stdpp Require Import gmap strings list fin_maps.

Open Scope Z_scope.

(** ** Python exceptions and results *)

Inductive PyError : Type :=
| KeyError
| ValueError
| IndexError
| NameError
| RuntimeError (msg : string).

Inductive result (A : Type) : Type :=
| Ok (a : A)
| Err (e : PyError).
Arguments Ok {A} a.
Arguments Err {A} e.

Definition rbind {A B} (r : result A) (k : A → result B) : result B :=
  match r with
  | Ok a => k a
  | Err e => Err e
  end.

#[global] Instance result_ret : MRet result := λ A a, Ok a.
#[global] Instance result_bind : MBind result := λ A B k r, rbind r k.
#[global] Instance result_fmap : FMap result := λ A B f r, rbind r (λ a, Ok (f a)).

Definition from_option {A} (e : PyError) (o : option A) : result A :=
  match o with
  | Some a => Ok a
  | None => Err e
  end.

Fixpoint mapR {A B} (f : A → result B) (l : list A) : result (list B) :=
  match l with
  | [] => Ok []
  | x :: xs => y ← f x; ys ← mapR f xs; Ok (y :: ys)
  end.

(** ** Python string primitives used by the script *)

(** [str(n)] for an integer: decimal digits, a leading [-] when negative. *)
Definition py_str (z : Z) : string := NilZero.string_of_int (Z.to_int z).

(** [int(s)] on a string: a [ValueError] on the empty string, on a lone
    sign and on any character that is not a digit. (Python also accepts
    surrounding blanks, a [+] sign and underscores; no slice of [str(n)]
    contains one.) *)
Definition py_int (s : string) : result Z :=
  from_option ValueError (Z.of_int <$> NilZero.int_of_string s).

(** [s[i]] for [0 <= i]. *)
Definition py_index (s : string) (i : nat) : result string :=
  from_option IndexError ((λ c, String c EmptyString) <$> String.get i s).

(** [s[i:j]] for [0 <= i <= j]: slices never raise, they truncate. *)
Definition py_slice (s : string) (i j : nat) : string :=
  String.substring i (j - i) s.

(** [needle in s]. *)
Fixpoint str_contains (needle s : string) : bool :=
  String.prefix needle s
  || match s with
     | EmptyString => false
     | String _ s' => str_contains needle s'
     end.

(** [s.split(sep)] for a one-character separator. *)
Fixpoint str_split_go (sep : ascii) (cur : string) (s : string) : list string :=
  match s with
  | EmptyString => [cur]
  | String c s' =>
      if Ascii.eqb c sep then cur :: str_split_go sep EmptyString s'
      else str_split_go sep (cur +:+ String c EmptyString) s'
  end.

Definition str_split (sep : ascii) (s : string) : list string :=
  str_split_go sep EmptyString s.

(** ** The channel map (legend-metadata) *)

(** [location["string"]] and [location["position"]]. *)
Record Location : Type := {
  loc_string : Z;
  loc_position : Z
}.

(** One detector entry of the channel map: [system], [location],
    [daq.rawid] and [type]. *)
Record ChannelMeta : Type := {
  system : string;
  location : Location;
  daq_rawid : Z;
  det_type : string
}.

(** [chmap.items()]: detector name and meta data, in insertion order. *)
Definition ChannelMap : Type := list (string * ChannelMeta).

(** [f"ch{rawid}"]. *)
Definition ch_label (rawid : Z) : string := "ch" +:+ py_str rawid.

(** ** make_tier_evt_config_file.py: the mage id of a detector *)

Definition cryostat : Z := 1.

(** [mageid=1000000+(cryostat*10000)+(string*100)+posn] *)
Definition mageid (string_ posn : Z) : Z :=
  1000000 + (cryostat * 10000) + (string_ * 100) + posn.

(** ** process_mage_id *)

(** The dictionary returned by [process_mage_id], one [gmap] per key
    ["name"], ["channel"], ["position"], ["string"]. *)
Record MageNames : Type := {
  mn_name : gmap Z string;
  mn_channel : gmap Z string;
  mn_position : gmap Z Z;
  mn_string : gmap Z Z
}.

Definition mage_names_empty : MageNames :=
  {| mn_name := ∅; mn_channel := ∅; mn_position := ∅; mn_string := ∅ |}.

(** [is_ged = bool(int(m_id[0]))] *)
Definition is_ged (m_id : string) : result bool :=
  c ← py_index m_id 0;
  flag ← py_int c;
  Ok (negb (flag =? 0)).

(** [string = int(m_id[3:5])] *)
Definition mage_string (m_id : string) : result Z := py_int (py_slice m_id 3 5).

(** [pos = int(m_id[5:7])] *)
Definition mage_pos (m_id : string) : result Z := py_int (py_slice m_id 5 7).

(** Is this channel-map entry the germanium detector at [(string, pos)]?
    ([string] is a type here, the local variable is [string_].) *)
Definition chmap_entry_matches (string_ pos : Z) (_meta_dict : ChannelMeta) : bool :=
  String.eqb (system _meta_dict) "geds"
  && (loc_string (location _meta_dict) =? string_)
  && (loc_position (location _meta_dict) =? pos).

(** Body of the inner loop [for _name, _meta_dict in chmap.items()]. *)
Definition process_chmap_entry (_mage_id string_ pos : Z)
    (mage_names : MageNames) (entry : string * ChannelMeta) : MageNames :=
  let '(_name, _meta_dict) := entry in
  if chmap_entry_matches string_ pos _meta_dict then
    {| mn_name := <[_mage_id := _name]> (mn_name mage_names);
       mn_channel := <[_mage_id := ch_label (daq_rawid _meta_dict)]> (mn_channel mage_names);
       mn_position := <[_mage_id := pos]> (mn_position mage_names);
       mn_string := <[_mage_id := string_]> (mn_string mage_names) |}
  else mage_names.

(** Body of the outer loop [for _mage_id in mage_ids]. *)
Definition process_one_mage_id (chmap : ChannelMap) (mage_names : MageNames)
    (_mage_id : Z) : result MageNames :=
  let m_id := py_str _mage_id in
  ged ← is_ged m_id;
  if negb ged then Ok mage_names
  else
    string_ ← mage_string m_id;
    pos ← mage_pos m_id;
    Ok (foldl (process_chmap_entry _mage_id string_ pos) mage_names chmap).

Fixpoint process_mage_id_from (chmap : ChannelMap) (mage_names : MageNames)
    (mage_ids : list Z) : result MageNames :=
  match mage_ids with
  | [] => Ok mage_names
  | _mage_id :: rest =>
      mage_names' ← process_one_mage_id chmap mage_names _mage_id;
      process_mage_id_from chmap mage_names' rest
  end.

Definition process_mage_id (chmap : ChannelMap) (mage_ids : list Z) : result MageNames :=
  process_mage_id_from chmap mage_names_empty mage_ids.

(** ** get_vectorised_converter *)

(** [np.vectorize(channel_to_other)] applied to a one-dimensional array:
    numpy refuses a size-0 input when no [otypes] is given ([ValueError]),
    and [mapping[mage_id]] raises [KeyError] on a missing key. *)
Definition get_vectorised_converter (mapping : gmap Z Z) (arr : list Z) : result (list Z) :=
  match arr with
  | [] => Err ValueError
  | _ => mapR (λ mage_id, from_option KeyError (mapping !! mage_id)) arr
  end.

(** ** numpy array primitives of the categoriser *)

(** [np.vstack(rows)]: needs at least one row, and rows of one length. *)
Definition np_vstack (channel_array : list (list Z)) : result (list (list Z)) :=
  match channel_array with
  | [] => Err ValueError
  | row :: rest =>
      if forallb (λ r, Nat.eqb (length r) (length row)) rest
      then Ok channel_array else Err ValueError
  end.

(** [a[:, j].T]: column [j] of a two-dimensional array. *)
Definition np_column (j : nat) (a : list (list Z)) : result (list Z) :=
  mapR (λ row, from_option IndexError (row !! j)) a.

(** An element of [1 * b], [2 * b], [3 * b] for a boolean [b]. *)
Definition bool_to_Z (b : bool) : Z := if b then 1 else 0.

(** ** get_m2_categories *)

Definition get_m2_categories (channel_array : list (list Z))
    (channel_to_string channel_to_position : list Z → result (list Z))
    : result (list Z) :=
  channel_array ← np_vstack channel_array;
  channel_one ← np_column 0 channel_array;
  channel_two ← np_column 1 channel_array;
  string_one ← channel_to_string channel_one;
  string_two ← channel_to_string channel_two;
  let same_string := zip_with Z.eqb string_one string_two in
  position_one ← channel_to_position channel_one;
  position_two ← channel_to_position channel_two;
  let neighbour := zip_with (λ p1 p2, Z.abs (p1 - p2) =? 1) position_one position_two in
  let is_cat_one := zip_with andb same_string neighbour in
  let is_cat_two := zip_with andb same_string (negb <$> neighbour) in
  let is_cat_three := negb <$> same_string in
  let category :=
    zip_with Z.add
      (zip_with Z.add ((λ b, 1 * bool_to_Z b) <$> is_cat_one)
                      ((λ b, 2 * bool_to_Z b) <$> is_cat_two))
      ((λ b, 3 * bool_to_Z b) <$> is_cat_three) in
  Ok category.

(** ** get_string_row_diff *)

Definition get_string_row_diff (channel_array : list (list Z))
    (channel2string channel2position : list Z → result (list Z))
    : result (list Z * list Z) :=
  channel_array ← np_vstack channel_array;
  channel_one ← np_column 0 channel_array;
  channel_two ← np_column 1 channel_array;
  string_one ← channel2string channel_one;
  string_two ← channel2string channel_two;
  let string_diff_1 := zip_with (λ s1 s2, (s1 - s2) `mod` 11) string_one string_two in
  let string_diff_2 := zip_with (λ s1 s2, (- s1 + s2) `mod` 11) string_one string_two in
  let string_diff := zip_with Z.min string_diff_1 string_diff_2 in
  position_one ← channel2position channel_one;
  position_two ← channel2position channel_two;
  let floor_diff := zip_with (λ p1 p2, Z.abs (p1 - p2)) position_one position_two in
  Ok (string_diff, floor_diff).

(** [np.where(arr == v)[0]]: the indices at which [arr] holds [v]. *)
Fixpoint np_where_eq_from (i : nat) (v : Z) (arr : list Z) : list nat :=
  match arr with
  | [] => []
  | x :: xs => if x =? v then i :: np_where_eq_from (S i) v xs
               else np_where_eq_from (S i) v xs
  end.

Definition np_where_eq (arr : list Z) (v : Z) : list nat := np_where_eq_from 0 v arr.

(** [np.array(xs)[ids]]: gather by index, [IndexError] out of range. *)
Definition np_take {A} (xs : list A) (ids : list nat) : result (list A) :=
  mapR (λ i, from_option IndexError (xs !! i)) ids.

(** ** The configuration file ([rconfig]) *)

(** [rconfig["hist"]]: the binning shared by every histogram. *)
Record HistConfig : Type := {
  nbins : nat;
  emin : Q;
  emax : Q
}.

(** One entry of [rconfig["cuts"]]. *)
Record CutSpec : Type := {
  cut_string : string;
  is_sum : bool;
  is_2d : bool
}.

Record RConfig : Type := {
  energy_threshold : Q;
  hist : HistConfig;
  cuts : list (string * CutSpec)
}.

(** ** ROOT histograms

    A [TH1F] is its array of bin contents: bin 0 is the underflow, bins
    [1..nbins] the range [[emin, emax)], bin [nbins + 1] the overflow.
    With unit weights a content is a count. A [TH2F] has the same axis on
    both sides and the global bin [binx + (nbins + 2) * biny]. *)

Abbreviation TH1F := (list nat) (only parsing).
Abbreviation TH2F := (list nat) (only parsing).

(** [TAxis::FindBin] for an axis with fixed bins. *)
Definition FindBin (cfg : HistConfig) (x : Q) : nat :=
  if Qlt_le_dec x (emin cfg) then 0%nat
  else if Qlt_le_dec x (emax cfg) then
    S (Z.to_nat (Qfloor (inject_Z (Z.of_nat (nbins cfg)) * (x - emin cfg)
                         / (emax cfg - emin cfg))))
  else S (nbins cfg).

(** [ROOT.TH1F(name, title, nbins, emin, emax)] *)
Definition TH1F_new (cfg : HistConfig) : TH1F := replicate (nbins cfg + 2) 0%nat.

(** [ROOT.TH2F(name, title, nbins, emin, emax, nbins, emin, emax)] *)
Definition TH2F_new (cfg : HistConfig) : TH2F :=
  replicate ((nbins cfg + 2) * (nbins cfg + 2)) 0%nat.

(** [h.Fill(x)] with weight one. *)
Definition TH1F_Fill (cfg : HistConfig) (h : TH1F) (x : Q) : TH1F :=
  alter S (FindBin cfg x) h.

(** [h.FillN(len(x), x, np.ones(len(x)))] *)
Definition TH1F_FillN (cfg : HistConfig) (h : TH1F) (x : list Q) : TH1F :=
  foldl (TH1F_Fill cfg) h x.

(** [h.Fill(x, y)] with weight one. *)
Definition TH2F_Fill (cfg : HistConfig) (h : TH2F) (xy : Q * Q) : TH2F :=
  alter S (FindBin cfg xy.1 + (nbins cfg + 2) * FindBin cfg xy.2)%nat h.

(** [h.FillN(len(x), x, y, np.ones(len(x)))] *)
Definition TH2F_FillN (cfg : HistConfig) (h : TH2F) (x y : list Q) : TH2F :=
  foldl (TH2F_Fill cfg) h (zip x y).

(** [h.Add(h1)]: every bin of [h] receives the content of that bin of [h1]. *)
Definition TH1F_Add (h h1 : TH1F) : TH1F :=
  imap (λ bin c, c + default 0 (h1 !! bin))%nat h.

(** Content of one bin, and [GetEntries] for unit weights. *)
Definition bin_content (h : list nat) (bin : nat) : nat := default 0%nat (h !! bin).
Definition entries (h : list nat) : nat := sum_list h.

(** Sum of the contents of one bin over a list of histograms. *)
Definition bin_sum (hs : list TH1F) (bin : nat) : nat :=
  sum_list_with (λ h, bin_content h bin) hs.

(** ** Events *)

(** One entry of [simTree] as read from the file. *)
Record RawEvent : Type := {
  raw_energy : list Q;
  raw_mage_id : list Z;
  raw_is_off : list bool;
  raw_is_ac : list bool;
  raw_npe_tot : Z;
  (** the value that [rng.poisson(array.npe_tot)] draws for this entry *)
  poisson_draw : Z;
  mage_n_events : Z
}.

(** One record of [array] after the cleaning steps, with the columns the
    script has attached. *)
Record Event : Type := {
  energy : list Q;
  mage_id : list Z;
  is_ac : list bool;
  npe_tot_poisson : Z;
  mul : Z;
  mul_is_good : Z
}.

(** An evt-tier input file: its name and [simTree], already cut into the
    batches that [pytree.iterate(step_size="100 mB")] yields. *)
Record InputFile : Type := {
  file_name : string;
  simTree : list (list RawEvent)
}.

(** [pytree.num_entries] *)
Definition num_entries (f : InputFile) : nat := length (concat (simTree f)).

(** A raw simulation file: the [fNEvents] branch of its [fTree]. *)
Record RawFile : Type := {
  fNEvents : list Z
}.

(** Command line: [--raw-files] (empty when not given) and [input_files]. *)
Record Args : Type := {
  raw_files : list RawFile;
  input_files : list InputFile
}.

(** ** get_run and get_period *)

Definition is_digit (c : ascii) : bool :=
  (48 <=? nat_of_ascii c)%nat && (nat_of_ascii c <=? 57)%nat.

(** Does [s] start with [letter] followed by [n] digits? *)
Fixpoint digits_prefix (n : nat) (s : string) : bool :=
  match n, s with
  | O, _ => true
  | S n', String c s' => is_digit c && digits_prefix n' s'
  | S _, EmptyString => false
  end.

(** [re.findall] of a letter followed by [n] digits: all matches, left to
    right, not overlapping ([skip] characters of the last match remain). *)
Fixpoint findall_letter_digits (letter : ascii) (n : nat) (skip : nat) (text : string)
    : list string :=
  match text with
  | EmptyString => []
  | String c rest =>
      match skip with
      | S k => findall_letter_digits letter n k rest
      | O =>
          if Ascii.eqb c letter && digits_prefix n rest
          then String.substring 0 (S n) text :: findall_letter_digits letter n n rest
          else findall_letter_digits letter n 0 rest
      end
  end.

(** [re.findall(re.compile(r'r\d\d\d'), text)] *)
Definition get_run (text : string) : list string :=
  findall_letter_digits "r" 3 0 text.

(** [re.findall(re.compile(r'p\d\d'), text)] *)
Definition get_period (text : string) : list string :=
  findall_letter_digits "p" 2 0 text.

(** ** awkward-array primitives of the fill loop *)

(** [array[mask]] with one boolean per record. *)
Definition ak_mask {A} (array : list A) (mask : list bool) : result (list A) :=
  if Nat.eqb (length array) (length mask)
  then Ok ((filter (λ p, Is_true p.2) (zip array mask)).*1)
  else Err IndexError.

(** [ak.flatten(array_cut["energy"][array_cut["mage_id"] == id], axis=-1)]:
    the energies of the hits of channel [id]; the two columns are parallel. *)
Definition hit_energies (id : Z) (ev : Event) : list Q :=
  (filter (λ p, p.2 = id) (zip (energy ev) (mage_id ev))).*1.

Definition channel_energies (array_cut : list Event) (id : Z) : list Q :=
  concat (hit_energies id <$> array_cut).

(** [.to_numpy() * 1000] *)
Definition times_1000 (x : list Q) : list Q := (λ e, e * 1000)%Q <$> x.

Definition Q_max (a b : Q) : Q := if Qlt_le_dec a b then b else a.
Definition Q_min (a b : Q) : Q := if Qlt_le_dec b a then b else a.

(** [ak.max(.., axis=-1)] and [ak.min(.., axis=-1)] of one record. A record
    without hits has no extremum (awkward yields a missing value); the
    cleaning removes such records and the model stops at one. *)
Definition ak_max (x : list Q) : result Q :=
  match x with
  | [] => Err ValueError
  | e :: es => Ok (foldl Q_max e es)
  end.

Definition ak_min (x : list Q) : result Q :=
  match x with
  | [] => Err ValueError
  | e :: es => Ok (foldl Q_min e es)
  end.

(** [ak.sum(.., axis=-1)] of one record. *)
Definition ak_sum (x : list Q) : Q := foldl Qplus 0%Q x.

(** [array_cut["mage_id"].to_numpy()]: only a regular array converts. *)
Definition ak_to_numpy (rows : list (list Z)) : result (list (list Z)) :=
  match rows with
  | [] => Ok []
  | row :: rest =>
      if forallb (λ r, Nat.eqb (length r) (length row)) rest
      then Ok rows else Err ValueError
  end.

(** ** Module-level state of the script *)

Record State : Type := {
  hists : gmap string (gmap string TH1F);
  run_hists : gmap string (gmap string TH1F);
  sum_hists : gmap string (gmap string TH1F);
  hists_2d : gmap string (gmap string TH2F);
  n_primaries_total : Z
}.

Definition State_empty : State :=
  {| hists := ∅; run_hists := ∅; sum_hists := ∅; hists_2d := ∅;
     n_primaries_total := 0 |}.

Definition set_hists (d : gmap string (gmap string TH1F)) (st : State) : State :=
  {| hists := d; run_hists := run_hists st; sum_hists := sum_hists st;
     hists_2d := hists_2d st; n_primaries_total := n_primaries_total st |}.

Definition set_run_hists (d : gmap string (gmap string TH1F)) (st : State) : State :=
  {| hists := hists st; run_hists := d; sum_hists := sum_hists st;
     hists_2d := hists_2d st; n_primaries_total := n_primaries_total st |}.

Definition set_sum_hists (d : gmap string (gmap string TH1F)) (st : State) : State :=
  {| hists := hists st; run_hists := run_hists st; sum_hists := d;
     hists_2d := hists_2d st; n_primaries_total := n_primaries_total st |}.

Definition set_hists_2d (d : gmap string (gmap string TH2F)) (st : State) : State :=
  {| hists := hists st; run_hists := run_hists st; sum_hists := sum_hists st;
     hists_2d := d; n_primaries_total := n_primaries_total st |}.

Definition set_n_primaries_total (n : Z) (st : State) : State :=
  {| hists := hists st; run_hists := run_hists st; sum_hists := sum_hists st;
     hists_2d := hists_2d st; n_primaries_total := n |}.

(** The script monad: state passing, and an exception leaves the state as
    it was when raised. *)
Definition M (A : Type) : Type := State → result A * State.

#[global] Instance M_ret : MRet M := λ A a st, (Ok a, st).
#[global] Instance M_bind : MBind M := λ A B k m st,
  match m st with
  | (Ok a, st') => k a st'
  | (Err e, st') => (Err e, st')
  end.

Definition raise {A} (e : PyError) : M A := λ st, (Err e, st).
Definition liftR {A} (r : result A) : M A := λ st, (r, st).
Definition get_state : M State := λ st, (Ok st, st).

(** [for x in l: body(x)] *)
Fixpoint for_each {A} (l : list A) (body : A → M unit) : M unit :=
  match l with
  | [] => mret tt
  | x :: xs => body x;; for_each xs body
  end.

(** Apply a fallible update to one of the dictionaries. *)
Definition modify_with {D} (get : State → D) (set : D → State → State)
    (f : D → result D) : M unit := λ st,
  match f (get st) with
  | Ok d => (Ok tt, set d st)
  | Err e => (Err e, st)
  end.

(** [d[c][k]] *)
Definition lookup2 {V} (c k : string) (d : gmap string (gmap string V)) : result V :=
  m ← from_option KeyError (d !! c);
  from_option KeyError (m !! k).

(** [d[c][k].method(..)]: in-place update of the object at [d[c][k]]. *)
Definition update2 {V} (f : V → V) (c k : string)
    (d : gmap string (gmap string V)) : result (gmap string (gmap string V)) :=
  m ← from_option KeyError (d !! c);
  h ← from_option KeyError (m !! k);
  Ok (<[c := <[k := f h]> m]> d).

(** [d[c][k] = v] *)
Definition insert2 {V} (c k : string) (v : V)
    (d : gmap string (gmap string V)) : result (gmap string (gmap string V)) :=
  m ← from_option KeyError (d !! c);
  Ok (<[c := <[k := v]> m]> d).

(** The detector types of the grouped histograms. *)
Definition det_types : list string := ["bege"; "coax"; "icpc"; "ppc"].

(** [names_m2]: the buckets of a two-dimensional cut. *)
Definition names_m2 : list string :=
  ((λ item1, "sd_" +:+ py_str item1) <$> seqZ 0 7)
  ++ ["all"; "cat_1"; "cat_2"; "cat_3"].

(** The written file: one group of histograms per dictionary and the
    [number_of_primaries] entry. *)
Record Output : Type := {
  out_hists : gmap string (gmap string TH1F);
  out_run_hists : gmap string (gmap string TH1F);
  out_sum_hists : gmap string (gmap string TH1F);
  out_hists_2d : gmap string (gmap string TH2F);
  number_of_primaries : string
}.

(** Exit status of the interpreter: an uncaught exception gives 1. *)
Definition exit_status {A} (r : result A) : Z :=
  match r with
  | Ok _ => 0
  | Err _ => 1
  end.

(** ** The script *)

Section Script.

(** [chmap = meta.channelmap(rconfig["timestamp"])] *)
Variable chmap : ChannelMap.
(** [rconfig = json.load(f)] *)
Variable rconfig : RConfig.
(** [runs = meta.dataprod.config.analysis_runs]: period and its runs. *)
Variable runs : list (string * list string).
(** The cleaning of a batch (threshold, off detectors, records without
    hits, multiplicities, anti-coincidence): awkward-array column
    surgery whose result the cut loop receives. *)
Variable clean : list RawEvent → list Event.
(** [eval(_cut_string, globs, array)]: one boolean per record. *)
Variable eval_cut : string → list Event → list bool.

Definition cfg : HistConfig := hist rconfig.

(** [geds_mapping]: channel label to detector name, for the germanium
    detectors; a later detector with the same raw id replaces an
    earlier one. *)
Definition geds_mapping : gmap string string :=
  foldl (λ (m : gmap string string) (entry : string * ChannelMeta),
           if String.eqb (system entry.2) "geds"
           then <[ch_label (daq_rawid entry.2) := entry.1]> m else m)
        ∅ chmap.

(** [chmap[name]] *)
Definition chmap_lookup (name : string) : result ChannelMeta :=
  from_option KeyError
    (foldl (λ (acc : option ChannelMeta) (entry : string * ChannelMeta),
              if String.eqb entry.1 name then Some entry.2 else acc)
           None chmap).

(** [hists]: per plain cut, one histogram per germanium channel. *)
Definition init_hists : gmap string (gmap string TH1F) :=
  foldl (λ (d : gmap string (gmap string TH1F)) (c : string * CutSpec),
           if negb (is_sum c.2) && negb (is_2d c.2)
           then <[c.1 := (λ _, TH1F_new cfg) <$> geds_mapping]> d else d)
        ∅ (cuts rconfig).

(** The keys [f"{_period}_{run}"] of the analysis runs. *)
Definition run_keys : list string :=
  flat_map (λ pr : string * list string, (λ run, pr.1 +:+ "_" +:+ run) <$> pr.2) runs.

(** [run_hists]: per cut that is not a sum, one histogram per run. *)
Definition init_run_hists : gmap string (gmap string TH1F) :=
  foldl (λ (d : gmap string (gmap string TH1F)) (c : string * CutSpec),
           if negb (is_sum c.2)
           then <[c.1 := foldl (λ (m : gmap string TH1F) k, <[k := TH1F_new cfg]> m)
                               ∅ run_keys]> d
           else d)
        ∅ (cuts rconfig).

(** [sum_hists]: per sum cut, the histogram ["all"]. *)
Definition init_sum_hists : gmap string (gmap string TH1F) :=
  foldl (λ (d : gmap string (gmap string TH1F)) (c : string * CutSpec),
           if is_sum c.2 then <[c.1 := {[ "all" := TH1F_new cfg ]}]> d else d)
        ∅ (cuts rconfig).

(** [hists_2d]: per two-dimensional cut, one histogram per bucket. *)
Definition init_hists_2d : gmap string (gmap string TH2F) :=
  foldl (λ (d : gmap string (gmap string TH2F)) (c : string * CutSpec),
           if is_2d c.2
           then <[c.1 := foldl (λ (m : gmap string TH2F) cat, <[cat := TH2F_new cfg]> m)
                               ∅ names_m2]> d
           else d)
        ∅ (cuts rconfig).

(** The empty histograms of every cut; the primaries counter, started
    at zero in [State_empty], keeps what the raw files have added. *)
Definition init_histograms : M unit := λ st,
  (Ok tt, {| hists := init_hists; run_hists := init_run_hists;
             sum_hists := init_sum_hists; hists_2d := init_hists_2d;
             n_primaries_total := n_primaries_total st |}).

(** [n_primaries_total += n] *)
Definition add_primaries (n : Z) : M unit := λ st,
  (Ok tt, set_n_primaries_total (n_primaries_total st + n) st).

(** [for file in args.raw_files: n_primaries_total +=
    fTree["fNEvents"].array(entry_stop=1)[0]] *)
Definition count_raw_primaries (raw : list RawFile) : M unit :=
  for_each raw (λ file,
    n ← liftR (from_option IndexError (head (fNEvents file)));
    add_primaries n).

(** Body of [for __mage_id in mage_ids] for a plain cut. *)
Definition fill_channel (period run _cut_name : string) (chmap_mage : MageNames)
    (array_cut : list Event) (__mage_id : Z) : M unit :=
  _rawid ← liftR (from_option KeyError (mn_channel chmap_mage !! __mage_id));
  let _energy_array := times_1000 (channel_energies array_cut __mage_id) in
  if Nat.eqb (length _energy_array) 0 then mret tt
  else
    modify_with hists set_hists
      (update2 (λ h, TH1F_FillN cfg h _energy_array) _cut_name _rawid);;
    modify_with run_hists set_run_hists
      (update2 (λ h, TH1F_FillN cfg h _energy_array) _cut_name
               (period +:+ "_" +:+ run)).

(** The selection of the events of one bucket: the two energy arrays
    restricted to it. A name that is neither ["all"] nor a category nor
    a string distance leaves the two variables unbound. *)
Definition select_bucket (name : string) (_energy_1_array _energy_2_array : list Q)
    (_mult_channel_array : list (list Z))
    (channel_to_string channel_to_position : list Z → result (list Z))
    : result (list Q * list Q) :=
  if negb (String.eqb name "all") then
    categories ← get_m2_categories _mult_channel_array
                   channel_to_string channel_to_position;
    sf ← get_string_row_diff _mult_channel_array
           channel_to_string channel_to_position;
    let string_diff := sf.1 in
    if str_contains "cat" name then
      field ← from_option IndexError (str_split "_" name !! 1%nat);
      cat ← py_int field;
      _energy_1_array_tmp ← np_take _energy_1_array (np_where_eq categories cat);
      _energy_2_array_tmp ← np_take _energy_2_array (np_where_eq categories cat);
      Ok (_energy_1_array_tmp, _energy_2_array_tmp)
    else if str_contains "sd" name then
      field ← from_option IndexError (str_split "_" name !! 1%nat);
      sd ← py_int field;
      let ids := np_where_eq string_diff sd in
      _energy_1_array_tmp ← np_take _energy_1_array ids;
      _energy_2_array_tmp ← np_take _energy_2_array ids;
      Ok (_energy_1_array_tmp, _energy_2_array_tmp)
    else Err NameError
  else Ok (_energy_1_array, _energy_2_array).

(** Body of [for name in names_m2] for a two-dimensional cut. *)
Definition fill_bucket (_cut_name : string) (_energy_1_array _energy_2_array : list Q)
    (_mult_channel_array : list (list Z))
    (channel_to_string channel_to_position : list Z → result (list Z))
    (name : string) : M unit :=
  tmp ← liftR (select_bucket name _energy_1_array _energy_2_array
                 _mult_channel_array channel_to_string channel_to_position);
  if Nat.eqb (length tmp.1) 0 then mret tt
  else
    modify_with hists_2d set_hists_2d
      (update2 (λ h, TH2F_FillN cfg h tmp.2 tmp.1) _cut_name name).

(** [array_cut]: a copy of the batch for the empty cut string, the
    records selected by the evaluated expression otherwise. *)
Definition apply_cut (_cut_string : string) (array : list Event) : result (list Event) :=
  if String.eqb _cut_string "" then Ok array
  else ak_mask array (eval_cut _cut_string array).

(** Body of [for _cut_name, _cut_dict in rconfig["cuts"].items()]. *)
Definition process_cut (period run : string) (mage_ids : list Z)
    (chmap_mage : MageNames) (array : list Event)
    (c : string * CutSpec) : M unit :=
  let _cut_name := c.1 in
  let _cut_dict := c.2 in
  let _cut_string := cut_string _cut_dict in
  array_cut ← liftR (apply_cut _cut_string array);
  if negb (is_sum _cut_dict) && negb (is_2d _cut_dict) then
    for_each mage_ids (fill_channel period run _cut_name chmap_mage array_cut)
  else if is_2d _cut_dict then
    _energy_1_array ← liftR (times_1000 <$> mapR (λ ev, ak_max (energy ev)) array_cut);
    _energy_2_array ← liftR (times_1000 <$> mapR (λ ev, ak_min (energy ev)) array_cut);
    _mult_channel_array ← liftR (ak_to_numpy (mage_id <$> array_cut));
    for_each names_m2
      (fill_bucket _cut_name _energy_1_array _energy_2_array _mult_channel_array
         (get_vectorised_converter (mn_string chmap_mage))
         (get_vectorised_converter (mn_position chmap_mage)))
  else
    let _summed_energy_array := times_1000 ((λ ev, ak_sum (energy ev)) <$> array_cut) in
    if Nat.eqb (length _summed_energy_array) 0 then mret tt
    else
      modify_with sum_hists set_sum_hists
        (update2 (λ h, TH1F_FillN cfg h _summed_energy_array) _cut_name "all").

(** Body of [for array in pytree.iterate(step_size="100 mB")]. *)
Definition process_batch (period run : string) (array : list RawEvent) : M unit :=
  let mage_ids := concat (raw_mage_id <$> array) in
  chmap_mage ← liftR (process_mage_id chmap mage_ids);
  let array := clean array in
  for_each (cuts rconfig) (process_cut period run mage_ids chmap_mage array).

(** The period and run of a file, from the last component of its path. *)
Definition period_and_run (file_name : string) : result (string * string) :=
  file_end ← from_option IndexError (last (str_split "/" file_name));
  let run := get_run file_end in
  let period := get_period file_end in
  if (0 <? length period)%nat then
    period ← from_option IndexError (head period);
    run ← from_option IndexError (head run);
    Ok (period, run)
  else Ok ("p03", "r000").

Definition zero_events_msg (file_name : string) : string :=
  "ERROR: MPP evt file " +:+ file_name +:+ " has 0 events in simTree".

(** Body of [for file_name in args.input_files]. *)
Definition process_file (f : InputFile) : M unit :=
  pr ← liftR (period_and_run (file_name f));
  if Nat.eqb (num_entries f) 0 then raise (RuntimeError (zero_events_msg (file_name f)))
  else
    n ← liftR (from_option IndexError (head (mage_n_events <$> concat (simTree f))));
    add_primaries n;;
    for_each (simTree f) (process_batch pr.1 pr.2).

(** Body of [for _rawid, _name in geds_mapping.items()] of the grouping. *)
Definition add_channel_to_groups (_cut_name : string) (item : string * string) : M unit :=
  let _rawid := item.1 in
  name ← liftR (from_option KeyError (geds_mapping !! _rawid));
  meta ← liftR (chmap_lookup name);
  st ← get_state;
  h ← liftR (lookup2 _cut_name _rawid (hists st));
  modify_with hists set_hists (update2 (λ ht, TH1F_Add ht h) _cut_name (det_type meta));;
  st ← get_state;
  h ← liftR (lookup2 _cut_name _rawid (hists st));
  modify_with hists set_hists (update2 (λ ha, TH1F_Add ha h) _cut_name "all").

(** Body of [for _cut_name in hists] of the grouping. *)
Definition make_grouped_cut (_cut_name : string) : M unit :=
  modify_with hists set_hists (insert2 _cut_name "all" (TH1F_new cfg));;
  for_each det_types (λ _type,
    modify_with hists set_hists (insert2 _cut_name _type (TH1F_new cfg)));;
  for_each (map_to_list geds_mapping) (add_channel_to_groups _cut_name).

Definition make_grouped : M unit :=
  st ← get_state;
  for_each (map_to_list (hists st)).*1 make_grouped_cut.

(** Writing: the histograms as they stand and
    [str(int(n_primaries_total))]. *)
Definition write_output : M Output := λ st,
  (Ok {| out_hists := hists st; out_run_hists := run_hists st;
         out_sum_hists := sum_hists st; out_hists_2d := hists_2d st;
         number_of_primaries := py_str (n_primaries_total st) |}, st).

(** The accumulation over all input files. *)
Definition fill_all (files : list InputFile) : M unit :=
  for_each files process_file.

(** The whole script. *)
Definition build_pdf (args : Args) : M Output :=
  count_raw_primaries (raw_files args);;
  init_histograms;;
  fill_all (input_files args);;
  make_grouped;;
  write_output.

Definition main (args : Args) : result Output * State :=
  build_pdf args State_empty.

End Script.

(** ** A small deployment, used to run the script *)

Module Example.

Definition geds (s p rawid : Z) (t : string) : ChannelMeta :=
  {| system := "geds"; location := {| loc_string := s; loc_position := p |};
     daq_rawid := rawid; det_type := t |}.

Definition chmap : ChannelMap :=
  [("V02160A", geds 2 3 1104000 "icpc");
   ("B00035C", geds 2 4 1104001 "bege");
   ("C000RG1", geds 9 1 1104002 "coax");
   ("S002", {| system := "spms"; location := {| loc_string := 2; loc_position := 3 |};
               daq_rawid := 1052803; det_type := "sipm" |})].

Definition cut (s : string) (sum twod : bool) : CutSpec :=
  {| cut_string := s; is_sum := sum; is_2d := twod |}.

Definition rconfig : RConfig :=
  {| energy_threshold := 0.1%Q;
     hist := {| nbins := 4; emin := 0; emax := 2000 |};
     cuts := [("raw", cut "" false false);
              ("mul_esum", cut "" true false);
              ("mul2_2d", cut "mul == 2" false true)] |}.

Definition runs : list (string * list string) := [("p03", ["r000"; "r001"])].

(** The cleaning as the script intends it: hits above threshold in
    detectors that are on, records with a hit, no anti-coincidence. *)
Definition clean_event (thr : Q) (ev : RawEvent) : Event :=
  let hits := zip (zip (raw_energy ev) (raw_mage_id ev)) (zip (raw_is_off ev) (raw_is_ac ev)) in
  let kept := filter (λ h, Is_true (negb (Qle_bool h.1.1 thr) && negb h.2.1)) hits in
  {| energy := kept.*1.*1; mage_id := kept.*1.*2; is_ac := kept.*2.*2;
     npe_tot_poisson := poisson_draw ev;
     mul := Z.of_nat (length kept);
     mul_is_good := Z.of_nat (length (filter (λ h, Is_true (negb h.2.2)) kept)) |}.

Definition clean (array : list RawEvent) : list Event :=
  filter (λ ev, Is_true (forallb negb (is_ac ev)))
    (filter (λ ev, (0 < length (energy ev))%nat)
       (clean_event (energy_threshold rconfig) <$> array)).

(** The cut expressions of [rconfig]. *)
Definition eval_cut (s : string) (array : list Event) : list bool :=
  if String.eqb s "mul == 2" then (λ ev, mul ev =? 2) <$> array
  else (λ _, true) <$> array.

Definition hit (e : Q) (id : Z) : Q * Z := (e, id).
Arguments hit e%_Q id%_Z.

Definition event (n : Z) (hits : list (Q * Z)) : RawEvent :=
  {| raw_energy := hits.*1; raw_mage_id := hits.*2;
     raw_is_off := (λ _, false) <$> hits; raw_is_ac := (λ _, false) <$> hits;
     raw_npe_tot := 0; poisson_draw := 0; mage_n_events := n |}.

Definition file (name : string) (batches : list (list RawEvent)) : InputFile :=
  {| file_name := name; simTree := batches |}.

(** Two input files reporting 1000 and 1500 primaries, no raw file; every
    batch has a two-hit event. *)
Definition args_two_files : Args :=
  {| raw_files := [];
     input_files :=
       [file "sim/l200-p03-r001-evt.root"
          [[event 1000 [hit 0.5 1010203; hit 1.2 1010204];
            event 1000 [hit 0.7 1010901]]];
        file "evt.root"
          [[event 1500 [hit 0.3 1010203; hit 0.9 1010901];
            event 1500 [hit 1.9 1010204]]]] |}.

(** A batch of two one-hit events of the same channel, the identifiers as
    the resolver maps them, and an input file with this batch alone. *)
Definition batch_one_channel : list RawEvent :=
  [event 10 [hit 0.5 1010203]; event 10 [hit 1.2 1010203]].

Definition names_one_channel : MageNames :=
  match process_mage_id chmap (concat (raw_mage_id <$> batch_one_channel)) with
  | Ok mage_names => mage_names
  | Err _ => mage_names_empty
  end.

Definition args_one_channel : Args :=
  {| raw_files := []; input_files := [file "evt.root" [batch_one_channel]] |}.

(** The same deployment with the plain cut alone. *)
Definition rconfig_plain : RConfig :=
  {| energy_threshold := 0.1%Q;
     hist := {| nbins := 4; emin := 0; emax := 2000 |};
     cuts := [("raw", cut "" false false)] |}.

Definition main_plain := main chmap rconfig_plain runs clean eval_cut.

Definition main := main chmap rconfig runs clean eval_cut.

(** Three two-hit events as channel pairs, with the string and position of
    every channel. *)
Definition pairs : list (Z * Z) :=
  [(1010203, 1010204); (1010203, 1010901); (1010204, 1010207)].

Definition strings : gmap Z Z :=
  list_to_map [(1010203, 2); (1010204, 2); (1010207, 2); (1010901, 9)].

Definition positions : gmap Z Z :=
  list_to_map [(1010203, 3); (1010204, 4); (1010207, 7); (1010901, 1)].

(** The run on the two files: its output and its final state. *)
Definition output_of (r : result Output * State) : Output :=
  match r.1 with
  | Ok out => out
  | Err _ =>
      {| out_hists := ∅; out_run_hists := ∅; out_sum_hists := ∅;
         out_hists_2d := ∅; number_of_primaries := "" |}
  end.

Definition out_two_files : Output := output_of (main args_two_files).

Definition st_two_files : State := (main args_two_files).2.

(** An input file without events. *)
Definition empty_file : InputFile := file "sim/l200-p03-r001-evt.root" [].

(** An input file without events whose name has a period but no run. *)
Definition empty_file_no_run : InputFile := file "p03.root" [].

(** The state after the histograms are created. *)
Definition st_init : State := (init_histograms chmap rconfig runs State_empty).2.

End Example.

(** ** Notions used to state the properties *)

(** Decoding the generator's identifier of [(string_, posn)] gives the
    flag set and the two indices back. *)
Definition roundtrip_ok (string_ posn : Z) : bool :=
  let m_id := py_str (mageid string_ posn) in
  match is_ged m_id, mage_string m_id, mage_pos m_id with
  | Ok true, Ok s, Ok p => (s =? string_) && (p =? posn)
  | _, _, _ => false
  end.

(** A decimal numeral that starts with a digit other than zero. *)
Definition leading_nonzero (d : Decimal.uint) : bool :=
  match d with
  | Decimal.Nil | Decimal.D0 _ => false
  | _ => true
  end.

(** The identifier decodes to the location of a germanium detector of
    the channel map. *)
Definition has_location (chmap : ChannelMap) (id : Z) : Prop :=
  ∃ name meta s p,
    (name, meta) ∈ chmap
    ∧ mage_string (py_str id) = Ok s ∧ mage_pos (py_str id) = Ok p
    ∧ chmap_entry_matches s p meta = true.

(** The identifier is a key of one of the four mappings. *)
Definition in_mappings (mage_names : MageNames) (id : Z) : Prop :=
  is_Some (mn_name mage_names !! id) ∨ is_Some (mn_channel mage_names !! id)
  ∨ is_Some (mn_position mage_names !! id) ∨ is_Some (mn_string mage_names !! id).

(** Every key of the mappings has the flag set and a location. *)
Definition located (chmap : ChannelMap) (mage_names : MageNames) : Prop :=
  ∀ id, in_mappings mage_names id →
    is_ged (py_str id) = Ok true ∧ has_location chmap id.

(** A computation of the script never leaves the relation [R] between
    the state it starts in and the state it ends in, whether it returns
    or raises. *)
Definition respects {A} (R : State → State → Prop) (m : M A) : Prop :=
  ∀ st, R st (m st).2.

(** What processing a file leaves alone: the cut names of [hists] and
    the ["sd_6"] bucket of every two-dimensional cut. *)
Definition hist_frame (st st' : State) : Prop :=
  (∀ c, is_Some (hists st !! c) → is_Some (hists st' !! c))
  ∧ (∀ c m, hists_2d st !! c = Some m →
       ∃ m', hists_2d st' !! c = Some m' ∧ m' !! "sd_6" = m !! "sd_6").

(** What filling a batch and grouping leave alone: the primaries counter
    as well. *)
Definition fill_frame (st st' : State) : Prop :=
  n_primaries_total st' = n_primaries_total st ∧ hist_frame st st'.

(** Sum of a list of integers. *)
Definition Z_sum (l : list Z) : Z := foldr Z.add 0 l.

(** The primaries count a raw file reports in its first entry. *)
Definition raw_primaries (f : RawFile) : Z := default 0 (head (fNEvents f)).

(** The primaries count an input file reports in its first entry. *)
Definition input_primaries (f : InputFile) : Z :=
  default 0 (head (mage_n_events <$> concat (simTree f))).

(** The detector type of a germanium channel, as the grouping loop reads
    it: [chmap[geds_mapping[_rawid]]["type"]]. *)
Definition channel_type (chmap : ChannelMap) (_rawid : string) : option string :=
  match geds_mapping chmap !! _rawid with
  | Some name =>
      match chmap_lookup chmap name with
      | Ok meta => Some (det_type meta)
      | Err _ => None
      end
  | None => None
  end.

(** Every germanium channel has one of the four detector types. *)
Definition all_types_known (chmap : ChannelMap) : bool :=
  forallb (λ item : string * string,
             match channel_type chmap item.1 with
             | Some t => bool_decide (t ∈ det_types)
             | None => false
             end)
          (map_to_list (geds_mapping chmap)).

(** The channels of one detector type among [geds_mapping.items()]. *)
Definition of_type (chmap : ChannelMap) (t : string)
    (items : list (string * string)) : list (string * string) :=
  filter (λ item, channel_type chmap item.1 = Some t) items.

(** The per-channel histograms of a cut, in the order of the items. *)
Definition channel_hists (m : gmap string TH1F)
    (items : list (string * string)) : list TH1F :=
  (λ item, default [] (m !! item.1)) <$> items.

(** The effect of one step of the grouping loop on the dictionary
    [hists[_cut_name]]. *)
Definition add_channel_inner (chmap : ChannelMap) (m : gmap string TH1F)
    (item : string * string) : result (gmap string TH1F) :=
  name ← from_option KeyError (geds_mapping chmap !! item.1);
  meta ← chmap_lookup chmap name;
  h ← from_option KeyError (m !! item.1);
  ht ← from_option KeyError (m !! det_type meta);
  let m1 := <[det_type meta := TH1F_Add ht h]> m in
  h' ← from_option KeyError (m1 !! item.1);
  ha ← from_option KeyError (m1 !! "all");
  Ok (<["all" := TH1F_Add ha h']> m1).

(** The effect of the whole grouping loop on [hists[_cut_name]]. *)
Fixpoint group_channels (chmap : ChannelMap) (m : gmap string TH1F)
    (items : list (string * string)) : result (gmap string TH1F) :=
  match items with
  | [] => Ok m
  | item :: rest =>
      m1 ← add_channel_inner chmap m item;
      group_channels chmap m1 rest
  end.

(** [hists[_cut_name]] once the empty grouped histograms are created. *)
Definition with_empty_groups (c : HistConfig) (m : gmap string TH1F)
    : gmap string TH1F :=
  <["ppc" := TH1F_new c]> (<["icpc" := TH1F_new c]> (<["coax" := TH1F_new c]>
    (<["bege" := TH1F_new c]> (<["all" := TH1F_new c]> m)))).

(** The grouped histograms of [m'] are the bin-wise sums of the channel
    histograms of [m0] over [items], every bin of the axis included; the
    channel histograms of [m'] are those of [m0], and every item has
    one. *)
Definition grouped (chmap : ChannelMap) (c : HistConfig)
    (m0 m' : gmap string TH1F) (items : list (string * string)) : Prop :=
  (∀ r, is_Some (geds_mapping chmap !! r) → m' !! r = m0 !! r)
  ∧ (∀ item, item ∈ items → is_Some (m0 !! item.1))
  ∧ (∃ a, m' !! "all" = Some a ∧ length a = (nbins c + 2)%nat
          ∧ ∀ bin, (bin < nbins c + 2)%nat →
              bin_content a bin = bin_sum (channel_hists m0 items) bin)
  ∧ (∀ t, t ∈ det_types →
       ∃ ht, m' !! t = Some ht ∧ length ht = (nbins c + 2)%nat
             ∧ ∀ bin, (bin < nbins c + 2)%nat →
                 bin_content ht bin
                 = bin_sum (channel_hists m0 (of_type chmap t items)) bin).

(** The pair of channels of a two-hit event as a row of the channel array. *)
Definition pair_row (pr : Z * Z) : list Z := [pr.1; pr.2].

Definition swap_pair (pr : Z * Z) : Z * Z := (pr.2, pr.1).

(** The value of a resolved channel in one of the mappings. *)
Definition mapped (mapping : gmap Z Z) (c : Z) : Z := default 0 (mapping !! c).

(** Both channels of every pair are keys of both mappings. *)
Definition resolved (ms mp : gmap Z Z) (pairs : list (Z * Z)) : Prop :=
  ∀ pr, pr ∈ pairs →
    is_Some (ms !! pr.1) ∧ is_Some (ms !! pr.2)
    ∧ is_Some (mp !! pr.1) ∧ is_Some (mp !! pr.2).

(** The category of one event as the array expression of
    [get_m2_categories] computes it. *)
Definition category_of (s1 s2 p1 p2 : Z) : Z :=
  let same_string := s1 =? s2 in
  let neighbour := Z.abs (p1 - p2) =? 1 in
  1 * bool_to_Z (same_string && neighbour)
  + 2 * bool_to_Z (same_string && negb neighbour)
  + 3 * bool_to_Z (negb same_string).

(** The string distance of one event as [get_string_row_diff] computes it. *)
Definition string_diff_of (s1 s2 : Z) : Z :=
  Z.min ((s1 - s2) `mod` 11) ((- s1 + s2) `mod` 11).

(** The four mappings hold, under the key [id], the name, the channel
    label, the string and the position given. *)
Definition resolved_as (mage_names : MageNames) (id : Z)
    (name channel : string) (s p : Z) : Prop :=
  mn_name mage_names !! id = Some name
  ∧ mn_channel mage_names !! id = Some channel
  ∧ mn_string mage_names !! id = Some s
  ∧ mn_position mage_names !! id = Some p.

(** Every key of the mappings is a key of all four, and what they hold
    under it is the record of one germanium detector of the channel map
    that sits at the location the digits of the key encode. *)
Definition consistent (chmap : ChannelMap) (mage_names : MageNames) : Prop :=
  ∀ id, in_mappings mage_names id →
    ∃ name meta s p,
      (name, meta) ∈ chmap
      ∧ is_ged (py_str id) = Ok true
      ∧ mage_string (py_str id) = Ok s ∧ mage_pos (py_str id) = Ok p
      ∧ chmap_entry_matches s p meta = true
      ∧ resolved_as mage_names id name (ch_label (daq_rawid meta)) s p.
(** Every character of [s] is a decimal digit. *)
Fixpoint all_digits (s : string) : bool :=
  match s with
  | EmptyString => true
  | String c s' => is_digit c && all_digits s'
  end.

(** [m] is [letter] followed by exactly [n] decimal digits. *)
Definition is_tag (letter : ascii) (n : nat) (m : string) : Prop :=
  ∃ rest, m = String letter rest ∧ String.length rest = n ∧ all_digits rest = true.

(** The character [sep] does not occur in [s]. *)
Fixpoint sep_free (sep : ascii) (s : string) : bool :=
  match s with
  | EmptyString => true
  | String c s' => negb (Ascii.eqb c sep) && sep_free sep s'
  end.

(** What a step leaves alone for the cut [c]: its per-run histograms and
    its summed histogram. *)
Definition keeps_run_and_sum (c : string) (st st' : State) : Prop :=
  run_hists st' !! c = run_hists st !! c ∧ sum_hists st' !! c = sum_hists st !! c.

(** ** make_tier_evt_config_file.py: the detector table

    The script builds, for the germanium detectors of the channel map,
    the dictionary [outstr] that it dumps as the evt-tier configuration.
    Its inputs are read from files: the [--dataset] flag, the hardware
    channel map [chmap], the analysis channel map
    [lmeta.channelmap(datetimestamp)], the dead-layer table [all_det]
    and the calibration results [data]; they are the variables of the
    section. The loading of these files is not modelled. *)

(** What the script reads of [lmeta.channelmap(datetimestamp)[gedname]]:
    [analysis.usability] and [daq.rawid]. *)
Record GedMeta : Type := {
  analysis_usability : string;
  ged_daq_rawid : Z
}.

(** The ["energy"] entry: three numbers or three nulls. *)
Record Energy : Type := {
  sig0 : option Q;
  sig1 : option Q;
  sig2 : option Q
}.

(** One value of [outstr]. *)
Record EvtEntry : Type := {
  evt_name : string;
  nplus_fccd_mm : Q;
  evt_energy : Energy;
  evt_usability : string
}.

(** How a script ends: it falls off its end, raises, or calls
    [sys.exit]. *)
Inductive Outcome (A : Type) : Type :=
| Returned (a : A)
| Raised (e : PyError)
| Exited (code : Z).
Arguments Returned {A} a.
Arguments Raised {A} e.
Arguments Exited {A} code.

(** A loop that threads a value through a fallible body. *)
Fixpoint foldR {A B} (body : B → A → result B) (b : B) (l : list A) : result B :=
  match l with
  | [] => Ok b
  | x :: xs => b' ← body b x; foldR body b' xs
  end.

Section EvtConfig.

(** [args.dataset] *)
Variable dataset : string.
(** [chmap = lmeta.hardware.configuration.channelmaps.on(datetimestamp)] *)
Variable chmap : ChannelMap.
(** [lmeta.channelmap(datetimestamp)] *)
Variable channelmap : gmap string GedMeta.
(** [all_det.loc[gedname]['fccd-mm']] *)
Variable all_det : gmap string Q.
(** [data[ch]['ecal']['cuspEmax_ctc_cal']['eres_pars']], [None] when the
    channel is a key of [data] and one of the nested keys is missing. *)
Variable data : gmap string (option (list Q)).
(** [math.sqrt] on a number that is not negative. *)
Variable math_sqrt : Q → Q.

(** [math.sqrt(x)]: a ValueError on a negative number. *)
Definition py_sqrt (x : Q) : result Q :=
  if Qlt_le_dec x 0 then Err ValueError else Ok (math_sqrt x).

(** [detlist]: the names of the germanium detectors, in the order of the
    channel map. *)
Definition detlist : list string :=
  (filter (λ entry : string * ChannelMeta, system entry.2 = "geds") chmap).*1.

(** The usability written for a detector: ["no_psd"] becomes ["ac"] in
    the golden dataset and ["on"] otherwise. *)
Definition usability_mask (mask : string) : string :=
  if String.eqb dataset "golden" then
    if String.eqb mask "no_psd" then "ac" else mask
  else
    if String.eqb mask "no_psd" then "on" else mask.

(** Body of [for gedname in detlist]. *)
Definition evt_entry (outstr : gmap Z EvtEntry) (gedname : string)
    : result (gmap Z EvtEntry) :=
  ged ← from_option KeyError (channelmap !! gedname);
  let mask := usability_mask (analysis_usability ged) in
  let ch := "ch" +:+ py_str (ged_daq_rawid ged) in
  fccd ← from_option KeyError (all_det !! gedname);
  meta ← chmap_lookup chmap gedname;
  let string_ := loc_string (location meta) in
  meta ← chmap_lookup chmap gedname;
  let posn := loc_position (location meta) in
  let mageid := mageid string_ posn in
  match data !! ch with
  | Some pars =>
      eres ← from_option KeyError pars;
      e0 ← from_option IndexError (eres !! 0%nat);
      s0 ← py_sqrt e0;
      e1 ← from_option IndexError (eres !! 1%nat);
      s1 ← py_sqrt e1;
      Ok (<[mageid := {| evt_name := gedname; nplus_fccd_mm := fccd;
                         evt_energy := {| sig0 := Some (s0 / 2.355)%Q;
                                          sig1 := Some (s1 / 2.355)%Q;
                                          sig2 := Some 0%Q |};
                         evt_usability := mask |}]> outstr)
  | None =>
      Ok (<[mageid := {| evt_name := gedname; nplus_fccd_mm := fccd;
                         evt_energy := {| sig0 := None; sig1 := None; sig2 := None |};
                         evt_usability := mask |}]> outstr)
  end.

(** The two parts of the script that are modelled: the check of the
    [--dataset] flag, then the loop over the germanium detectors.
    [Returned outstr] says that the loop has run to its end with the
    table [outstr], which the script then dumps; what the script does
    between the check and the loop (the wildcard, the search for the
    calibration file, the reading of the inputs) and the dump itself can
    raise too and are not part of the model. *)
Definition make_tier_evt_config : Outcome (gmap Z EvtEntry) :=
  if String.eqb dataset "golden" || String.eqb dataset "silver" then
    match foldR evt_entry ∅ detlist with
    | Ok outstr => Returned outstr
    | Err e => Raised e
    end
  else Exited 1.

End EvtConfig.

(** The identifier the generator gives to an entry of the channel map. *)
Definition mageid_of (entry : string * ChannelMeta) : Z :=
  mageid (loc_string (location entry.2)) (loc_position (location entry.2)).

(** The names of the channel map are distinct (it is a dictionary). *)
Definition distinct_names (chmap : ChannelMap) : Prop := NoDup chmap.*1.

(** [v] is the value the generator writes for the detector [entry]. *)
Definition written_for (dataset : string) (channelmap : gmap string GedMeta)
    (all_det : gmap string Q) (data : gmap string (option (list Q)))
    (entry : string * ChannelMeta) (v : EvtEntry) : Prop :=
  ∃ ged,
    channelmap !! entry.1 = Some ged
    ∧ evt_name v = entry.1
    ∧ all_det !! entry.1 = Some (nplus_fccd_mm v)
    ∧ evt_usability v = usability_mask dataset (analysis_usability ged)
    ∧ (data !! ch_label (ged_daq_rawid ged) = None →
         evt_energy v = {| sig0 := None; sig1 := None; sig2 := None |})
    ∧ (is_Some (data !! ch_label (ged_daq_rawid ged)) →
         is_Some (sig0 (evt_energy v)) ∧ is_Some (sig1 (evt_energy v))
         ∧ sig2 (evt_energy v) = Some 0%Q).

(** A small detector table for the channel map of the deployment. *)
Module EvtExample.

Definition channelmap : gmap string GedMeta :=
  list_to_map
    [("V02160A", {| analysis_usability := "no_psd"; ged_daq_rawid := 1104000 |});
     ("B00035C", {| analysis_usability := "on"; ged_daq_rawid := 1104001 |});
     ("C000RG1", {| analysis_usability := "off"; ged_daq_rawid := 1104002 |})].

Definition all_det : gmap string Q :=
  list_to_map [("V02160A", 1.1%Q); ("B00035C", 0.9%Q); ("C000RG1", 1.6%Q)].

Definition data : gmap string (option (list Q)) :=
  list_to_map [("ch1104000", Some [4%Q; 9%Q; 0%Q]); ("ch1104002", Some [1%Q; 0%Q])].

(** A square root that is exact on the squares of integers. *)
Definition math_sqrt (x : Q) : Q := inject_Z (Z.sqrt (Qfloor x)).

Definition run (dataset : string) : Outcome (gmap Z EvtEntry) :=
  make_tier_evt_config dataset Example.chmap channelmap all_det data math_sqrt.

Definition outstr : gmap Z EvtEntry :=
  match run "golden" with
  | Returned o => o
  | _ => ∅
  end.

End EvtExample.

(** Number of entries of the bucket [name] of the two-dimensional cut
    [c], zero when there is no such histogram. *)
Definition bucket_entries (st : State) (c name : string) : nat :=
  entries (default [] (hists_2d st !! c ≫= (.!! name))).

(** Every two-dimensional histogram has the bins of its two axes. *)
Definition shape_2d (cfg : HistConfig) (st : State) : Prop :=
  ∀ c m name h, hists_2d st !! c = Some m → m !! name = Some h →
    length h = ((nbins cfg + 2) * (nbins cfg + 2))%nat.

(** The categories, and the string distances, split the events of the
    bucket ["all"] of the cut [c]. *)
Definition balanced (st : State) (c : string) : Prop :=
  bucket_entries st c "all"
  = (bucket_entries st c "cat_1" + bucket_entries st c "cat_2"
     + bucket_entries st c "cat_3")%nat
  ∧ bucket_entries st c "all"
    = (bucket_entries st c "sd_0" + bucket_entries st c "sd_1"
       + bucket_entries st c "sd_2" + bucket_entries st c "sd_3"
       + bucket_entries st c "sd_4" + bucket_entries st c "sd_5"
       + bucket_entries st c "sd_6")%nat.

(** What a step leaves alone: the two-dimensional histograms. *)
Definition keeps_hists_2d (st st' : State) : Prop := hists_2d st' = hists_2d st.

(** What a step keeps: the buckets that exist. *)
Definition keeps_buckets (st st' : State) : Prop :=
  ∀ c m, hists_2d st !! c = Some m →
    ∃ m', hists_2d st' !! c = Some m' ∧ ∀ name, is_Some (m !! name) → is_Some (m' !! name).

(** The invariant of the two-dimensional histograms. *)
Definition buckets_ok (cfg : HistConfig) (st : State) : Prop :=
  shape_2d cfg st ∧ ∀ c, balanced st c.

(** The number of records of a cleaned batch that pass a cut (none when
    the selection raises). *)
Definition selected_of (eval_cut : string → list Event → list bool)
    (cd : CutSpec) (array : list Event) : nat :=
  match apply_cut eval_cut (cut_string cd) array with
  | Ok array_cut => length array_cut
  | Err _ => 0%nat
  end.

(** The number of records of all batches of all input files that pass a
    cut, after the cleaning. *)
Definition selected_in_run (clean : list RawEvent → list Event)
    (eval_cut : string → list Event → list bool) (cd : CutSpec)
    (files : list InputFile) : nat :=
  sum_list_with
    (λ f, sum_list_with (λ batch, selected_of eval_cut cd (clean batch)) (simTree f))
    files.

(** What the cut [c0] of the loop over the cuts contributes to the cut
    named [c]. *)
Definition cut_weight (eval_cut : string → list Event → list bool)
    (array : list Event) (c : string) (c0 : string * CutSpec) : nat :=
  if String.eqb c0.1 c then selected_of eval_cut c0.2 array else 0%nat.

(** Number of entries of the summed histogram of the cut [c], zero when
    there is none. *)
Definition sum_entries (st : State) (c : string) : nat :=
  entries (default [] (sum_hists st !! c ≫= (.!! "all"))).

(** Every summed histogram has the bins of its axis. *)
Definition shape_sum (cfg : HistConfig) (st : State) : Prop :=
  ∀ c m k h, sum_hists st !! c = Some m → m !! k = Some h →
    length h = (nbins cfg + 2)%nat.

(** What a step leaves alone: the summed histograms. *)
Definition keeps_sum_hists (st st' : State) : Prop := sum_hists st' = sum_hists st.

(** What a step keeps: the summed histograms that exist. *)
Definition keeps_sum_keys (st st' : State) : Prop :=
  ∀ c m, sum_hists st !! c = Some m →
    ∃ m', sum_hists st' !! c = Some m' ∧ ∀ k, is_Some (m !! k) → is_Some (m' !! k).

(** What a step adds to the keys of [hists]: nothing but the names of
    the grouped histograms. *)
Definition keeps_channel_keys (st st' : State) : Prop :=
  ∀ c m' k, hists st' !! c = Some m' → is_Some (m' !! k) →
    (∃ m, hists st !! c = Some m ∧ is_Some (m !! k)) ∨ k = "all" ∨ k ∈ det_types.





(** What a step leaves alone: the per-channel and the per-run
    histograms. *)
Definition keeps_plain (st st' : State) : Prop :=
  hists st' = hists st ∧ run_hists st' = run_hists st.

(** What a step leaves alone: the per-run histograms. *)
Definition keeps_run_hists (st st' : State) : Prop := run_hists st' = run_hists st.

(** What a step keeps: the cuts that have per-run histograms. *)
Definition keeps_run_cuts (st st' : State) : Prop :=
  ∀ c, is_Some (run_hists st !! c) → is_Some (run_hists st' !! c).



(** A channel array the categoriser accepts: at least one row, rows of
    one length, and in every row two leading channels that are keys of
    both mappings. *)
Definition usable (ms mp : gmap Z Z) (rows : list (list Z)) : Prop :=
  rows ≠ []
  ∧ (∀ r1 r2, r1 ∈ rows → r2 ∈ rows → length r1 = length r2)
  ∧ ∀ row, row ∈ rows →
      ∃ c1 c2, row !! 0%nat = Some c1 ∧ row !! 1%nat = Some c2
               ∧ is_Some (ms !! c1) ∧ is_Some (ms !! c2)
               ∧ is_Some (mp !! c1) ∧ is_Some (mp !! c2).

(** The inputs of the generator are complete for a detector: it is a key
    of the analysis channel map and of the dead-layer table and, when its
    channel is a key of the calibration results, these hold at least two
    resolution parameters, the first two not negative. *)
Definition complete (channelmap : gmap string GedMeta) (all_det : gmap string Q)
    (data : gmap string (option (list Q))) (gedname : string) : Prop :=
  ∃ ged,
    channelmap !! gedname = Some ged
    ∧ is_Some (all_det !! gedname)
    ∧ ∀ pars, data !! ch_label (ged_daq_rawid ged) = Some pars →
        ∃ eres e0 e1,
          pars = Some eres ∧ eres !! 0%nat = Some e0 ∧ eres !! 1%nat = Some e1
          ∧ (0 <= e0)%Q ∧ (0 <= e1)%Q.

(** * Properties *)

(** ** Results and [mapR] *)

Lemma rbind_ok_inv {A B} (r : result A) (k : A → result B) b :
  r ≫= k = Ok b → ∃ a, r = Ok a ∧ k a = Ok b.
Proof. destruct r as [a|e]; [eauto | discriminate]. Qed.

Lemma mapR_fmap_total {A B} (f : A → result B) (g : A → B) (l : list A) :
  Forall (λ x, f x = Ok (g x)) l → mapR f l = Ok (g <$> l).
Proof.
  induction 1 as [|x l Hx _ IH]; [done|].
  simpl. rewrite Hx. simpl. unfold mbind, result_bind in *. simpl. by rewrite IH.
Qed.

Lemma mapR_ok_Forall2 {A B} (f : A → result B) (l : list A) (l' : list B) :
  mapR f l = Ok l' → Forall2 (λ x y, f x = Ok y) l l'.
Proof.
  revert l'. induction l as [|x l IH]; intros l' H; simpl in H.
  - injection H as <-. constructor.
  - apply rbind_ok_inv in H as (y & Hy & H).
    apply rbind_ok_inv in H as (ys & Hys & H).
    injection H as <-. constructor; auto.
Qed.

(** ** C9: the generator's identifiers decode to their indices *)

Lemma roundtrip_all :
  forallb (λ s, forallb (roundtrip_ok s) (seqZ 0 100)) (seqZ 0 100) = true.
Proof. vm_compute. reflexivity. Qed.

(** C9. For every string index and position index in [0..99], the
    identifier [1000000 + 1*10000 + s*100 + p] built by the config-file
    generator decodes under the resolver's slicing rule (first character
    the germanium flag, characters 3-4 the string, 5-6 the position) to a
    set flag, string [s] and position [p]. *)
Theorem mageid_decodes (s p : Z) :
  0 ≤ s < 100 → 0 ≤ p < 100 →
  is_ged (py_str (mageid s p)) = Ok true
  ∧ mage_string (py_str (mageid s p)) = Ok s
  ∧ mage_pos (py_str (mageid s p)) = Ok p.
Proof.
  intros Hs Hp.
  pose proof roundtrip_all as H.
  rewrite forallb_forall in H.
  assert (Hs' : In s (seqZ 0 100)) by (apply list_elem_of_In, elem_of_seqZ; lia).
  specialize (H s Hs'). rewrite forallb_forall in H.
  assert (Hp' : In p (seqZ 0 100)) by (apply list_elem_of_In, elem_of_seqZ; lia).
  specialize (H p Hp'). unfold roundtrip_ok in H.
  destruct (is_ged _) as [[|]|]; try discriminate.
  destruct (mage_string _) as [s'|]; try discriminate.
  destruct (mage_pos _) as [p'|]; try discriminate.
  apply andb_prop in H as [H1 H2].
  apply Z.eqb_eq in H1, H2. by subst.
Qed.

(** ** The categoriser on an array of channel pairs *)

Lemma mapR_fmap_ok {A B C} (f : B → result C) (h : A → B) (g : A → C) (l : list A) :
  (∀ x, x ∈ l → f (h x) = Ok (g x)) → mapR f (h <$> l) = Ok (g <$> l).
Proof.
  induction l as [|x l IH]; intros H; [done|].
  rewrite !fmap_cons. cbn [mapR]. rewrite (H x) by left.
  rewrite IH by (intros y Hy; apply H; by right). done.
Qed.

Lemma np_vstack_pairs (pairs : list (Z * Z)) :
  pairs ≠ [] → np_vstack (pair_row <$> pairs) = Ok (pair_row <$> pairs).
Proof.
  destruct pairs as [|pr pairs]; [done|]. intros _. simpl.
  replace (forallb _ _) with true; [done|].
  symmetry. apply forallb_forall. intros r Hr.
  apply list_elem_of_In, list_elem_of_fmap in Hr as (x & -> & _). done.
Qed.

Lemma np_column_0_pairs (pairs : list (Z * Z)) :
  np_column 0 (pair_row <$> pairs) = Ok (pairs.*1).
Proof. apply mapR_fmap_ok. done. Qed.

Lemma np_column_1_pairs (pairs : list (Z * Z)) :
  np_column 1 (pair_row <$> pairs) = Ok (pairs.*2).
Proof. apply mapR_fmap_ok. done. Qed.

Lemma converter_resolved {A} (mapping : gmap Z Z) (h : A → Z) (l : list A) :
  l ≠ [] → (∀ x, x ∈ l → is_Some (mapping !! h x)) →
  get_vectorised_converter mapping (h <$> l) = Ok ((λ x, mapped mapping (h x)) <$> l).
Proof.
  intros Hne H. unfold get_vectorised_converter.
  destruct l as [|x l]; [done|]. change (h <$> x :: l) with (h x :: (h <$> l)).
  change (h x :: (h <$> l)) with (h <$> x :: l).
  cbv match. assert (Hm : mapR (λ mage_id, from_option KeyError (mapping !! mage_id))
    (h <$> x :: l) = Ok ((λ x, mapped mapping (h x)) <$> x :: l)).
  { apply mapR_fmap_ok. intros y Hy. destruct (H y Hy) as [v Hv].
    unfold mapped. by rewrite Hv. }
  exact Hm.
Qed.

Lemma category_of_spec (s1 s2 p1 p2 : Z) :
  category_of s1 s2 p1 p2 =
    if decide (s1 = s2) then (if decide (Z.abs (p1 - p2) = 1) then 1 else 2) else 3.
Proof.
  unfold category_of.
  destruct (Z.eqb_spec s1 s2), (Z.eqb_spec (Z.abs (p1 - p2)) 1);
    repeat case_decide; simpl; lia.
Qed.

Lemma category_of_swap (s1 s2 p1 p2 : Z) :
  category_of s2 s1 p2 p1 = category_of s1 s2 p1 p2.
Proof.
  rewrite !category_of_spec.
  replace (Z.abs (p2 - p1)) with (Z.abs (p1 - p2)) by lia.
  repeat case_decide; congruence.
Qed.

Lemma get_m2_categories_pairs (ms mp : gmap Z Z) (pairs : list (Z * Z)) :
  pairs ≠ [] → resolved ms mp pairs →
  get_m2_categories (pair_row <$> pairs)
      (get_vectorised_converter ms) (get_vectorised_converter mp)
  = Ok ((λ pr, category_of (mapped ms pr.1) (mapped ms pr.2)
                           (mapped mp pr.1) (mapped mp pr.2)) <$> pairs).
Proof.
  intros Hne Hres. unfold get_m2_categories.
  rewrite np_vstack_pairs by done. simpl.
  rewrite np_column_0_pairs, np_column_1_pairs. simpl.
  rewrite !converter_resolved by (done || (intros x Hx; apply (Hres x Hx))).
  simpl. f_equal. clear Hne Hres.
  induction pairs as [|pr pairs IH]; [done|].
  simpl. f_equal. exact IH.
Qed.

Lemma resolved_swap (ms mp : gmap Z Z) (pairs : list (Z * Z)) :
  resolved ms mp pairs → resolved ms mp (swap_pair <$> pairs).
Proof.
  intros H pr Hpr. apply list_elem_of_fmap in Hpr as (pr' & -> & Hpr').
  destruct (H pr' Hpr') as (? & ? & ? & ?). simpl. auto.
Qed.

Lemma mapped_lookup (mapping : gmap Z Z) (c v : Z) :
  mapping !! c = Some v → mapped mapping c = v.
Proof. unfold mapped. by intros ->. Qed.

(** C3. For an array of channel pairs whose channels are resolved, the
    categoriser returns one integer per event; the category of an event
    with string indices [s1], [s2] and positions [p1], [p2] is 1 when
    [s1 = s2] and [|p1 - p2| = 1], 2 when [s1 = s2] and [|p1 - p2| <> 1],
    and 3 when [s1 <> s2]; every value is 1, 2 or 3; and swapping the two
    channels of every pair gives the same categories. *)
Theorem get_m2_categories_rule (ms mp : gmap Z Z) (pairs : list (Z * Z))
    (i : nat) (c1 c2 s1 s2 p1 p2 : Z) :
  resolved ms mp pairs →
  pairs !! i = Some (c1, c2) →
  ms !! c1 = Some s1 → ms !! c2 = Some s2 →
  mp !! c1 = Some p1 → mp !! c2 = Some p2 →
  ∃ categories,
    get_m2_categories (pair_row <$> pairs)
      (get_vectorised_converter ms) (get_vectorised_converter mp) = Ok categories
    ∧ length categories = length pairs
    ∧ categories !! i =
        Some (if decide (s1 = s2)
              then (if decide (Z.abs (p1 - p2) = 1) then 1 else 2) else 3)
    ∧ Forall (λ c, c = 1 ∨ c = 2 ∨ c = 3) categories
    ∧ get_m2_categories (pair_row <$> (swap_pair <$> pairs))
        (get_vectorised_converter ms) (get_vectorised_converter mp) = Ok categories.
Proof.
  intros Hres Hi Hs1 Hs2 Hp1 Hp2.
  assert (Hne : pairs ≠ []) by (intros ->; discriminate).
  eexists. split; [by apply get_m2_categories_pairs|].
  split; [by rewrite length_fmap|].
  split.
  { rewrite list_lookup_fmap, Hi. simpl.
    rewrite (mapped_lookup _ _ _ Hs1), (mapped_lookup _ _ _ Hs2),
      (mapped_lookup _ _ _ Hp1), (mapped_lookup _ _ _ Hp2).
    by rewrite category_of_spec. }
  split.
  { apply Forall_fmap, Forall_forall. intros pr _. simpl.
    rewrite category_of_spec. repeat case_decide; auto. }
  rewrite get_m2_categories_pairs.
  - f_equal. rewrite <- list_fmap_compose. apply list_fmap_ext.
    intros _ pr _. simpl. apply category_of_swap.
  - by destruct pairs.
  - by apply resolved_swap.
Qed.

(** ** The string and floor distances *)

Lemma get_string_row_diff_pairs (ms mp : gmap Z Z) (pairs : list (Z * Z)) :
  pairs ≠ [] → resolved ms mp pairs →
  get_string_row_diff (pair_row <$> pairs)
      (get_vectorised_converter ms) (get_vectorised_converter mp)
  = Ok ((λ pr, string_diff_of (mapped ms pr.1) (mapped ms pr.2)) <$> pairs,
        (λ pr, Z.abs (mapped mp pr.1 - mapped mp pr.2)) <$> pairs).
Proof.
  intros Hne Hres. unfold get_string_row_diff.
  rewrite np_vstack_pairs by done. simpl.
  rewrite np_column_0_pairs, np_column_1_pairs. simpl.
  rewrite !converter_resolved by (done || (intros x Hx; apply (Hres x Hx))).
  simpl. f_equal. clear Hne Hres.
  induction pairs as [|pr pairs IH]; [done|].
  simpl. injection IH as IH1 IH2. f_equal; f_equal; assumption.
Qed.

Lemma string_diff_of_sym (s1 s2 : Z) : string_diff_of s1 s2 = string_diff_of s2 s1.
Proof.
  unfold string_diff_of.
  replace (- s1 + s2) with (s2 - s1) by lia.
  replace (- s2 + s1) with (s1 - s2) by lia.
  apply Z.min_comm.
Qed.

(** C4. For an array of channel pairs whose channels are resolved, the
    string distance of an event with string indices [s1], [s2] is
    [min((s1 - s2) mod 11, (s2 - s1) mod 11)], it is the same for the pair
    and for the swapped pair, and the floor distance returned with it is
    [|p1 - p2|]. *)
Theorem get_string_row_diff_symmetric (ms mp : gmap Z Z) (pairs : list (Z * Z))
    (i : nat) (c1 c2 s1 s2 p1 p2 : Z) :
  resolved ms mp pairs →
  pairs !! i = Some (c1, c2) →
  ms !! c1 = Some s1 → ms !! c2 = Some s2 →
  mp !! c1 = Some p1 → mp !! c2 = Some p2 →
  ∃ string_diff floor_diff,
    get_string_row_diff (pair_row <$> pairs)
      (get_vectorised_converter ms) (get_vectorised_converter mp)
      = Ok (string_diff, floor_diff)
    ∧ string_diff !! i = Some (Z.min ((s1 - s2) `mod` 11) ((s2 - s1) `mod` 11))
    ∧ floor_diff !! i = Some (Z.abs (p1 - p2))
    ∧ Z.min ((s1 - s2) `mod` 11) ((s2 - s1) `mod` 11)
      = Z.min ((s2 - s1) `mod` 11) ((s1 - s2) `mod` 11)
    ∧ get_string_row_diff (pair_row <$> (swap_pair <$> pairs))
        (get_vectorised_converter ms) (get_vectorised_converter mp)
        = Ok (string_diff, floor_diff).
Proof.
  intros Hres Hi Hs1 Hs2 Hp1 Hp2.
  assert (Hne : pairs ≠ []) by (intros ->; discriminate).
  eexists _, _. split; [by apply get_string_row_diff_pairs|].
  split.
  { rewrite list_lookup_fmap, Hi. simpl.
    rewrite (mapped_lookup _ _ _ Hs1), (mapped_lookup _ _ _ Hs2).
    unfold string_diff_of. do 3 f_equal. lia. }
  split.
  { rewrite list_lookup_fmap, Hi. simpl.
    by rewrite (mapped_lookup _ _ _ Hp1), (mapped_lookup _ _ _ Hp2). }
  split; [apply Z.min_comm|].
  rewrite get_string_row_diff_pairs.
  - f_equal. f_equal; rewrite <- list_fmap_compose; apply list_fmap_ext;
      intros _ pr _; simpl; [apply string_diff_of_sym | lia].
  - by destruct pairs.
  - by apply resolved_swap.
Qed.

(** ** Decimal strings *)

Lemma py_str_pos (p : positive) :
  py_str (Zpos p) = NilEmpty.string_of_uint (Pos.to_uint p).
Proof.
  unfold py_str. simpl.
  pose proof (DecimalPos.Unsigned.to_uint_nonnil p) as Hn.
  by destruct (Pos.to_uint p).
Qed.

Lemma to_uint_leading_nonzero (p : positive) :
  leading_nonzero (Pos.to_uint p) = true.
Proof.
  pose proof (DecimalPos.Unsigned.to_of (Pos.to_uint p)) as Hto.
  rewrite DecimalPos.Unsigned.of_to in Hto. simpl in Hto.
  pose proof (DecimalPos.Unsigned.to_uint_nonzero p) as Hnz.
  pose proof (DecimalFacts.nzhead_nonzero (Pos.to_uint p)) as Hhd.
  unfold Decimal.unorm in Hto.
  destruct (Decimal.nzhead (Pos.to_uint p)) eqn:E;
    try (rewrite Hto; reflexivity).
  - by rewrite Hto in Hnz.
  - by destruct (Hhd u).
Qed.

Lemma is_ged_leading_nonzero (d : Decimal.uint) :
  leading_nonzero d = true → is_ged (NilEmpty.string_of_uint d) = Ok true.
Proof. by destruct d. Qed.

Lemma of_lu_bound (d : Decimal.uint) :
  (DecimalPos.Unsigned.of_lu d < 10 ^ N.of_nat (Decimal.nb_digits d))%N.
Proof.
  induction d; simpl Decimal.nb_digits; simpl DecimalPos.Unsigned.of_lu;
    rewrite ?Nat2N.inj_succ, ?N.pow_succ_r'; simpl; lia.
Qed.

Lemma to_uint_digits (p : positive) :
  100000 ≤ Zpos p → (6 ≤ Decimal.nb_digits (Pos.to_uint p))%nat.
Proof.
  intros Hp.
  pose proof (DecimalPos.Unsigned.of_to p) as Hof.
  rewrite DecimalPos.Unsigned.of_uint_alt in Hof.
  pose proof (of_lu_bound (Decimal.rev (Pos.to_uint p))) as Hb.
  rewrite Hof, DecimalFacts.nb_digits_rev in Hb.
  destruct (Decimal.nb_digits (Pos.to_uint p)) as [|[|[|[|[|[|n]]]]]];
    simpl in Hb; lia.
Qed.

Lemma substring_digits (d : Decimal.uint) (i n : nat) :
  ∃ d', String.substring i n (NilEmpty.string_of_uint d) = NilEmpty.string_of_uint d'
        ∧ Decimal.nb_digits d' = (n `min` (Decimal.nb_digits d - i))%nat.
Proof.
  revert i n.
  induction d as [|d IH|d IH|d IH|d IH|d IH|d IH|d IH|d IH|d IH|d IH];
    intros [|i] [|n];
    try (exists Decimal.Nil; split; [reflexivity | simpl; lia]);
    try (destruct (IH i 0%nat) as (d' & H1 & H2); exists d'; split;
         [exact H1 | exact H2]);
    try (destruct (IH i (S n)) as (d' & H1 & H2); exists d'; split;
         [exact H1 | exact H2]);
    destruct (IH 0%nat n) as (d' & H1 & H2).
  all: first
    [ exists (Decimal.D0 d'); split; [simpl; rewrite H1; reflexivity | simpl; lia]
    | exists (Decimal.D1 d'); split; [simpl; rewrite H1; reflexivity | simpl; lia]
    | exists (Decimal.D2 d'); split; [simpl; rewrite H1; reflexivity | simpl; lia]
    | exists (Decimal.D3 d'); split; [simpl; rewrite H1; reflexivity | simpl; lia]
    | exists (Decimal.D4 d'); split; [simpl; rewrite H1; reflexivity | simpl; lia]
    | exists (Decimal.D5 d'); split; [simpl; rewrite H1; reflexivity | simpl; lia]
    | exists (Decimal.D6 d'); split; [simpl; rewrite H1; reflexivity | simpl; lia]
    | exists (Decimal.D7 d'); split; [simpl; rewrite H1; reflexivity | simpl; lia]
    | exists (Decimal.D8 d'); split; [simpl; rewrite H1; reflexivity | simpl; lia]
    | exists (Decimal.D9 d'); split; [simpl; rewrite H1; reflexivity | simpl; lia] ].
Qed.

Lemma py_int_digits (d : Decimal.uint) :
  d ≠ Decimal.Nil → ∃ v, py_int (NilEmpty.string_of_uint d) = Ok v.
Proof.
  intros Hd. exists (Z.of_int (Decimal.Pos d)). unfold py_int.
  assert (H : NilZero.int_of_string (NilEmpty.string_of_uint d) = Some (Decimal.Pos d)).
  { pose proof (NilEmpty.usu d) as Hu.
    destruct d; try done; unfold NilZero.int_of_string, NilZero.uint_of_string;
      simpl in *; by rewrite Hu. }
  by rewrite H.
Qed.

Lemma py_int_slice (d : Decimal.uint) (i j : nat) :
  (i < j)%nat → (i < Decimal.nb_digits d)%nat →
  ∃ v, py_int (py_slice (NilEmpty.string_of_uint d) i j) = Ok v.
Proof.
  intros Hij Hi. unfold py_slice.
  destruct (substring_digits d i (j - i)) as (d' & -> & Hn).
  apply py_int_digits. intros ->. simpl in Hn. lia.
Qed.

Lemma decode_ok (id : Z) :
  100000 ≤ id →
  is_ged (py_str id) = Ok true
  ∧ (∃ s, mage_string (py_str id) = Ok s) ∧ (∃ p, mage_pos (py_str id) = Ok p).
Proof.
  intros Hid. destruct id as [|p|p]; try lia.
  rewrite py_str_pos. pose proof (to_uint_digits p Hid) as Hn.
  split; [apply is_ged_leading_nonzero, to_uint_leading_nonzero|].
  split; apply py_int_slice; lia.
Qed.


(** ** The resolver only adds identifiers it has located *)

Section Resolver.

Variable chmap : ChannelMap.

Lemma located_empty : located chmap mage_names_empty.
Proof.
  intros id [H|[H|[H|H]]]; simpl in H; rewrite lookup_empty in H;
    by destruct H.
Qed.

Lemma located_entries (id s p : Z) (entries : ChannelMap) (mage_names : MageNames) :
  (∀ e, e ∈ entries → e ∈ chmap) →
  is_ged (py_str id) = Ok true →
  mage_string (py_str id) = Ok s → mage_pos (py_str id) = Ok p →
  located chmap mage_names →
  located chmap (foldl (process_chmap_entry id s p) mage_names entries).
Proof.
  intros Hsub Hged Hs Hp. revert mage_names.
  induction entries as [|[name meta] entries IH]; intros mage_names Hloc; [done|].
  simpl. apply IH; [intros e He; apply Hsub; by right|].
  destruct (chmap_entry_matches s p meta) eqn:Hm; [|done].
  intros id' Hin.
  destruct (decide (id' = id)) as [->|Hne].
  - split; [done|]. exists name, meta, s, p.
    split; [apply Hsub; left | done].
  - apply Hloc. unfold in_mappings in *. simpl in Hin.
    by rewrite !lookup_insert_ne in Hin.
Qed.

Lemma process_one_located (mage_names mage_names' : MageNames) (id : Z) :
  process_one_mage_id chmap mage_names id = Ok mage_names' →
  located chmap mage_names → located chmap mage_names'.
Proof.
  unfold process_one_mage_id. intros H Hloc.
  apply rbind_ok_inv in H as (ged & Hged & H).
  destruct ged; simpl in H.
  - apply rbind_ok_inv in H as (s & Hs & H).
    apply rbind_ok_inv in H as (p & Hp & H).
    injection H as <-. by apply located_entries.
  - by injection H as <-.
Qed.

Lemma process_from_located (mage_ids : list Z) (mage_names mage_names' : MageNames) :
  process_mage_id_from chmap mage_names mage_ids = Ok mage_names' →
  located chmap mage_names → located chmap mage_names'.
Proof.
  revert mage_names. induction mage_ids as [|id ids IH]; intros mage_names H Hloc.
  - by injection H as <-.
  - simpl in H. apply rbind_ok_inv in H as (names1 & H1 & H).
    eapply IH; [exact H|]. by eapply process_one_located.
Qed.

Lemma process_one_returns (mage_names : MageNames) (id : Z) :
  id = 0 ∨ 100000 ≤ id →
  ∃ mage_names', process_one_mage_id chmap mage_names id = Ok mage_names'.
Proof.
  intros [->|Hid]; [by eexists|].
  destruct (decode_ok id Hid) as (Hged & [s Hs] & [p Hp]).
  unfold process_one_mage_id. rewrite Hged, Hs, Hp. by eexists.
Qed.

Lemma process_from_returns (mage_ids : list Z) (mage_names : MageNames) :
  Forall (λ id, id = 0 ∨ 100000 ≤ id) mage_ids →
  ∃ mage_names', process_mage_id_from chmap mage_names mage_ids = Ok mage_names'.
Proof.
  intros H. revert mage_names.
  induction H as [|id ids Hid _ IH]; intros mage_names; [by eexists|].
  destruct (process_one_returns mage_names id Hid) as [names1 H1].
  simpl. rewrite H1. apply IH.
Qed.

(** What the resolver skips.  For a list of identifiers each of which is
    zero or has at least six decimal digits, the resolver returns its four
    mappings without raising; an identifier on which the flag test
    [bool(int(m_id[0]))] gives false is a key of none of them, and neither
    is an identifier whose digits name no (string, position) location of a
    germanium detector of the channel map. *)
Theorem process_mage_id_skips (mage_ids : list Z) :
  Forall (λ id, id = 0 ∨ 100000 ≤ id) mage_ids →
  ∃ mage_names,
    process_mage_id chmap mage_ids = Ok mage_names
    ∧ ∀ id, is_ged (py_str id) = Ok false ∨ ¬ has_location chmap id →
        mn_channel mage_names !! id = None ∧ mn_name mage_names !! id = None
        ∧ mn_string mage_names !! id = None ∧ mn_position mage_names !! id = None.
Proof.
  intros Hids.
  destruct (process_from_returns mage_ids mage_names_empty Hids) as [mage_names H].
  exists mage_names. split; [exact H|].
  pose proof (process_from_located _ _ _ H located_empty) as Hloc.
  intros id Hid.
  assert (Hnot : ¬ in_mappings mage_names id).
  { intros Hin. destruct (Hloc id Hin) as [Hged Hhas].
    destruct Hid as [Hz|Hno]; [congruence | by apply Hno]. }
  unfold in_mappings in Hnot.
  repeat split; apply eq_None_not_Some; tauto.
Qed.

End Resolver.

(** ** Histogram addition *)

Lemma length_TH1F_Add (h h1 : TH1F) : length (TH1F_Add h h1) = length h.
Proof. unfold TH1F_Add. by rewrite length_imap. Qed.

Lemma bin_content_TH1F_Add (h h1 : TH1F) (bin : nat) :
  (bin < length h)%nat →
  bin_content (TH1F_Add h h1) bin = (bin_content h bin + bin_content h1 bin)%nat.
Proof.
  intros Hlt. unfold bin_content, TH1F_Add. rewrite list_lookup_imap.
  destruct (lookup_lt_is_Some_2 h bin Hlt) as [c ->]. done.
Qed.

Lemma length_TH1F_new (c : HistConfig) : length (TH1F_new c) = (nbins c + 2)%nat.
Proof. unfold TH1F_new. by rewrite length_replicate. Qed.

Lemma bin_content_TH1F_new (c : HistConfig) (bin : nat) :
  bin_content (TH1F_new c) bin = 0%nat.
Proof.
  unfold bin_content, TH1F_new.
  destruct (replicate _ _ !! bin) as [x|] eqn:E; [|done].
  by apply lookup_replicate in E as [-> _].
Qed.

Lemma entries_replicate_0 (n : nat) : entries (replicate n 0%nat) = 0%nat.
Proof. unfold entries. rewrite sum_list_replicate. lia. Qed.

Lemma bin_sum_app (hs hs' : list TH1F) (bin : nat) :
  bin_sum (hs ++ hs') bin = (bin_sum hs bin + bin_sum hs' bin)%nat.
Proof. apply sum_list_with_app. Qed.

(** ** Reasoning in the script monad *)

Lemma M_bind_eq {A B} (m : M A) (k : A → M B) (st : State) :
  (m ≫= k) st =
    match m st with
    | (Ok a, st') => k a st'
    | (Err e, st') => (Err e, st')
    end.
Proof. reflexivity. Qed.

Lemma M_bind_ok_inv {A B} (m : M A) (k : A → M B) (st st' : State) (b : B) :
  (m ≫= k) st = (Ok b, st') →
  ∃ a st1, m st = (Ok a, st1) ∧ k a st1 = (Ok b, st').
Proof.
  rewrite M_bind_eq. destruct (m st) as [[a|e] st1]; [eauto | discriminate].
Qed.

Lemma liftR_ok_inv {A} (r : result A) (st st' : State) (a : A) :
  liftR r st = (Ok a, st') → r = Ok a ∧ st' = st.
Proof. unfold liftR. by intros [= -> ->]. Qed.

Lemma get_state_ok_inv (st st' s : State) :
  get_state st = (Ok s, st') → s = st ∧ st' = st.
Proof. unfold get_state. by intros [= -> ->]. Qed.

Lemma mret_ok_inv {A} (a b : A) (st st' : State) :
  (mret a : M A) st = (Ok b, st') → b = a ∧ st' = st.
Proof. by intros [= -> ->]. Qed.

Lemma modify_with_ok_inv {D} (get : State → D) (set : D → State → State)
    (f : D → result D) (st st' : State) (u : unit) :
  modify_with get set f st = (Ok u, st') →
  ∃ d, f (get st) = Ok d ∧ st' = set d st.
Proof.
  unfold modify_with. destruct (f (get st)) as [d|e]; [|discriminate].
  intros [= _ <-]. eauto.
Qed.

Lemma for_each_cons_ok_inv {A} (x : A) (xs : list A) (body : A → M unit)
    (st st' : State) (u : unit) :
  for_each (x :: xs) body st = (Ok u, st') →
  ∃ st1, body x st = (Ok tt, st1) ∧ for_each xs body st1 = (Ok u, st').
Proof.
  simpl. intros H. apply M_bind_ok_inv in H as ([] & st1 & H1 & H2). eauto.
Qed.

Section Respects.

Context (R : State → State → Prop) `{!PreOrder R}.

Lemma respects_ret {A} (a : A) : respects R (mret a : M A).
Proof. intros st. simpl. reflexivity. Qed.

Lemma respects_raise {A} (e : PyError) : respects R (raise e : M A).
Proof. intros st. simpl. reflexivity. Qed.

Lemma respects_liftR {A} (r : result A) : respects R (liftR r).
Proof. intros st. simpl. reflexivity. Qed.

Lemma respects_get_state : respects R get_state.
Proof. intros st. simpl. reflexivity. Qed.

Lemma respects_bind {A B} (m : M A) (k : A → M B) :
  respects R m → (∀ a, respects R (k a)) → respects R (m ≫= k).
Proof.
  intros Hm Hk st. rewrite M_bind_eq. specialize (Hm st).
  destruct (m st) as [[a|e] st1]; simpl in *; [|done].
  etransitivity; [exact Hm | apply Hk].
Qed.

Lemma respects_for_each {A} (l : list A) (body : A → M unit) :
  (∀ x, x ∈ l → respects R (body x)) → respects R (for_each l body).
Proof.
  induction l as [|x l IH]; intros H; simpl.
  - apply respects_ret.
  - apply respects_bind; [apply H; left|]. intros _. apply IH.
    intros y Hy. apply H. by right.
Qed.

Lemma respects_modify_with {D} (get : State → D) (set : D → State → State)
    (f : D → result D) :
  (∀ st d, f (get st) = Ok d → R st (set d st)) →
  respects R (modify_with get set f).
Proof.
  intros H st. unfold modify_with.
  destruct (f (get st)) as [d|e] eqn:E; simpl; [by apply H | reflexivity].
Qed.

End Respects.

#[global] Instance fill_frame_preorder : PreOrder fill_frame.
Proof.
  split.
  - intros st. repeat split; eauto.
  - intros st1 st2 st3 (Hn1 & Hk1 & Hs1) (Hn2 & Hk2 & Hs2).
    split; [congruence|]. split; [eauto|].
    intros c m Hm. destruct (Hs1 c m Hm) as (m1 & Hm1 & E1).
    destruct (Hs2 c m1 Hm1) as (m2 & Hm2 & E2).
    exists m2. split; [done | congruence].
Qed.

(** ** The string distance never reaches 6 *)

Lemma string_diff_of_bounds (s1 s2 : Z) : 0 ≤ string_diff_of s1 s2 ≤ 5.
Proof.
  unfold string_diff_of.
  pose proof (Z.mod_pos_bound (s1 - s2) 11 ltac:(lia)) as Ha.
  pose proof (Z.mod_pos_bound (- s1 + s2) 11 ltac:(lia)) as Hb.
  assert (Hsum : ((s1 - s2) `mod` 11 + (- s1 + s2) `mod` 11) `mod` 11 = 0).
  { rewrite <- Z.add_mod by lia. replace (s1 - s2 + (- s1 + s2)) with 0 by lia. done. }
  assert (Hcases : (s1 - s2) `mod` 11 + (- s1 + s2) `mod` 11 = 0
                   ∨ (s1 - s2) `mod` 11 + (- s1 + s2) `mod` 11 = 11).
  { set (a := (s1 - s2) `mod` 11) in *. set (b := (- s1 + s2) `mod` 11) in *.
    destruct (decide (a + b < 11)) as [Hlt|Hge].
    - left. rewrite Z.mod_small in Hsum by lia. done.
    - right. assert (H11 : (a + b - 11) `mod` 11 = 0).
      { replace (a + b - 11) with (a + b + (-1) * 11) by lia.
        by rewrite Z.mod_add by lia. }
      rewrite Z.mod_small in H11 by lia. lia. }
  lia.
Qed.

Lemma string_diff_column_bounds (string_one string_two : list Z) :
  Forall (λ d, 0 ≤ d ≤ 5)
    (zip_with Z.min
       (zip_with (λ s1 s2, (s1 - s2) `mod` 11) string_one string_two)
       (zip_with (λ s1 s2, (- s1 + s2) `mod` 11) string_one string_two)).
Proof.
  revert string_two.
  induction string_one as [|s1 l1 IH]; intros [|s2 l2]; simpl; try constructor.
  - apply (string_diff_of_bounds s1 s2).
  - apply IH.
Qed.

Lemma get_string_row_diff_bounds (channel_array : list (list Z))
    (c2s c2p : list Z → result (list Z)) (string_diff floor_diff : list Z) :
  get_string_row_diff channel_array c2s c2p = Ok (string_diff, floor_diff) →
  Forall (λ d, 0 ≤ d ≤ 5) string_diff.
Proof.
  unfold get_string_row_diff. intros H.
  apply rbind_ok_inv in H as (arr & _ & H).
  apply rbind_ok_inv in H as (c1 & _ & H).
  apply rbind_ok_inv in H as (c2 & _ & H).
  apply rbind_ok_inv in H as (so & _ & H).
  apply rbind_ok_inv in H as (st & _ & H).
  apply rbind_ok_inv in H as (po & _ & H).
  apply rbind_ok_inv in H as (pt & _ & H).
  injection H as <- _. apply string_diff_column_bounds.
Qed.

Lemma np_where_eq_from_none (i : nat) (v : Z) (arr : list Z) :
  Forall (λ d, d ≠ v) arr → np_where_eq_from i v arr = [].
Proof.
  intros H. revert i. induction H as [|x l Hx _ IH]; intros i; [done|].
  simpl. destruct (Z.eqb_spec x v); [done | apply IH].
Qed.

Lemma np_where_eq_6_empty (channel_array : list (list Z))
    (c2s c2p : list Z → result (list Z)) (string_diff floor_diff : list Z) :
  get_string_row_diff channel_array c2s c2p = Ok (string_diff, floor_diff) →
  np_where_eq string_diff 6 = [].
Proof.
  intros H. apply np_where_eq_from_none.
  eapply Forall_impl; [by eapply get_string_row_diff_bounds|].
  simpl. lia.
Qed.

Lemma select_bucket_sd_6 (e1 e2 : list Q) (channel_array : list (list Z))
    (c2s c2p : list Z → result (list Z)) (tmp : list Q * list Q) :
  select_bucket "sd_6" e1 e2 channel_array c2s c2p = Ok tmp → tmp = ([], []).
Proof.
  unfold select_bucket.
  change (negb ("sd_6" =? "all")%string) with true. cbv iota.
  intros H.
  apply rbind_ok_inv in H as (categories & _ & H).
  apply rbind_ok_inv in H as ([sd fd] & Hsd & H).
  change (str_contains "cat" "sd_6") with false in H.
  change (str_contains "sd" "sd_6") with true in H.
  cbv iota in H.
  change (str_split "_" "sd_6" !! 1%nat) with (Some "6") in H.
  simpl in H.
  change (Z.of_uint (Decimal.D6 Decimal.Nil)) with 6 in H.
  rewrite (np_where_eq_6_empty _ _ _ _ _ Hsd) in H.
  simpl in H. by injection H as <-.
Qed.

(** ** Updates of the nested dictionaries *)

Lemma update2_ok_inv {V} (f : V → V) (c k : string)
    (d d' : gmap string (gmap string V)) :
  update2 f c k d = Ok d' →
  ∃ m h, d !! c = Some m ∧ m !! k = Some h ∧ d' = <[c := <[k := f h]> m]> d.
Proof.
  unfold update2. intros H.
  destruct (d !! c) as [m|] eqn:Em; [|discriminate]. simpl in H.
  destruct (m !! k) as [h|] eqn:Eh; [|discriminate]. simpl in H.
  injection H as <-. by exists m, h.
Qed.

Lemma insert2_ok_inv {V} (c k : string) (v : V)
    (d d' : gmap string (gmap string V)) :
  insert2 c k v d = Ok d' →
  ∃ m, d !! c = Some m ∧ d' = <[c := <[k := v]> m]> d.
Proof.
  unfold insert2. intros H.
  destruct (d !! c) as [m|] eqn:Em; [|discriminate]. simpl in H.
  injection H as <-. by exists m.
Qed.

Lemma insert_keeps_keys {V} (c c' : string) (m : gmap string V)
    (d : gmap string (gmap string V)) :
  is_Some (d !! c') → is_Some (<[c := m]> d !! c').
Proof.
  intros H. destruct (decide (c = c')) as [->|Hne].
  - rewrite lookup_insert_eq. eauto.
  - by rewrite lookup_insert_ne.
Qed.

Lemma update2_other_bucket {V} (f : V → V) (c k k0 : string)
    (d d' : gmap string (gmap string V)) :
  update2 f c k d = Ok d' → k ≠ k0 →
  ∀ c' m, d !! c' = Some m → ∃ m', d' !! c' = Some m' ∧ m' !! k0 = m !! k0.
Proof.
  intros H Hk c' m Hm.
  apply update2_ok_inv in H as (m1 & h & Hm1 & Hh & ->).
  destruct (decide (c = c')) as [->|Hne].
  - rewrite lookup_insert_eq. eexists. split; [done|].
    rewrite lookup_insert_ne by done. congruence.
  - rewrite lookup_insert_ne by done. eauto.
Qed.

(** ** The frame of filling and grouping *)

Lemma fill_frame_set_hists (st : State) (d : gmap string (gmap string TH1F)) :
  (∀ c, is_Some (hists st !! c) → is_Some (d !! c)) →
  fill_frame st (set_hists d st).
Proof. intros H. repeat split; simpl; eauto. Qed.

Lemma fill_frame_set_run_hists (st : State) (d : gmap string (gmap string TH1F)) :
  fill_frame st (set_run_hists d st).
Proof. repeat split; simpl; eauto. Qed.

Lemma fill_frame_set_sum_hists (st : State) (d : gmap string (gmap string TH1F)) :
  fill_frame st (set_sum_hists d st).
Proof. repeat split; simpl; eauto. Qed.

Lemma respects_update_hists (f : TH1F → TH1F) (c k : string) :
  respects fill_frame (modify_with hists set_hists (update2 f c k)).
Proof.
  apply respects_modify_with; [apply _|]. intros st d H.
  apply fill_frame_set_hists. intros c' Hc'.
  apply update2_ok_inv in H as (m & h & _ & _ & ->).
  by apply insert_keeps_keys.
Qed.

Lemma respects_insert_hists (c k : string) (v : TH1F) :
  respects fill_frame (modify_with hists set_hists (insert2 c k v)).
Proof.
  apply respects_modify_with; [apply _|]. intros st d H.
  apply fill_frame_set_hists. intros c' Hc'.
  apply insert2_ok_inv in H as (m & _ & ->).
  by apply insert_keeps_keys.
Qed.

Lemma respects_update_run_hists (f : TH1F → TH1F) (c k : string) :
  respects fill_frame (modify_with run_hists set_run_hists (update2 f c k)).
Proof.
  apply respects_modify_with; [apply _|]. intros st d _.
  apply fill_frame_set_run_hists.
Qed.

Lemma respects_update_sum_hists (f : TH1F → TH1F) (c k : string) :
  respects fill_frame (modify_with sum_hists set_sum_hists (update2 f c k)).
Proof.
  apply respects_modify_with; [apply _|]. intros st d _.
  apply fill_frame_set_sum_hists.
Qed.

Lemma respects_update_hists_2d (f : TH2F → TH2F) (c k : string) :
  k ≠ "sd_6" →
  respects fill_frame (modify_with hists_2d set_hists_2d (update2 f c k)).
Proof.
  intros Hk. apply respects_modify_with; [apply _|]. intros st d H.
  split; [done|]. split; [done|]. simpl.
  by eapply update2_other_bucket.
Qed.

Section FillFrame.

Variable chmap : ChannelMap.
Variable rconfig : RConfig.
Variable runs : list (string * list string).
Variable clean : list RawEvent → list Event.
Variable eval_cut : string → list Event → list bool.

Lemma respects_fill_channel (period run _cut_name : string) (chmap_mage : MageNames)
    (array_cut : list Event) (__mage_id : Z) :
  respects fill_frame
    (fill_channel rconfig period run _cut_name chmap_mage array_cut __mage_id).
Proof.
  unfold fill_channel.
  apply respects_bind; [apply _ | apply respects_liftR; apply _ |]. intros _rawid.
  destruct (Nat.eqb _ 0); [apply respects_ret; apply _|].
  apply respects_bind; [apply _ | apply respects_update_hists |]. intros _.
  apply respects_update_run_hists.
Qed.

Lemma respects_fill_bucket (_cut_name : string) (e1 e2 : list Q)
    (channel_array : list (list Z)) (c2s c2p : list Z → result (list Z))
    (name : string) :
  respects fill_frame
    (fill_bucket rconfig _cut_name e1 e2 channel_array c2s c2p name).
Proof.
  unfold fill_bucket. destruct (decide (name = "sd_6")) as [->|Hne].
  - intros st. rewrite M_bind_eq. unfold liftR.
    destruct (select_bucket _ _ _ _ _ _) as [tmp|e] eqn:E; simpl; [|reflexivity].
    apply select_bucket_sd_6 in E as ->. simpl. reflexivity.
  - apply respects_bind; [apply _ | apply respects_liftR; apply _ |]. intros tmp.
    destruct (Nat.eqb _ 0); [apply respects_ret; apply _|].
    by apply respects_update_hists_2d.
Qed.

Lemma respects_process_cut (period run : string) (mage_ids : list Z)
    (chmap_mage : MageNames) (array : list Event) (c : string * CutSpec) :
  respects fill_frame
    (process_cut rconfig eval_cut period run mage_ids chmap_mage array c).
Proof.
  unfold process_cut.
  apply respects_bind; [apply _ | apply respects_liftR; apply _ |]. intros array_cut.
  destruct (negb (is_sum c.2) && negb (is_2d c.2)).
  { apply respects_for_each; [apply _|]. intros id _. apply respects_fill_channel. }
  destruct (is_2d c.2).
  { apply respects_bind; [apply _ | apply respects_liftR; apply _ |]. intros e1.
    apply respects_bind; [apply _ | apply respects_liftR; apply _ |]. intros e2.
    apply respects_bind; [apply _ | apply respects_liftR; apply _ |]. intros arr.
    apply respects_for_each; [apply _|]. intros name _. apply respects_fill_bucket. }
  cbv zeta. destruct (Nat.eqb _ 0); [apply respects_ret; apply _|].
  apply respects_update_sum_hists.
Qed.

Lemma respects_process_batch (period run : string) (array : list RawEvent) :
  respects fill_frame
    (process_batch chmap rconfig clean eval_cut period run array).
Proof.
  unfold process_batch.
  apply respects_bind; [apply _ | apply respects_liftR; apply _ |]. intros chmap_mage.
  apply respects_for_each; [apply _|]. intros c _. apply respects_process_cut.
Qed.

Lemma respects_add_channel_to_groups (_cut_name : string) (item : string * string) :
  respects fill_frame (add_channel_to_groups chmap _cut_name item).
Proof.
  unfold add_channel_to_groups.
  apply respects_bind; [apply _ | apply respects_liftR; apply _ |]. intros name.
  apply respects_bind; [apply _ | apply respects_liftR; apply _ |]. intros meta.
  apply respects_bind; [apply _ | apply respects_get_state; apply _ |]. intros st1.
  apply respects_bind; [apply _ | apply respects_liftR; apply _ |]. intros h.
  apply respects_bind; [apply _ | apply respects_update_hists |]. intros _.
  apply respects_bind; [apply _ | apply respects_get_state; apply _ |]. intros st2.
  apply respects_bind; [apply _ | apply respects_liftR; apply _ |]. intros h'.
  apply respects_update_hists.
Qed.

Lemma respects_make_grouped : respects fill_frame (make_grouped chmap rconfig).
Proof.
  unfold make_grouped.
  apply respects_bind; [apply _ | apply respects_get_state; apply _ |]. intros st.
  apply respects_for_each; [apply _|]. intros c _. unfold make_grouped_cut.
  apply respects_bind; [apply _ | apply respects_insert_hists |]. intros _.
  apply respects_bind; [apply _ | |].
  { apply respects_for_each; [apply _|]. intros t _. apply respects_insert_hists. }
  intros _. apply respects_for_each; [apply _|]. intros item _.
  apply respects_add_channel_to_groups.
Qed.

End FillFrame.

#[global] Instance hist_frame_preorder : PreOrder hist_frame.
Proof.
  split.
  - intros st. split; eauto.
  - intros st1 st2 st3 (Hk1 & Hs1) (Hk2 & Hs2).
    split; [eauto|].
    intros c m Hm. destruct (Hs1 c m Hm) as (m1 & Hm1 & E1).
    destruct (Hs2 c m1 Hm1) as (m2 & Hm2 & E2).
    exists m2. split; [done | congruence].
Qed.

Lemma respects_weaken {A} (R R' : State → State → Prop) (m : M A) :
  (∀ st st', R st st' → R' st st') → respects R m → respects R' m.
Proof. intros H Hm st. apply H, Hm. Qed.

Lemma fill_frame_hist_frame (st st' : State) : fill_frame st st' → hist_frame st st'.
Proof. by intros [_ H]. Qed.

Lemma for_each_app {A} (l1 l2 : list A) (body : A → M unit) (st : State) :
  for_each (l1 ++ l2) body st = (for_each l1 body;; for_each l2 body) st.
Proof.
  revert st. induction l1 as [|x l1 IH]; intros st; simpl.
  - done.
  - rewrite !M_bind_eq. destruct (body x st) as [[[]|e] st1]; [|done].
    rewrite IH. by rewrite M_bind_eq.
Qed.

(** ** The primaries counter *)

Section Primaries.

Variable chmap : ChannelMap.
Variable rconfig : RConfig.
Variable runs : list (string * list string).
Variable clean : list RawEvent → list Event.
Variable eval_cut : string → list Event → list bool.

Lemma count_raw_primaries_ok (raw : list RawFile) (st st' : State) (u : unit) :
  count_raw_primaries raw st = (Ok u, st') →
  Forall (λ f, is_Some (head (fNEvents f))) raw
  ∧ n_primaries_total st' = n_primaries_total st + Z_sum (raw_primaries <$> raw).
Proof.
  unfold count_raw_primaries. revert st.
  induction raw as [|f raw IH]; intros st H.
  - apply mret_ok_inv in H as [_ ->]. simpl. split; [constructor | lia].
  - apply for_each_cons_ok_inv in H as (st1 & H1 & H2).
    apply M_bind_ok_inv in H1 as (n & st0 & Hn & Hadd).
    apply liftR_ok_inv in Hn as [Hn ->].
    unfold add_primaries in Hadd. injection Hadd as <-.
    destruct (IH _ H2) as [Hall Hsum].
    destruct (head (fNEvents f)) as [n0|] eqn:Eh; [|discriminate].
    injection Hn as ->.
    split; [constructor; [eauto | done]|].
    assert (Hf : raw_primaries f = n) by (unfold raw_primaries; by rewrite Eh).
    rewrite Hsum, fmap_cons. unfold Z_sum. cbn [foldr]. fold Z_sum.
    rewrite Hf. simpl. lia.
Qed.

Lemma respects_process_batches (period run : string) (batches : list (list RawEvent)) :
  respects fill_frame
    (for_each batches (process_batch chmap rconfig clean eval_cut period run)).
Proof.
  apply respects_for_each; [apply _|]. intros array _. apply respects_process_batch.
Qed.

Lemma process_file_ok (f : InputFile) (st st' : State) (u : unit) :
  process_file chmap rconfig clean eval_cut f st = (Ok u, st') →
  is_Some (head (mage_n_events <$> concat (simTree f)))
  ∧ n_primaries_total st' = n_primaries_total st + input_primaries f.
Proof.
  unfold process_file. intros H.
  apply M_bind_ok_inv in H as (pr & st0 & Hpr & H).
  apply liftR_ok_inv in Hpr as [_ ->].
  destruct (Nat.eqb (num_entries f) 0); [discriminate|].
  apply M_bind_ok_inv in H as (n & st0 & Hn & H).
  apply liftR_ok_inv in Hn as [Hn ->].
  apply M_bind_ok_inv in H as ([] & st1 & Hadd & H).
  unfold add_primaries in Hadd. injection Hadd as <-.
  destruct (head _) as [n0|] eqn:Eh; [|discriminate]. injection Hn as ->.
  split; [eauto|].
  pose proof (respects_process_batches pr.1 pr.2 (simTree f)
                (set_n_primaries_total (n_primaries_total st + n) st)) as [Hsame _].
  rewrite H in Hsame. simpl in Hsame.
  unfold input_primaries. rewrite Eh. simpl. lia.
Qed.

Lemma respects_process_file (f : InputFile) :
  respects hist_frame (process_file chmap rconfig clean eval_cut f).
Proof.
  unfold process_file.
  apply respects_bind; [apply _ | apply respects_liftR; apply _ |]. intros pr.
  destruct (Nat.eqb _ 0); [apply respects_raise; apply _|].
  apply respects_bind; [apply _ | apply respects_liftR; apply _ |]. intros n.
  apply respects_bind; [apply _ | |].
  { intros st. simpl. split; eauto. }
  intros _. eapply respects_weaken; [apply fill_frame_hist_frame|].
  apply respects_process_batches.
Qed.

Lemma respects_fill_all (files : list InputFile) :
  respects hist_frame (fill_all chmap rconfig clean eval_cut files).
Proof.
  apply respects_for_each; [apply _|]. intros f _. apply respects_process_file.
Qed.

Lemma fill_all_ok (files : list InputFile) (st st' : State) (u : unit) :
  fill_all chmap rconfig clean eval_cut files st = (Ok u, st') →
  Forall (λ f, is_Some (head (mage_n_events <$> concat (simTree f)))) files
  ∧ n_primaries_total st' = n_primaries_total st + Z_sum (input_primaries <$> files).
Proof.
  unfold fill_all. revert st.
  induction files as [|f files IH]; intros st H.
  - apply mret_ok_inv in H as [_ ->]. simpl. split; [constructor | lia].
  - apply for_each_cons_ok_inv in H as (st1 & H1 & H2).
    apply process_file_ok in H1 as [Hf Hn].
    destruct (IH _ H2) as [Hall Hsum].
    split; [by constructor|]. rewrite Hsum, Hn, fmap_cons.
    unfold Z_sum. cbn [foldr]. lia.
Qed.

(** The successful run, step by step. *)
Lemma main_ok_inv (args : Args) (out : Output) (st : State) :
  main chmap rconfig runs clean eval_cut args = (Ok out, st) →
  ∃ st1 st2 st3,
    count_raw_primaries (raw_files args) State_empty = (Ok tt, st1)
    ∧ init_histograms chmap rconfig runs st1 = (Ok tt, st2)
    ∧ fill_all chmap rconfig clean eval_cut (input_files args) st2 = (Ok tt, st3)
    ∧ make_grouped chmap rconfig st3 = (Ok tt, st)
    ∧ write_output st = (Ok out, st).
Proof.
  unfold main, build_pdf. intros H.
  apply M_bind_ok_inv in H as ([] & st1 & H1 & H).
  apply M_bind_ok_inv in H as ([] & st2 & H2 & H).
  apply M_bind_ok_inv in H as ([] & st3 & H3 & H).
  apply M_bind_ok_inv in H as ([] & st4 & H4 & H).
  assert (st4 = st) as -> by (unfold write_output in H; congruence).
  by exists st1, st2, st3.
Qed.

(** C6. When the script writes its output, the number-of-primaries entry
    is the decimal string of the sum, starting from zero, of the
    first-entry primaries count of every raw file and of every input file
    (each file has such an entry); with no raw file and two input files
    reporting 1000 and 1500 it is "2500". *)
Theorem number_of_primaries_accumulates (args : Args) (out : Output) (st : State) :
  main chmap rconfig runs clean eval_cut args = (Ok out, st) →
  Forall (λ f, is_Some (head (fNEvents f))) (raw_files args)
  ∧ Forall (λ f, is_Some (head (mage_n_events <$> concat (simTree f))))
      (input_files args)
  ∧ number_of_primaries out =
      py_str (0 + Z_sum (raw_primaries <$> raw_files args)
                + Z_sum (input_primaries <$> input_files args))
  ∧ (∀ f1 f2, raw_files args = [] → input_files args = [f1; f2] →
       input_primaries f1 = 1000 → input_primaries f2 = 1500 →
       number_of_primaries out = "2500").
Proof.
  intros H. apply main_ok_inv in H as (st1 & st2 & st3 & H1 & H2 & H3 & H4 & H5).
  apply count_raw_primaries_ok in H1 as [Hraw Hn1].
  assert (Hn2 : n_primaries_total st2 = n_primaries_total st1).
  { unfold init_histograms in H2. by injection H2 as <-. }
  apply fill_all_ok in H3 as [Hin Hn3].
  pose proof (respects_make_grouped chmap rconfig st3) as [Hn4 _].
  rewrite H4 in Hn4. simpl in Hn4.
  assert (Hout : number_of_primaries out = py_str (n_primaries_total st)).
  { unfold write_output in H5. by injection H5 as <-. }
  assert (Htotal : number_of_primaries out =
      py_str (0 + Z_sum (raw_primaries <$> raw_files args)
                + Z_sum (input_primaries <$> input_files args))).
  { rewrite Hout. f_equal. simpl in Hn1. lia. }
  repeat split; try done.
  intros f1 f2 Er Ei E1 E2. rewrite Htotal, Er, Ei. simpl. by rewrite E1, E2.
Qed.

End Primaries.

(** ** The ["sd_6"] bucket *)

Section StringDistanceSix.

Variable chmap : ChannelMap.
Variable rconfig : RConfig.
Variable runs : list (string * list string).
Variable clean : list RawEvent → list Event.
Variable eval_cut : string → list Event → list bool.

Lemma new_buckets_sd_6 :
  foldl (λ (m : gmap string TH2F) cat, <[cat := TH2F_new (cfg rconfig)]> m) ∅ names_m2
    !! "sd_6" = Some (TH2F_new (cfg rconfig)).
Proof.
  generalize (TH2F_new (cfg rconfig)). intros h.
  change names_m2 with
    ["sd_0"; "sd_1"; "sd_2"; "sd_3"; "sd_4"; "sd_5"; "sd_6"; "all";
     "cat_1"; "cat_2"; "cat_3"].
  simpl. by simplify_map_eq.
Qed.

Lemma init_hists_2d_from (l : list (string * CutSpec))
    (d : gmap string (gmap string TH2F)) (c : string) :
  (∃ cd, (c, cd) ∈ l ∧ is_2d cd = true)
  ∨ (∃ m, d !! c = Some m ∧ m !! "sd_6" = Some (TH2F_new (cfg rconfig))) →
  ∃ m, foldl (λ (d : gmap string (gmap string TH2F)) (c : string * CutSpec),
                if is_2d c.2
                then <[c.1 := foldl (λ (m : gmap string TH2F) cat,
                                       <[cat := TH2F_new (cfg rconfig)]> m)
                                    ∅ names_m2]> d
                else d) d l !! c = Some m
       ∧ m !! "sd_6" = Some (TH2F_new (cfg rconfig)).
Proof.
  revert d. induction l as [|[c0 cd0] l IH]; intros d H.
  - destruct H as [(cd & Hin & _)|H]; [by apply elem_of_nil in Hin | done].
  - simpl. apply IH.
    destruct H as [(cd & Hin & H2d)|(m & Hm & Hsd)].
    + apply elem_of_cons in Hin as [[= <- <-]|Hin]; [|by left; eauto].
      right. rewrite H2d. rewrite lookup_insert_eq. eexists. split; [done|].
      apply new_buckets_sd_6.
    + right. destruct (is_2d cd0); [|by eauto].
      destruct (decide (c0 = c)) as [->|Hne].
      * rewrite lookup_insert_eq. eexists. split; [done|]. apply new_buckets_sd_6.
      * rewrite lookup_insert_ne by done. eauto.
Qed.

Lemma init_hists_2d_sd_6 (c : string) (cd : CutSpec) :
  (c, cd) ∈ cuts rconfig → is_2d cd = true →
  ∃ m, init_hists_2d rconfig !! c = Some m
       ∧ m !! "sd_6" = Some (TH2F_new (cfg rconfig)).
Proof. intros Hin H2d. apply init_hists_2d_from. left. eauto. Qed.

(** C10. The string distance of two string indices is at most 5, so the
    events selected for the bucket ["sd_6"] are none, for every channel
    array and whatever the converters return; and when the script writes
    its output, the ["sd_6"] histogram of every two-dimensional cut has no
    entry. *)
Theorem sd_6_never_filled (args : Args) (out : Output) (st : State) :
  main chmap rconfig runs clean eval_cut args = (Ok out, st) →
  (∀ s1 s2, 0 ≤ Z.min ((s1 - s2) `mod` 11) ((s2 - s1) `mod` 11) ≤ 5)
  ∧ (∀ channel_array c2s c2p string_diff floor_diff,
       get_string_row_diff channel_array c2s c2p = Ok (string_diff, floor_diff) →
       np_where_eq string_diff 6 = [])
  ∧ (∀ c cd, (c, cd) ∈ cuts rconfig → is_2d cd = true →
       ∃ m h, out_hists_2d out !! c = Some m ∧ m !! "sd_6" = Some h
              ∧ entries h = 0%nat).
Proof.
  intros H. split; [|split].
  - intros s1 s2. pose proof (string_diff_of_bounds s1 s2) as Hb.
    unfold string_diff_of in Hb. by replace (- s1 + s2) with (s2 - s1) in Hb by lia.
  - apply np_where_eq_6_empty.
  - intros c cd Hin H2d.
    apply main_ok_inv in H as (st1 & st2 & st3 & H1 & H2 & H3 & H4 & H5).
    destruct (init_hists_2d_sd_6 c cd Hin H2d) as (m0 & Hm0 & Hsd0).
    assert (E2 : hists_2d st2 = init_hists_2d rconfig).
    { unfold init_histograms in H2. by injection H2 as <-. }
    pose proof (respects_fill_all chmap rconfig clean eval_cut (input_files args) st2)
      as [_ Hf3].
    rewrite H3 in Hf3. simpl in Hf3.
    pose proof (respects_make_grouped chmap rconfig st3) as [_ [_ Hf4]].
    rewrite H4 in Hf4. simpl in Hf4.
    rewrite <- E2 in Hm0.
    destruct (Hf3 c m0 Hm0) as (m3 & Hm3 & Hsd3).
    destruct (Hf4 c m3 Hm3) as (m4 & Hm4 & Hsd4).
    exists m4, (TH2F_new (cfg rconfig)).
    assert (Eout : out_hists_2d out = hists_2d st).
    { unfold write_output in H5. by injection H5 as <-. }
    rewrite Eout. split; [done|].
    split; [etransitivity; [exact Hsd4|]; etransitivity; [exact Hsd3 | exact Hsd0]|].
    apply entries_replicate_0.
Qed.

End StringDistanceSix.

(** ** A file without events *)

Section ZeroEvents.

Variable chmap : ChannelMap.
Variable rconfig : RConfig.
Variable runs : list (string * list string).
Variable clean : list RawEvent → list Event.
Variable eval_cut : string → list Event → list bool.



End ZeroEvents.

(** ** Grouping: channel labels and group names *)

Lemma ch_label_not_all (rawid : Z) : ch_label rawid ≠ "all".
Proof. unfold ch_label. simpl. discriminate. Qed.

Lemma ch_label_not_type (rawid : Z) : ch_label rawid ∉ det_types.
Proof.
  unfold ch_label, det_types. simpl. intros H.
  repeat (apply elem_of_cons in H as [H|H]; [discriminate|]).
  by apply elem_of_nil in H.
Qed.

Lemma all_not_type : "all" ∉ det_types.
Proof.
  unfold det_types. intros H.
  repeat (apply elem_of_cons in H as [H|H]; [discriminate|]).
  by apply elem_of_nil in H.
Qed.

Section Grouping.

Variable chmap : ChannelMap.
Variable rconfig : RConfig.

Lemma geds_mapping_from_label (l : ChannelMap) (d : gmap string string) :
  (∀ r, is_Some (d !! r) → ∃ rawid, r = ch_label rawid) →
  ∀ r, is_Some (foldl (λ (m : gmap string string) (entry : string * ChannelMeta),
                         if String.eqb (system entry.2) "geds"
                         then <[ch_label (daq_rawid entry.2) := entry.1]> m else m)
                      d l !! r) →
       ∃ rawid, r = ch_label rawid.
Proof.
  revert d. induction l as [|entry l IH]; intros d Hd r; [apply Hd|].
  simpl. apply IH. intros r'.
  destruct (String.eqb _ _); [|apply Hd].
  destruct (decide (ch_label (daq_rawid entry.2) = r')) as [<-|Hne].
  - eauto.
  - rewrite lookup_insert_ne by done. apply Hd.
Qed.

Lemma geds_mapping_label (r : string) :
  is_Some (geds_mapping chmap !! r) → ∃ rawid, r = ch_label rawid.
Proof.
  apply geds_mapping_from_label. intros r' H.
  rewrite lookup_empty in H. by destruct H.
Qed.

Lemma channel_not_all (r : string) :
  is_Some (geds_mapping chmap !! r) → r ≠ "all".
Proof. intros H. destruct (geds_mapping_label r H) as [x ->]. apply ch_label_not_all. Qed.

Lemma channel_not_type (r : string) :
  is_Some (geds_mapping chmap !! r) → r ∉ det_types.
Proof. intros H. destruct (geds_mapping_label r H) as [x ->]. apply ch_label_not_type. Qed.

Lemma channel_hists_app (m : gmap string TH1F) (l1 l2 : list (string * string)) :
  channel_hists m (l1 ++ l2) = channel_hists m l1 ++ channel_hists m l2.
Proof. unfold channel_hists. apply fmap_app. Qed.

Lemma of_type_app (t : string) (l1 l2 : list (string * string)) :
  of_type chmap t (l1 ++ l2) = of_type chmap t l1 ++ of_type chmap t l2.
Proof. unfold of_type. apply filter_app. Qed.

Lemma bin_sum_channel_one (m : gmap string TH1F) (item : string * string) (bin : nat) :
  bin_sum (channel_hists m [item]) bin = bin_content (default [] (m !! item.1)) bin.
Proof. unfold bin_sum, channel_hists. simpl. lia. Qed.

(** Every germanium channel has one of the four detector types. *)
Hypothesis types_known : ∀ r name meta,
  geds_mapping chmap !! r = Some name → chmap_lookup chmap name = Ok meta →
  det_type meta ∈ det_types.

Lemma grouped_start (m : gmap string TH1F) :
  grouped chmap (cfg rconfig) (with_empty_groups (cfg rconfig) m)
    (with_empty_groups (cfg rconfig) m) [].
Proof.
  split; [done|]. split; [intros item Hin; by apply elem_of_nil in Hin|]. split.
  - exists (TH1F_new (cfg rconfig)). unfold with_empty_groups.
    split; [by simplify_map_eq|]. split; [apply length_TH1F_new|].
    intros bin _. by rewrite bin_content_TH1F_new.
  - intros t Ht. exists (TH1F_new (cfg rconfig)). unfold with_empty_groups.
    split.
    { unfold det_types in Ht.
      repeat (apply elem_of_cons in Ht as [->|Ht]; [by simplify_map_eq|]).
      by apply elem_of_nil in Ht. }
    split; [apply length_TH1F_new|].
    intros bin _. by rewrite bin_content_TH1F_new.
Qed.

Lemma grouped_step (m0 m m' : gmap string TH1F) (done_ : list (string * string))
    (item : string * string) :
  is_Some (geds_mapping chmap !! item.1) →
  grouped chmap (cfg rconfig) m0 m done_ →
  add_channel_inner chmap m item = Ok m' →
  grouped chmap (cfg rconfig) m0 m' (done_ ++ [item]).
Proof.
  intros Hkey (Hch & Hex & (a & Ha & Hla & Hsa) & Hty) H.
  unfold add_channel_inner in H.
  apply rbind_ok_inv in H as (name & Hname & H).
  apply rbind_ok_inv in H as (meta & Hmeta & H).
  apply rbind_ok_inv in H as (h & Hh & H).
  apply rbind_ok_inv in H as (ht & Hht & H).
  apply rbind_ok_inv in H as (h' & Hh' & H).
  apply rbind_ok_inv in H as (ha & Hha & H).
  injection H as <-.
  destruct Hkey as [name' Egm]. rewrite Egm in Hname. injection Hname as ->.
  assert (Hkey : is_Some (geds_mapping chmap !! item.1)) by eauto.
  pose proof (types_known _ _ _ Egm Hmeta) as Ht0.
  pose proof (channel_not_all _ Hkey) as Hr_all.
  pose proof (channel_not_type _ Hkey) as Hr_ty.
  assert (Ht0_all : det_type meta ≠ "all") by (intros E; rewrite E in Ht0; by apply all_not_type).
  assert (Hr_t0 : det_type meta ≠ item.1) by (intros E; by rewrite E in Ht0).
  destruct (m !! item.1) as [h0|] eqn:Emr; [|discriminate]. injection Hh as ->.
  destruct (m !! det_type meta) as [ht0|] eqn:Emt; [|discriminate]. injection Hht as ->.
  rewrite lookup_insert_ne in Hh' by done. rewrite Emr in Hh'. injection Hh' as <-.
  rewrite lookup_insert_ne in Hha by done. rewrite Ha in Hha. injection Hha as <-.
  assert (Eh : default [] (m0 !! item.1) = h).
  { rewrite <- (Hch _ Hkey), Emr. done. }
  assert (Ect : channel_type chmap item.1 = Some (det_type meta)).
  { unfold channel_type. by rewrite Egm, Hmeta. }
  split; [|split; [|split]].
  - intros r Hr.
    rewrite lookup_insert_ne by (symmetry; by apply channel_not_all).
    rewrite lookup_insert_ne; [by apply Hch|].
    intros E. apply (channel_not_type _ Hr). by rewrite <- E.
  - intros it Hit. apply elem_of_app in Hit as [Hit|Hit]; [by apply Hex|].
    apply list_elem_of_singleton in Hit as ->.
    rewrite <- (Hch _ Hkey), Emr. eauto.
  - exists (TH1F_Add a h). split; [by rewrite lookup_insert_eq|].
    split; [by rewrite length_TH1F_Add|].
    intros bin Hbin. rewrite bin_content_TH1F_Add by lia.
    rewrite channel_hists_app, bin_sum_app, Hsa, bin_sum_channel_one, Eh by done.
    done.
  - intros t Ht. destruct (Hty t Ht) as (ht1 & Hht1 & Hl1 & Hs1).
    assert (Ht_all : t ≠ "all") by (intros ->; by apply all_not_type).
    rewrite lookup_insert_ne by done.
    rewrite of_type_app.
    destruct (decide (t = det_type meta)) as [->|Hne].
    + exists (TH1F_Add ht h). rewrite lookup_insert_eq. split; [done|].
      assert (ht1 = ht) as -> by congruence.
      split; [by rewrite length_TH1F_Add|].
      intros bin Hbin. rewrite bin_content_TH1F_Add by lia.
      rewrite channel_hists_app, bin_sum_app, Hs1 by done.
      replace (of_type chmap (det_type meta) [item]) with [item]
        by (unfold of_type; by rewrite filter_cons_True, filter_nil).
      by rewrite bin_sum_channel_one, Eh.
    + exists ht1. rewrite lookup_insert_ne by done. split; [done|].
      split; [done|]. intros bin Hbin.
      replace (of_type chmap t [item]) with (@nil (string * string))
        by (unfold of_type; rewrite filter_cons_False by (simpl; congruence);
            by rewrite filter_nil).
      rewrite app_nil_r. by apply Hs1.
Qed.

Lemma grouped_loop (m0 : gmap string TH1F) (items done_ : list (string * string))
    (m m' : gmap string TH1F) :
  (∀ item, item ∈ items → is_Some (geds_mapping chmap !! item.1)) →
  grouped chmap (cfg rconfig) m0 m done_ →
  group_channels chmap m items = Ok m' →
  grouped chmap (cfg rconfig) m0 m' (done_ ++ items).
Proof.
  revert done_ m. induction items as [|item items IH]; intros done_ m Hkeys Hinv H.
  - injection H as <-. by rewrite app_nil_r.
  - simpl in H. apply rbind_ok_inv in H as (m1 & H1 & H).
    replace (done_ ++ item :: items) with ((done_ ++ [item]) ++ items)
      by (by rewrite <- app_assoc).
    eapply IH; [| |exact H].
    + intros it Hit. apply Hkeys. by right.
    + eapply grouped_step; [apply Hkeys; left | done | done].
Qed.


(** The grouping loop acts on [hists[_cut_name]] as [group_channels]. *)
Lemma add_channel_to_groups_ok (c : string) (item : string * string)
    (st st' : State) (u : unit) (m : gmap string TH1F) :
  hists st !! c = Some m →
  add_channel_to_groups chmap c item st = (Ok u, st') →
  ∃ m', add_channel_inner chmap m item = Ok m'
        ∧ hists st' = <[c := m']> (hists st).
Proof.
  intros Hm H. unfold add_channel_to_groups in H.
  apply M_bind_ok_inv in H as (name & s0 & Hname & H).
  apply liftR_ok_inv in Hname as [Hname ->].
  apply M_bind_ok_inv in H as (meta & s0 & Hmeta & H).
  apply liftR_ok_inv in Hmeta as [Hmeta ->].
  apply M_bind_ok_inv in H as (s1 & s0 & Hs1 & H).
  apply get_state_ok_inv in Hs1 as [-> ->].
  apply M_bind_ok_inv in H as (h & s0 & Hh & H).
  apply liftR_ok_inv in Hh as [Hh ->].
  apply M_bind_ok_inv in H as ([] & s1 & Hup1 & H).
  apply modify_with_ok_inv in Hup1 as (d1 & Hd1 & ->).
  apply M_bind_ok_inv in H as (s2 & s0 & Hs2 & H).
  apply get_state_ok_inv in Hs2 as [-> ->].
  apply M_bind_ok_inv in H as (h' & s0 & Hh' & H).
  apply liftR_ok_inv in Hh' as [Hh' ->].
  apply modify_with_ok_inv in H as (d2 & Hd2 & ->).
  simpl in *.
  unfold lookup2 in Hh. rewrite Hm in Hh. simpl in Hh.
  apply update2_ok_inv in Hd1 as (m1 & ht & Hm1 & Hht & ->).
  rewrite Hm in Hm1. injection Hm1 as <-.
  unfold lookup2 in Hh'. rewrite lookup_insert_eq in Hh'. simpl in Hh'.
  apply update2_ok_inv in Hd2 as (m2 & ha & Hm2 & Hha & ->).
  rewrite lookup_insert_eq in Hm2. injection Hm2 as <-.
  rewrite insert_insert_eq.
  eexists. split; [|done].
  unfold add_channel_inner. rewrite Hname. simpl. rewrite Hmeta. simpl.
  rewrite Hh. simpl. rewrite Hht. simpl. rewrite Hh'. simpl. rewrite Hha. done.
Qed.

Lemma add_channels_ok (c : string) (items : list (string * string))
    (st st' : State) (u : unit) (m : gmap string TH1F) :
  hists st !! c = Some m →
  for_each items (add_channel_to_groups chmap c) st = (Ok u, st') →
  ∃ m', group_channels chmap m items = Ok m'
        ∧ hists st' = <[c := m']> (hists st).
Proof.
  revert st m. induction items as [|item items IH]; intros st m Hm H.
  - apply mret_ok_inv in H as [_ ->]. exists m. split; [done|].
    by rewrite insert_id.
  - apply for_each_cons_ok_inv in H as (st1 & H1 & H2).
    destruct (add_channel_to_groups_ok _ _ _ _ _ _ Hm H1) as (m1 & Hm1 & E1).
    assert (Hm1' : hists st1 !! c = Some m1) by (by rewrite E1, lookup_insert_eq).
    destruct (IH _ _ Hm1' H2) as (m' & Hm' & E').
    exists m'. simpl. rewrite Hm1. simpl. split; [done|].
    by rewrite E', E1, insert_insert_eq.
Qed.

Lemma insert_groups_ok (c : string) (ts : list string) (v : TH1F)
    (st st' : State) (u : unit) (m : gmap string TH1F) :
  hists st !! c = Some m →
  for_each ts (λ _type, modify_with hists set_hists (insert2 c _type v)) st
    = (Ok u, st') →
  hists st' = <[c := foldl (λ (m : gmap string TH1F) t, <[t := v]> m) m ts]> (hists st).
Proof.
  revert st m. induction ts as [|t ts IH]; intros st m Hm H.
  - apply mret_ok_inv in H as [_ ->]. simpl. by rewrite insert_id.
  - apply for_each_cons_ok_inv in H as (st1 & H1 & H2).
    apply modify_with_ok_inv in H1 as (d1 & Hd1 & ->).
    apply insert2_ok_inv in Hd1 as (m1 & Hm1 & ->).
    rewrite Hm in Hm1. injection Hm1 as <-.
    assert (Hm1 : hists (set_hists (<[c := <[t := v]> m]> (hists st)) st) !! c
                  = Some (<[t := v]> m)) by (simpl; by rewrite lookup_insert_eq).
    rewrite (IH _ _ Hm1 H2). simpl. by rewrite insert_insert_eq.
Qed.

Lemma make_grouped_cut_ok (c : string) (st st' : State) (u : unit) :
  make_grouped_cut chmap rconfig c st = (Ok u, st') →
  ∃ m m', hists st !! c = Some m
          ∧ hists st' = <[c := m']> (hists st)
          ∧ grouped chmap (cfg rconfig) (with_empty_groups (cfg rconfig) m) m'
              (map_to_list (geds_mapping chmap)).
Proof.
  unfold make_grouped_cut. intros H.
  apply M_bind_ok_inv in H as ([] & st1 & H1 & H).
  apply M_bind_ok_inv in H as ([] & st2 & H2 & H3).
  apply modify_with_ok_inv in H1 as (d1 & Hd1 & ->).
  apply insert2_ok_inv in Hd1 as (m & Hm & ->).
  apply (insert_groups_ok _ _ _ _ _ _ (<["all" := TH1F_new (cfg rconfig)]> m)) in H2;
    [|simpl; by rewrite lookup_insert_eq].
  simpl in H2. rewrite insert_insert_eq in H2.
  fold (with_empty_groups (cfg rconfig) m) in H2.
  assert (Hm2 : hists st2 !! c = Some (with_empty_groups (cfg rconfig) m))
    by (by rewrite H2, lookup_insert_eq).
  destruct (add_channels_ok _ _ _ _ _ _ Hm2 H3) as (m' & Hm' & E').
  exists m, m'. split; [done|]. split; [by rewrite E', H2, insert_insert_eq|].
  eapply (grouped_loop (with_empty_groups (cfg rconfig) m) _ [] _ m');
    [|apply grouped_start|exact Hm'].
  intros [r name] Hin. apply elem_of_map_to_list in Hin. simpl. eauto.
Qed.

Lemma make_grouped_cuts_ok (cs : list string) (st st' : State) (u : unit) :
  NoDup cs →
  for_each cs (make_grouped_cut chmap rconfig) st = (Ok u, st') →
  (∀ c, c ∉ cs → hists st' !! c = hists st !! c)
  ∧ (∀ c, c ∈ cs →
       ∃ m m', hists st !! c = Some m ∧ hists st' !! c = Some m'
               ∧ grouped chmap (cfg rconfig) (with_empty_groups (cfg rconfig) m) m'
                   (map_to_list (geds_mapping chmap))).
Proof.
  intros Hnd. revert st. induction Hnd as [|c0 cs Hc0 Hnd IH]; intros st H.
  - apply mret_ok_inv in H as [_ ->]. split; [done|].
    intros c Hc. by apply elem_of_nil in Hc.
  - apply for_each_cons_ok_inv in H as (st1 & H1 & H2).
    apply make_grouped_cut_ok in H1 as (m & m' & Hm & E1 & Hg).
    destruct (IH _ H2) as [Hout Hin].
    split.
    + intros c Hc. apply not_elem_of_cons in Hc as [Hne Hc].
      rewrite (Hout c Hc), E1. by rewrite lookup_insert_ne.
    + intros c Hc. apply elem_of_cons in Hc as [->|Hc].
      * exists m, m'. split; [done|]. split; [|done].
        rewrite (Hout c0 Hc0), E1. by rewrite lookup_insert_eq.
      * destruct (Hin c Hc) as (m1 & m1' & Hm1 & Hm1' & Hg1).
        exists m1, m1'. split; [|done].
        rewrite E1, lookup_insert_ne in Hm1; [done|]. by intros ->.
Qed.

Lemma make_grouped_ok (st st' : State) (u : unit) (c : string) :
  make_grouped chmap rconfig st = (Ok u, st') →
  is_Some (hists st !! c) →
  ∃ m m', hists st !! c = Some m ∧ hists st' !! c = Some m'
          ∧ grouped chmap (cfg rconfig) (with_empty_groups (cfg rconfig) m) m'
              (map_to_list (geds_mapping chmap)).
Proof.
  unfold make_grouped. intros H [m0 Hm0].
  apply M_bind_ok_inv in H as (s & s0 & Hs & H).
  apply get_state_ok_inv in Hs as [-> ->].
  apply make_grouped_cuts_ok in H as [_ Hin].
  - apply Hin. apply list_elem_of_fmap. exists (c, m0). split; [done|].
    by apply elem_of_map_to_list.
  - apply NoDup_fst_map_to_list.
Qed.

End Grouping.

(** ** The grouped histograms of the output *)

Section GroupedOutput.

Variable chmap : ChannelMap.
Variable rconfig : RConfig.
Variable runs : list (string * list string).
Variable clean : list RawEvent → list Event.
Variable eval_cut : string → list Event → list bool.

Lemma init_hists_from (l : list (string * CutSpec))
    (d : gmap string (gmap string TH1F)) (c : string) :
  (∃ cd, (c, cd) ∈ l ∧ is_sum cd = false ∧ is_2d cd = false) ∨ is_Some (d !! c) →
  is_Some (foldl (λ (d : gmap string (gmap string TH1F)) (c : string * CutSpec),
                    if negb (is_sum c.2) && negb (is_2d c.2)
                    then <[c.1 := (λ _, TH1F_new (cfg rconfig)) <$> geds_mapping chmap]> d
                    else d) d l !! c).
Proof.
  revert d. induction l as [|[c0 cd0] l IH]; intros d H.
  - destruct H as [(cd & Hin & _)|H]; [by apply elem_of_nil in Hin | done].
  - simpl. apply IH.
    destruct H as [(cd & Hin & Hs & H2)|H].
    + apply elem_of_cons in Hin as [[= <- <-]|Hin]; [|left; eauto].
      right. rewrite Hs, H2. simpl. rewrite lookup_insert_eq. eauto.
    + right. destruct (negb _ && negb _); [|done]. by apply insert_keeps_keys.
Qed.

Lemma init_hists_plain (c : string) (cd : CutSpec) :
  (c, cd) ∈ cuts rconfig → is_sum cd = false → is_2d cd = false →
  is_Some (init_hists chmap rconfig !! c).
Proof. intros Hin Hs H2. apply init_hists_from. left. eauto. Qed.

Lemma with_empty_groups_channel (m : gmap string TH1F) (r : string) :
  is_Some (geds_mapping chmap !! r) →
  with_empty_groups (cfg rconfig) m !! r = m !! r.
Proof.
  intros Hr. pose proof (channel_not_all chmap r Hr) as Hall.
  pose proof (channel_not_type chmap r Hr) as Hty.
  unfold with_empty_groups, det_types in *.
  rewrite !lookup_insert_ne; [done|..]; intros <-; try done;
    apply Hty; repeat constructor.
Qed.

Lemma channel_hists_with_empty_groups (m : gmap string TH1F)
    (items : list (string * string)) :
  (∀ item, item ∈ items → is_Some (geds_mapping chmap !! item.1)) →
  channel_hists (with_empty_groups (cfg rconfig) m) items = channel_hists m items.
Proof.
  intros H. unfold channel_hists. apply list_fmap_ext.
  intros i item Hi. rewrite with_empty_groups_channel; [done|].
  apply H. by eapply list_elem_of_lookup_2.
Qed.

Lemma geds_items_keys (item : string * string) :
  item ∈ map_to_list (geds_mapping chmap) →
  is_Some (geds_mapping chmap !! item.1).
Proof. destruct item as [r name]. intros H. apply elem_of_map_to_list in H. eauto. Qed.

Lemma of_type_keys (t : string) (item : string * string) :
  item ∈ of_type chmap t (map_to_list (geds_mapping chmap)) →
  is_Some (geds_mapping chmap !! item.1).
Proof.
  unfold of_type. intros H. apply list_elem_of_filter in H as [_ H].
  by apply geds_items_keys.
Qed.

Lemma all_types_known_spec :
  all_types_known chmap = true →
  ∀ r name meta,
    geds_mapping chmap !! r = Some name → chmap_lookup chmap name = Ok meta →
    det_type meta ∈ det_types.
Proof.
  unfold all_types_known. rewrite forallb_forall. intros H r name meta Hr Hm.
  specialize (H (r, name)). simpl in H. unfold channel_type in H.
  rewrite Hr, Hm in H. eapply bool_decide_eq_true_1, H.
  by apply list_elem_of_In, elem_of_map_to_list.
Qed.

(** C2. When the script writes its output and every germanium channel
    has one of the four detector types, then for every plain cut the
    written dictionary holds, next to the per-channel histograms exactly
    as the accumulation over all input files left them, an ["all"]
    histogram whose every bin is the sum of that bin over all per-channel
    histograms, and for each detector type a histogram whose every bin is
    the sum of that bin over the channels of that type: the grouping is
    the one pass that follows the accumulation. *)
Theorem grouped_histograms_are_sums (args : Args) (out : Output) (st : State) :
  all_types_known chmap = true →
  main chmap rconfig runs clean eval_cut args = (Ok out, st) →
  ∃ st_fill,
    (count_raw_primaries (raw_files args);;
     init_histograms chmap rconfig runs;;
     fill_all chmap rconfig clean eval_cut (input_files args)) State_empty
      = (Ok tt, st_fill)
    ∧ make_grouped chmap rconfig st_fill = (Ok tt, st)
    ∧ ∀ c cd, (c, cd) ∈ cuts rconfig → is_sum cd = false → is_2d cd = false →
        ∃ m_fill m h_all,
          hists st_fill !! c = Some m_fill
          ∧ out_hists out !! c = Some m
          ∧ (∀ item, item ∈ map_to_list (geds_mapping chmap) →
               is_Some (m_fill !! item.1) ∧ m !! item.1 = m_fill !! item.1)
          ∧ m !! "all" = Some h_all
          ∧ (∀ bin, (bin < nbins (cfg rconfig) + 2)%nat →
               bin_content h_all bin
               = bin_sum (channel_hists m_fill (map_to_list (geds_mapping chmap))) bin)
          ∧ (∀ t, t ∈ det_types →
               ∃ h_type, m !! t = Some h_type
                 ∧ ∀ bin, (bin < nbins (cfg rconfig) + 2)%nat →
                     bin_content h_type bin
                     = bin_sum (channel_hists m_fill
                          (of_type chmap t (map_to_list (geds_mapping chmap)))) bin).
Proof.
  intros Hknown H. pose proof (all_types_known_spec Hknown) as Htypes.
  apply main_ok_inv in H as (st1 & st2 & st3 & H1 & H2 & H3 & H4 & H5).
  exists st3. split; [by rewrite M_bind_eq, H1, M_bind_eq, H2|].
  split; [done|].
  intros c cd Hin Hs H2d.
  assert (Hc2 : is_Some (hists st2 !! c)).
  { unfold init_histograms in H2. injection H2 as <-. simpl.
    by eapply init_hists_plain. }
  pose proof (respects_fill_all chmap rconfig clean eval_cut (input_files args) st2)
    as [Hkeys _].
  rewrite H3 in Hkeys. simpl in Hkeys.
  destruct (make_grouped_ok chmap rconfig Htypes _ _ _ c H4 (Hkeys c Hc2))
    as (m_fill & m & Hmf & Hm & Hch & Hex & (a & Ha & _ & Hsa) & Hty).
  assert (Eout : out_hists out = hists st).
  { unfold write_output in H5. by injection H5 as <-. }
  exists m_fill, m, a. rewrite Eout.
  split; [done|]. split; [done|]. split.
  { intros item Hitem. pose proof (geds_items_keys item Hitem) as Hk.
    specialize (Hex item Hitem). rewrite with_empty_groups_channel in Hex by done.
    split; [done|]. rewrite (Hch _ Hk). by apply with_empty_groups_channel. }
  split; [done|]. split.
  { intros bin Hbin. rewrite (Hsa bin Hbin).
    by rewrite channel_hists_with_empty_groups by apply geds_items_keys. }
  intros t Ht. destruct (Hty t Ht) as (ht & Hht & _ & Hst).
  exists ht. split; [done|]. intros bin Hbin. rewrite (Hst bin Hbin).
  by rewrite channel_hists_with_empty_groups by apply of_type_keys.
Qed.

End GroupedOutput.

(** ** Empty selections *)

Section EmptySelections.

Variable rconfig : RConfig.
Variable eval_cut : string → list Event → list bool.

(** An empty cut string passes the whole batch. *)
Lemma apply_cut_empty_string (array : list Event) :
  apply_cut eval_cut "" array = Ok array.
Proof. reflexivity. Qed.

(** A channel without hits in the selection is skipped: nothing is
    filled, whether its identifier is resolved or not. *)
Lemma fill_channel_no_hit (period run _cut_name : string) (chmap_mage : MageNames)
    (array_cut : list Event) (__mage_id : Z) (st : State) :
  channel_energies array_cut __mage_id = [] →
  (fill_channel rconfig period run _cut_name chmap_mage array_cut __mage_id st).2 = st.
Proof.
  intros H. unfold fill_channel. rewrite M_bind_eq. unfold liftR.
  destruct (from_option _ _) as [_rawid|e]; [|done]. by rewrite H.
Qed.

(** A bucket without events is skipped. *)
Lemma fill_bucket_no_event (_cut_name : string) (e1 e2 : list Q)
    (channel_array : list (list Z)) (c2s c2p : list Z → result (list Z))
    (name : string) (tmp2 : list Q) (st : State) :
  select_bucket name e1 e2 channel_array c2s c2p = Ok ([], tmp2) →
  fill_bucket rconfig _cut_name e1 e2 channel_array c2s c2p name st = (Ok tt, st).
Proof. intros H. unfold fill_bucket. rewrite M_bind_eq. unfold liftR. by rewrite H. Qed.

(** A plain cut that selects no event fills nothing. *)
Lemma plain_cut_no_event (period run : string) (chmap_mage : MageNames)
    (array : list Event) (name : string) (cd : CutSpec) (st : State) :
  is_sum cd = false → is_2d cd = false →
  apply_cut eval_cut (cut_string cd) array = Ok [] →
  ∀ mage_ids,
    (process_cut rconfig eval_cut period run mage_ids chmap_mage array (name, cd) st).2
    = st.
Proof.
  intros Hs H2 Hcut mage_ids. unfold process_cut. rewrite M_bind_eq. unfold liftR.
  simpl. rewrite Hcut, Hs, H2. simpl.
  induction mage_ids as [|id ids IH]; [done|].
  simpl. rewrite M_bind_eq.
  pose proof (fill_channel_no_hit period run name chmap_mage [] id st eq_refl) as Hid.
  destruct (fill_channel _ _ _ _ _ _ _ _) as [[[]|e] st1]; simpl in Hid; by subst.
Qed.

(** A sum cut that selects no event fills nothing and raises nothing. *)
Lemma sum_cut_no_event (period run : string) (mage_ids : list Z)
    (chmap_mage : MageNames) (array : list Event) (name : string) (cd : CutSpec)
    (st : State) :
  is_sum cd = true → is_2d cd = false →
  apply_cut eval_cut (cut_string cd) array = Ok [] →
  process_cut rconfig eval_cut period run mage_ids chmap_mage array (name, cd) st
  = (Ok tt, st).
Proof.
  intros Hs H2 Hcut. unfold process_cut. rewrite M_bind_eq. unfold liftR.
  simpl. by rewrite Hcut, Hs, H2.
Qed.

(** A two-dimensional cut that selects no event raises: the categoriser
    is called on the empty channel array for the first bucket, before the
    length of the selection is looked at. *)
Lemma cut_2d_no_event (period run : string) (mage_ids : list Z)
    (chmap_mage : MageNames) (array : list Event) (name : string) (cd : CutSpec)
    (st : State) :
  is_2d cd = true →
  apply_cut eval_cut (cut_string cd) array = Ok [] →
  process_cut rconfig eval_cut period run mage_ids chmap_mage array (name, cd) st
  = (Err ValueError, st).
Proof.
  intros H2 Hcut. unfold process_cut. rewrite M_bind_eq. unfold liftR.
  simpl. rewrite Hcut, H2. by rewrite andb_false_r.
Qed.

End EmptySelections.

(** ** One iteration of the plain-cut loop per element of [mage_ids] *)

Section PlainLoop.

Variable rconfig : RConfig.

Lemma lookup2_update2 {V} (f : V → V) (c k : string)
    (d : gmap string (gmap string V)) (h : V) :
  lookup2 c k d = Ok h →
  ∃ d', update2 f c k d = Ok d' ∧ lookup2 c k d' = Ok (f h).
Proof.
  unfold lookup2, update2. intros H.
  destruct (d !! c) as [m|] eqn:Em; [|discriminate]. simpl in *.
  destruct (m !! k) as [h0|] eqn:Eh; [|discriminate]. simpl in *.
  injection H as ->. eexists. split; [done|].
  rewrite lookup_insert_eq. simpl. by rewrite lookup_insert_eq.
Qed.

(** An iteration whose channel has hits in the selection adds all of them
    to the histogram of the channel and to the histogram of the run. *)
Lemma fill_channel_fills (period run _cut_name _rawid : string)
    (chmap_mage : MageNames) (array_cut : list Event) (__mage_id : Z)
    (st : State) (h g : TH1F) :
  mn_channel chmap_mage !! __mage_id = Some _rawid →
  channel_energies array_cut __mage_id ≠ [] →
  lookup2 _cut_name _rawid (hists st) = Ok h →
  lookup2 _cut_name (period +:+ "_" +:+ run) (run_hists st) = Ok g →
  ∃ st',
    fill_channel rconfig period run _cut_name chmap_mage array_cut __mage_id st
      = (Ok tt, st')
    ∧ lookup2 _cut_name _rawid (hists st')
      = Ok (TH1F_FillN (cfg rconfig) h
              (times_1000 (channel_energies array_cut __mage_id)))
    ∧ lookup2 _cut_name (period +:+ "_" +:+ run) (run_hists st')
      = Ok (TH1F_FillN (cfg rconfig) g
              (times_1000 (channel_energies array_cut __mage_id))).
Proof.
  intros Hid Hne Hh Hg. unfold fill_channel. rewrite M_bind_eq. unfold liftR.
  rewrite Hid. simpl.
  assert (Hlen : Nat.eqb (length (times_1000 (channel_energies array_cut __mage_id))) 0
                 = false).
  { unfold times_1000. rewrite length_fmap.
    by destruct (channel_energies array_cut __mage_id). }
  rewrite Hlen, M_bind_eq. unfold modify_with.
  destruct (lookup2_update2
              (λ h, TH1F_FillN (cfg rconfig) h
                      (times_1000 (channel_energies array_cut __mage_id))) _ _ _ _ Hh)
    as (d1 & -> & Hd1).
  destruct (lookup2_update2
              (λ h, TH1F_FillN (cfg rconfig) h
                      (times_1000 (channel_energies array_cut __mage_id))) _ _ _ _ Hg)
    as (d2 & Hu2 & Hd2).
  simpl. rewrite Hu2. eexists. split; [done|]. by split.
Qed.

(** The identifier of a channel that occurs [k] times in the loop list
    has the energies of the channel added [k] times. *)
Lemma fill_channel_repeats (period run _cut_name _rawid : string)
    (chmap_mage : MageNames) (array_cut : list Event) (__mage_id : Z) (k : nat)
    (st : State) (h g : TH1F) :
  mn_channel chmap_mage !! __mage_id = Some _rawid →
  channel_energies array_cut __mage_id ≠ [] →
  lookup2 _cut_name _rawid (hists st) = Ok h →
  lookup2 _cut_name (period +:+ "_" +:+ run) (run_hists st) = Ok g →
  ∃ st',
    for_each (replicate k __mage_id)
      (fill_channel rconfig period run _cut_name chmap_mage array_cut) st
      = (Ok tt, st')
    ∧ lookup2 _cut_name _rawid (hists st')
      = Ok (Nat.iter k (λ h, TH1F_FillN (cfg rconfig) h
                               (times_1000 (channel_energies array_cut __mage_id))) h)
    ∧ lookup2 _cut_name (period +:+ "_" +:+ run) (run_hists st')
      = Ok (Nat.iter k (λ h, TH1F_FillN (cfg rconfig) h
                               (times_1000 (channel_energies array_cut __mage_id))) g).
Proof.
  intros Hid Hne. revert st h g.
  induction k as [|k IH]; intros st h g Hh Hg.
  - exists st. by repeat split.
  - destruct (fill_channel_fills period run _ _ _ _ _ st h g Hid Hne Hh Hg)
      as (st1 & H1 & Hh1 & Hg1).
    destruct (IH st1 _ _ Hh1 Hg1) as (st' & H' & Hh' & Hg').
    exists st'. split.
    { cbn [replicate for_each]. by rewrite M_bind_eq, H1. }
    rewrite Hh', Hg'. by rewrite !Nat.iter_succ_r.
Qed.

End PlainLoop.

(** ** The script on the small deployment *)

(** C1 (code bug). The plain-cut loop runs over the flattened identifier
    column of the batch, once per hit and not once per channel: for a
    batch of two one-hit events of one channel, with energies 0.5 and 1.2,
    the script ends normally with the channel's histogram and the
    (period, run) histogram holding four entries, two at 500 and two at
    1200, where one pass over the channel's hits gives one entry each. *)
Theorem plain_cut_fills_once_per_hit :
  concat (raw_mage_id <$> Example.batch_one_channel) = [1010203; 1010203]
  ∧ TH1F_FillN (cfg Example.rconfig_plain) (TH1F_new (cfg Example.rconfig_plain))
      (times_1000 (channel_energies (Example.clean Example.batch_one_channel) 1010203))
    = [0; 0; 1; 1; 0; 0]%nat
  ∧ ∃ out st,
      Example.main_plain Example.args_one_channel = (Ok out, st)
      ∧ out_hists out !! "raw" ≫= (.!! "ch1104000") = Some [0; 0; 2; 2; 0; 0]%nat
      ∧ out_run_hists out !! "raw" ≫= (.!! "p03_r000") = Some [0; 0; 2; 2; 0; 0]%nat.
Proof.
  split; [reflexivity|]. split; [vm_compute; reflexivity|].
  eexists _, _. split; [vm_compute; reflexivity|].
  split; vm_compute; reflexivity.
Qed.

(** C8 (code bug). With two one-hit events in the batch the cut
    ["mul == 2"] selects no event; the plain and the sum cut before it
    pass, and the two-dimensional cut raises ValueError and leaves the
    histograms as they were, so that the run ends with exit status 1
    instead of skipping the fill. *)
Theorem empty_2d_selection_raises :
  apply_cut Example.eval_cut "mul == 2" (Example.clean Example.batch_one_channel) = Ok []
  ∧ process_cut Example.rconfig Example.eval_cut "p03" "r000"
      (concat (raw_mage_id <$> Example.batch_one_channel)) Example.names_one_channel
      (Example.clean Example.batch_one_channel)
      ("mul2_2d", Example.cut "mul == 2" false true) Example.st_init
    = (Err ValueError, Example.st_init)
  ∧ (Example.main Example.args_one_channel).1 = Err ValueError
  ∧ exit_status (Example.main Example.args_one_channel).1 = 1.
Proof.
  split; [reflexivity|].
  split; [by apply cut_2d_no_event|].
  split; vm_compute; reflexivity.
Qed.

(** C5 (code bug). The flag test reads the first character of
    [str(_mage_id)], and [str] of an integer has no leading zero: the test
    gives false for the identifier 0 alone.  An identifier below 1000000,
    whose leading digit in the seven-digit format [101SSPP] is zero, is
    taken for a germanium identifier, and the slices [3:5] and [5:7] of
    its shorter string are not the digits that the format has there.  The
    identifier 100023 (0100023: flag 0, string 00, position 23) is
    resolved to the detector at string 2, position 3, and enters all four
    mappings; the identifier 10203 (0010203: flag 0, string 02, position
    03) raises ValueError at the empty position slice. *)
Theorem flag_test_reads_first_significant_digit :
  (∀ id, is_ged (py_str id) = Ok false → id = 0)
  ∧ (∀ id, 0 < id → is_ged (py_str id) = Ok true)
  ∧ (100023 < 1000000
     ∧ is_ged (py_str 100023) = Ok true
     ∧ mage_string (py_str 100023) = Ok 2 ∧ mage_pos (py_str 100023) = Ok 3
     ∧ ∃ mage_names,
         process_mage_id Example.chmap [100023] = Ok mage_names
         ∧ mn_name mage_names !! 100023 = Some "V02160A"
         ∧ mn_channel mage_names !! 100023 = Some "ch1104000"
         ∧ mn_string mage_names !! 100023 = Some 2
         ∧ mn_position mage_names !! 100023 = Some 3)
  ∧ (10203 < 1000000
     ∧ is_ged (py_str 10203) = Ok true
     ∧ mage_string (py_str 10203) = Ok 3
     ∧ mage_pos (py_str 10203) = Err ValueError
     ∧ process_mage_id Example.chmap [10203] = Err ValueError).
Proof.
  assert (Hpos : ∀ id, 0 < id → is_ged (py_str id) = Ok true).
  { intros [|p|p] Hid; try lia.
    rewrite py_str_pos. apply is_ged_leading_nonzero, to_uint_leading_nonzero. }
  split; [|split; [exact Hpos|]].
  - intros [|p|p] H; [done| |].
    + rewrite Hpos in H by lia. discriminate H.
    + exfalso. revert H. unfold py_str. simpl Z.to_int.
      unfold NilZero.string_of_int. discriminate.
  - split.
    + split; [lia|]. split; [reflexivity|]. split; [reflexivity|].
      split; [reflexivity|]. eexists. split; [vm_compute; reflexivity|].
      split_and!; vm_compute; reflexivity.
    + split; [lia|]. split_and!; reflexivity.
Qed.

(** C7 (code bug). The period and the run are searched in the file name
    before the tree is opened, and the guard on the result tests the
    period alone: for the name [p03.root], with a period tag and no run
    tag, [run[0]] raises IndexError.  An input file of that name without
    events therefore ends the run with IndexError and exit status 1,
    without the message that names the file; under a name without a
    period tag, where the other branch sets the defaults, and under a
    name with both tags, the file without events gets the message. *)
Theorem zero_events_file_without_run_tag :
  num_entries Example.empty_file_no_run = 0%nat
  ∧ get_period "p03.root" = ["p03"] ∧ get_run "p03.root" = []
  ∧ period_and_run "p03.root" = Err IndexError
  ∧ process_file Example.chmap Example.rconfig Example.clean Example.eval_cut
      Example.empty_file_no_run Example.st_init
    = (Err IndexError, Example.st_init)
  ∧ Example.main {| raw_files := []; input_files := [Example.empty_file_no_run] |}
    = (Err IndexError, Example.st_init)
  ∧ exit_status
      (Example.main {| raw_files := []; input_files := [Example.empty_file_no_run] |}).1
    = 1
  ∧ period_and_run "evt.root" = Ok ("p03", "r000")
  ∧ process_file Example.chmap Example.rconfig Example.clean Example.eval_cut
      (Example.file "evt.root" []) Example.st_init
    = (Err (RuntimeError "ERROR: MPP evt file evt.root has 0 events in simTree"),
       Example.st_init)
  ∧ process_file Example.chmap Example.rconfig Example.clean Example.eval_cut
      Example.empty_file Example.st_init
    = (Err (RuntimeError
              "ERROR: MPP evt file sim/l200-p03-r001-evt.root has 0 events in simTree"),
       Example.st_init).
Proof. split_and!; vm_compute; reflexivity. Qed.

(** ** Instances on the small deployment *)

Lemma mageid_decodes_witness :
  (0 ≤ 2 < 100) ∧ (0 ≤ 3 < 100)
  ∧ is_ged (py_str (mageid 2 3)) = Ok true
  ∧ mage_string (py_str (mageid 2 3)) = Ok 2
  ∧ mage_pos (py_str (mageid 2 3)) = Ok 3.
Proof.
  split; [lia|]. split; [lia|]. apply (mageid_decodes 2 3); lia.
Defined.

Lemma resolved_example : resolved Example.strings Example.positions Example.pairs.
Proof.
  intros pr Hpr. unfold Example.pairs in Hpr.
  repeat (apply elem_of_cons in Hpr as [->|Hpr];
          [repeat split; vm_compute; eauto|]).
  by apply elem_of_nil in Hpr.
Defined.

Lemma get_m2_categories_rule_witness :
  resolved Example.strings Example.positions Example.pairs
  ∧ ∃ categories,
      get_m2_categories (pair_row <$> Example.pairs)
        (get_vectorised_converter Example.strings)
        (get_vectorised_converter Example.positions) = Ok categories
      ∧ length categories = length Example.pairs
      ∧ categories !! 0%nat = Some 1
      ∧ Forall (λ c, c = 1 ∨ c = 2 ∨ c = 3) categories
      ∧ get_m2_categories (pair_row <$> (swap_pair <$> Example.pairs))
          (get_vectorised_converter Example.strings)
          (get_vectorised_converter Example.positions) = Ok categories.
Proof.
  split; [exact resolved_example|].
  exact (get_m2_categories_rule Example.strings Example.positions Example.pairs
           0 1010203 1010204 2 2 3 4 resolved_example
           eq_refl eq_refl eq_refl eq_refl eq_refl).
Defined.

Lemma get_string_row_diff_symmetric_witness :
  resolved Example.strings Example.positions Example.pairs
  ∧ ∃ string_diff floor_diff,
      get_string_row_diff (pair_row <$> Example.pairs)
        (get_vectorised_converter Example.strings)
        (get_vectorised_converter Example.positions) = Ok (string_diff, floor_diff)
      ∧ string_diff !! 1%nat = Some 4
      ∧ floor_diff !! 1%nat = Some 2
      ∧ Z.min ((2 - 9) `mod` 11) ((9 - 2) `mod` 11)
        = Z.min ((9 - 2) `mod` 11) ((2 - 9) `mod` 11)
      ∧ get_string_row_diff (pair_row <$> (swap_pair <$> Example.pairs))
          (get_vectorised_converter Example.strings)
          (get_vectorised_converter Example.positions) = Ok (string_diff, floor_diff).
Proof.
  split; [exact resolved_example|].
  exact (get_string_row_diff_symmetric Example.strings Example.positions Example.pairs
           1 1010203 1010901 2 9 3 1 resolved_example
           eq_refl eq_refl eq_refl eq_refl eq_refl).
Defined.

Lemma process_mage_id_skips_witness :
  Forall (λ id, id = 0 ∨ 100000 ≤ id) [0; 1010203; 1019999]
  ∧ ∃ mage_names,
      process_mage_id Example.chmap [0; 1010203; 1019999] = Ok mage_names
      ∧ ∀ id, is_ged (py_str id) = Ok false ∨ ¬ has_location Example.chmap id →
          mn_channel mage_names !! id = None ∧ mn_name mage_names !! id = None
          ∧ mn_string mage_names !! id = None ∧ mn_position mage_names !! id = None.
Proof.
  assert (H : Forall (λ id, id = 0 ∨ 100000 ≤ id) [0; 1010203; 1019999]).
  { repeat constructor; lia. }
  split; [exact H|].
  exact (process_mage_id_skips Example.chmap [0; 1010203; 1019999] H).
Defined.

Lemma run_two_files :
  Example.main Example.args_two_files = (Ok Example.out_two_files, Example.st_two_files).
Proof. vm_compute. reflexivity. Defined.

Lemma number_of_primaries_accumulates_witness :
  Example.main Example.args_two_files = (Ok Example.out_two_files, Example.st_two_files)
  ∧ number_of_primaries Example.out_two_files = "2500".
Proof.
  split; [exact run_two_files|].
  eapply (number_of_primaries_accumulates Example.chmap Example.rconfig Example.runs
            Example.clean Example.eval_cut Example.args_two_files);
    [exact run_two_files | reflexivity..].
Defined.


Lemma sd_6_never_filled_witness :
  Example.main Example.args_two_files = (Ok Example.out_two_files, Example.st_two_files)
  ∧ ∃ m h, out_hists_2d Example.out_two_files !! "mul2_2d" = Some m
           ∧ m !! "sd_6" = Some h ∧ entries h = 0%nat.
Proof.
  split; [exact run_two_files|].
  destruct (sd_6_never_filled Example.chmap Example.rconfig Example.runs
              Example.clean Example.eval_cut Example.args_two_files _ _
              run_two_files) as (_ & _ & H).
  apply (H "mul2_2d" (Example.cut "mul == 2" false true)); [|reflexivity].
  apply list_elem_of_In. simpl. auto.
Defined.

Lemma grouped_histograms_are_sums_witness :
  all_types_known Example.chmap = true
  ∧ Example.main Example.args_two_files = (Ok Example.out_two_files, Example.st_two_files)
  ∧ ∃ m h_all,
      out_hists Example.out_two_files !! "raw" = Some m
      ∧ m !! "all" = Some h_all
      ∧ ∀ bin, (bin < 6)%nat →
          bin_content h_all bin
          = bin_sum (channel_hists m (map_to_list (geds_mapping Example.chmap))) bin.
Proof.
  split; [reflexivity|]. split; [exact run_two_files|].
  destruct (grouped_histograms_are_sums Example.chmap Example.rconfig Example.runs
              Example.clean Example.eval_cut Example.args_two_files _ _ eq_refl
              run_two_files) as (st_fill & _ & _ & H).
  destruct (H "raw" (Example.cut "" false false)
              ltac:(apply list_elem_of_In; simpl; auto) eq_refl eq_refl)
    as (m_fill & m & h_all & _ & Hm & Hch & Hall & Hsum & _).
  exists m, h_all. split; [exact Hm|]. split; [exact Hall|].
  intros bin Hbin. rewrite (Hsum bin Hbin). f_equal.
  unfold channel_hists. apply list_fmap_ext. intros i item Hi.
  destruct (Hch item (list_elem_of_lookup_2 _ _ _ Hi)) as [_ ->]. reflexivity.
Defined.

(** * Further properties of the code *)

(** ** The resolver on identifiers of fewer than six digits *)

Lemma usize_nb_digits (d : Decimal.uint) :
  DecimalPos.Unsigned.usize d = N.of_nat (Decimal.nb_digits d).
Proof. induction d; simpl; rewrite ?IHd; lia. Qed.

Lemma of_lu_rev_lower (d : Decimal.uint) :
  leading_nonzero d = true →
  (10 ^ N.of_nat (Decimal.nb_digits d - 1) ≤ DecimalPos.Unsigned.of_lu (Decimal.rev d))%N.
Proof.
  destruct d; try discriminate; intros _; unfold Decimal.rev; simpl Decimal.revapp;
    rewrite DecimalPos.Unsigned.of_lu_revapp, usize_nb_digits;
    simpl Decimal.nb_digits; rewrite Nat.sub_succ, Nat.sub_0_r;
    simpl DecimalPos.Unsigned.of_lu; lia.
Qed.

Lemma to_uint_short (p : positive) :
  Zpos p < 100000 → (Decimal.nb_digits (Pos.to_uint p) ≤ 5)%nat.
Proof.
  intros Hp.
  pose proof (DecimalPos.Unsigned.of_to p) as Hof.
  rewrite DecimalPos.Unsigned.of_uint_alt in Hof.
  pose proof (of_lu_rev_lower _ (to_uint_leading_nonzero p)) as Hb.
  rewrite Hof in Hb.
  destruct (le_lt_dec (Decimal.nb_digits (Pos.to_uint p)) 5) as [Hle|Hgt]; [exact Hle|].
  exfalso.
  assert (H5 : (10 ^ 5 ≤ 10 ^ N.of_nat (Decimal.nb_digits (Pos.to_uint p) - 1))%N).
  { apply N.pow_le_mono_r; lia. }
  change (10 ^ 5)%N with 100000%N in H5. lia.
Qed.

Lemma py_int_err (s : string) (e : PyError) : py_int s = Err e → e = ValueError.
Proof.
  unfold py_int. destruct (NilZero.int_of_string s); simpl; intros H; congruence.
Qed.

Lemma mage_pos_short (p : positive) :
  Zpos p < 100000 → mage_pos (py_str (Zpos p)) = Err ValueError.
Proof.
  intros Hp. rewrite py_str_pos. unfold mage_pos, py_slice.
  destruct (substring_digits (Pos.to_uint p) 5 (7 - 5)) as (d' & -> & Hn).
  pose proof (to_uint_short p Hp) as Hle.
  assert (Hz : Decimal.nb_digits d' = 0%nat) by lia.
  destruct d'; try discriminate Hz. reflexivity.
Qed.

Lemma is_ged_negative (p : positive) : is_ged (py_str (Zneg p)) = Err ValueError.
Proof.
  unfold py_str. simpl Z.to_int. unfold NilZero.string_of_int. reflexivity.
Qed.

Section ResolverErrors.

Variable chmap : ChannelMap.

Lemma process_one_short (mage_names : MageNames) (id : Z) :
  id < 0 ∨ 0 < id < 100000 →
  process_one_mage_id chmap mage_names id = Err ValueError.
Proof.
  intros Hid. destruct id as [|p|p]; try lia.
  - assert (Hp : Zpos p < 100000) by lia.
    unfold process_one_mage_id.
    assert (Hged : is_ged (py_str (Zpos p)) = Ok true).
    { rewrite py_str_pos. apply is_ged_leading_nonzero, to_uint_leading_nonzero. }
    rewrite Hged. simpl.
    destruct (mage_string (py_str (Z.pos p))) as [s|e] eqn:Hs; simpl.
    + by rewrite (mage_pos_short p Hp).
    + by rewrite (py_int_err _ _ Hs).
  - unfold process_one_mage_id. by rewrite is_ged_negative.
Qed.

Lemma process_from_short (mage_ids : list Z) (mage_names : MageNames) :
  Exists (λ id, id < 0 ∨ 0 < id < 100000) mage_ids →
  process_mage_id_from chmap mage_names mage_ids = Err ValueError.
Proof.
  revert mage_names. induction mage_ids as [|id ids IH]; intros mage_names H.
  - by apply Exists_nil in H.
  - simpl. destruct (decide (id = 0 ∨ 100000 ≤ id)) as [Hok|Hshort].
    + destruct (process_one_returns chmap mage_names id Hok) as [names1 ->]. simpl.
      apply IH. apply Exists_cons in H as [H|H]; [lia | exact H].
    + rewrite process_one_short by lia. reflexivity.
Qed.

(** X1. The resolver returns exactly when every identifier is zero or has
    at least six decimal digits: on such a list it returns its mappings,
    and as soon as one identifier is negative or has one to five digits
    it raises ValueError, whatever the other identifiers and the channel
    map are. *)
Theorem process_mage_id_returns_iff (mage_ids : list Z) :
  ((∃ mage_names, process_mage_id chmap mage_ids = Ok mage_names)
   ↔ Forall (λ id, id = 0 ∨ 100000 ≤ id) mage_ids)
  ∧ ((∃ id, id ∈ mage_ids ∧ (id < 0 ∨ 0 < id < 100000))
     ↔ process_mage_id chmap mage_ids = Err ValueError).
Proof.
  assert (Hdec : Forall (λ id, id = 0 ∨ 100000 ≤ id) mage_ids
                 ∨ Exists (λ id, id < 0 ∨ 0 < id < 100000) mage_ids).
  { induction mage_ids as [|id ids IH]; [by left|].
    destruct (decide (id = 0 ∨ 100000 ≤ id)) as [Hok|Hshort].
    - destruct IH as [IH|IH]; [left; by constructor | right; by apply Exists_cons_tl].
    - right. apply Exists_cons_hd. lia. }
  split; split.
  - intros [mage_names H]. destruct Hdec as [Hall|Hex]; [exact Hall|].
    unfold process_mage_id in H. by rewrite process_from_short in H.
  - apply process_from_returns.
  - intros (id & Hin & Hid). apply process_from_short.
    apply Exists_exists. eauto.
  - intros H. destruct Hdec as [Hall|Hex].
    + destruct (process_from_returns chmap mage_ids mage_names_empty Hall) as [n Hn].
      unfold process_mage_id in H. congruence.
    + apply Exists_exists in Hex as (id & Hin & Hid). eauto.
Qed.

End ResolverErrors.
(** ** What the resolver stores *)

Section ResolverContents.

Variable chmap : ChannelMap.

Lemma entries_no_match (id s p : Z) (entries : ChannelMap) (mage_names : MageNames) :
  Forall (λ e, chmap_entry_matches s p e.2 = false) entries →
  foldl (process_chmap_entry id s p) mage_names entries = mage_names.
Proof.
  induction 1 as [|[name meta] entries Hm _ IH]; [done|].
  simpl in *. by rewrite Hm.
Qed.

Lemma entries_last_match (id s p : Z) (l1 l2 : ChannelMap) name meta
    (mage_names : MageNames) :
  chmap_entry_matches s p meta = true →
  Forall (λ e, chmap_entry_matches s p e.2 = false) l2 →
  resolved_as (foldl (process_chmap_entry id s p) mage_names (l1 ++ (name, meta) :: l2))
    id name (ch_label (daq_rawid meta)) s p.
Proof.
  intros Hm Hl2. rewrite foldl_app. simpl. rewrite Hm.
  rewrite entries_no_match by done.
  repeat split; simpl; apply lookup_insert_eq.
Qed.

Lemma entries_other_key (id id' s p : Z) (entries : ChannelMap) (mage_names : MageNames) :
  id ≠ id' →
  let mage_names' := foldl (process_chmap_entry id' s p) mage_names entries in
  mn_name mage_names' !! id = mn_name mage_names !! id
  ∧ mn_channel mage_names' !! id = mn_channel mage_names !! id
  ∧ mn_string mage_names' !! id = mn_string mage_names !! id
  ∧ mn_position mage_names' !! id = mn_position mage_names !! id.
Proof.
  intros Hne. revert mage_names.
  induction entries as [|[name meta] entries IH]; intros mage_names; [done|].
  simpl. destruct (IH (process_chmap_entry id' s p mage_names (name, meta)))
    as (H1 & H2 & H3 & H4).
  simpl in *. rewrite H1, H2, H3, H4.
  destruct (chmap_entry_matches s p meta); [|done].
  simpl. by rewrite !lookup_insert_ne.
Qed.

Lemma process_one_other_key (mage_names mage_names' : MageNames) (id id' : Z) :
  process_one_mage_id chmap mage_names id' = Ok mage_names' → id ≠ id' →
  mn_name mage_names' !! id = mn_name mage_names !! id
  ∧ mn_channel mage_names' !! id = mn_channel mage_names !! id
  ∧ mn_string mage_names' !! id = mn_string mage_names !! id
  ∧ mn_position mage_names' !! id = mn_position mage_names !! id.
Proof.
  unfold process_one_mage_id. intros H Hne.
  apply rbind_ok_inv in H as (ged & Hged & H).
  destruct ged; simpl in H.
  - apply rbind_ok_inv in H as (s & Hs & H).
    apply rbind_ok_inv in H as (p & Hp & H).
    injection H as <-. by apply entries_other_key.
  - by injection H as <-.
Qed.

Section LastMatch.

Variables (id s p : Z) (l1 l2 : ChannelMap) (name : string) (meta : ChannelMeta).
Hypothesis Hged : is_ged (py_str id) = Ok true.
Hypothesis Hs : mage_string (py_str id) = Ok s.
Hypothesis Hp : mage_pos (py_str id) = Ok p.
Hypothesis Hchmap : chmap = l1 ++ (name, meta) :: l2.
Hypothesis Hmatch : chmap_entry_matches s p meta = true.
Hypothesis Hlast : Forall (λ e, chmap_entry_matches s p e.2 = false) l2.

Lemma process_one_resolves (mage_names mage_names' : MageNames) :
  process_one_mage_id chmap mage_names id = Ok mage_names' →
  resolved_as mage_names' id name (ch_label (daq_rawid meta)) s p.
Proof.
  unfold process_one_mage_id. rewrite Hged, Hs, Hp. simpl.
  intros H. injection H as <-. rewrite Hchmap. by apply entries_last_match.
Qed.

Lemma process_one_keeps (mage_names mage_names' : MageNames) (id' : Z) :
  process_one_mage_id chmap mage_names id' = Ok mage_names' →
  resolved_as mage_names id name (ch_label (daq_rawid meta)) s p →
  resolved_as mage_names' id name (ch_label (daq_rawid meta)) s p.
Proof.
  intros H Hres. destruct (decide (id = id')) as [<-|Hne].
  - by eapply process_one_resolves.
  - destruct (process_one_other_key _ _ _ _ H Hne) as (H1 & H2 & H3 & H4).
    unfold resolved_as. by rewrite H1, H2, H3, H4.
Qed.

Lemma process_from_keeps (mage_ids : list Z) (mage_names mage_names' : MageNames) :
  process_mage_id_from chmap mage_names mage_ids = Ok mage_names' →
  resolved_as mage_names id name (ch_label (daq_rawid meta)) s p →
  resolved_as mage_names' id name (ch_label (daq_rawid meta)) s p.
Proof.
  revert mage_names. induction mage_ids as [|id' ids IH]; intros mage_names H Hres.
  - by injection H as <-.
  - simpl in H. apply rbind_ok_inv in H as (names1 & H1 & H).
    eapply IH; [exact H|]. by eapply process_one_keeps.
Qed.

Lemma process_from_resolves (mage_ids : list Z) (mage_names mage_names' : MageNames) :
  process_mage_id_from chmap mage_names mage_ids = Ok mage_names' →
  id ∈ mage_ids →
  resolved_as mage_names' id name (ch_label (daq_rawid meta)) s p.
Proof.
  revert mage_names. induction mage_ids as [|id' ids IH]; intros mage_names H Hin.
  - by apply elem_of_nil in Hin.
  - simpl in H. apply rbind_ok_inv in H as (names1 & H1 & H).
    apply elem_of_cons in Hin as [<-|Hin].
    + eapply process_from_keeps; [exact H|]. by eapply process_one_resolves.
    + by eapply IH.
Qed.

End LastMatch.

(** X2. An identifier of the list whose flag digit is set and whose
    digits 3-4 and 5-6 are the string and position of a germanium
    detector of the channel map is a key of all four mappings: they hold
    the decoded string and position, and the name and channel label of
    the last entry of the channel map at that location (a later entry
    overwrites an earlier one). *)
Theorem process_mage_id_resolves (mage_ids : list Z) (mage_names : MageNames)
    (id s p : Z) (l1 l2 : ChannelMap) (name : string) (meta : ChannelMeta) :
  process_mage_id chmap mage_ids = Ok mage_names →
  id ∈ mage_ids →
  is_ged (py_str id) = Ok true →
  mage_string (py_str id) = Ok s →
  mage_pos (py_str id) = Ok p →
  chmap = l1 ++ (name, meta) :: l2 →
  chmap_entry_matches s p meta = true →
  Forall (λ e, chmap_entry_matches s p e.2 = false) l2 →
  mn_name mage_names !! id = Some name
  ∧ mn_channel mage_names !! id = Some (ch_label (daq_rawid meta))
  ∧ mn_string mage_names !! id = Some s
  ∧ mn_position mage_names !! id = Some p.
Proof.
  intros H Hin Hged Hs Hp Hchmap Hm Hlast.
  exact (process_from_resolves id s p l1 l2 name meta Hged Hs Hp Hchmap Hm Hlast
           mage_ids mage_names_empty mage_names H Hin).
Qed.

(** *** Every key is a full, consistent record of the input list *)

Lemma consistent_empty : consistent chmap mage_names_empty.
Proof.
  intros id [H|[H|[H|H]]]; simpl in H; rewrite lookup_empty in H;
    by destruct H.
Qed.

Lemma consistent_entries (id s p : Z) (entries : ChannelMap) (mage_names : MageNames) :
  (∀ e, e ∈ entries → e ∈ chmap) →
  is_ged (py_str id) = Ok true →
  mage_string (py_str id) = Ok s → mage_pos (py_str id) = Ok p →
  consistent chmap mage_names →
  consistent chmap (foldl (process_chmap_entry id s p) mage_names entries).
Proof.
  intros Hsub Hged Hs Hp. revert mage_names.
  induction entries as [|[name meta] entries IH]; intros mage_names Hcon; [done|].
  simpl. apply IH; [intros e He; apply Hsub; by right|].
  destruct (chmap_entry_matches s p meta) eqn:Hm; [|done].
  intros id' Hin.
  destruct (decide (id' = id)) as [->|Hne].
  - exists name, meta, s, p.
    split; [apply Hsub; left|].
    repeat split; try done; simpl; apply lookup_insert_eq.
  - assert (Hin' : in_mappings mage_names id').
    { unfold in_mappings in *. simpl in Hin. by rewrite !lookup_insert_ne in Hin. }
    destruct (Hcon id' Hin') as (n & m & s' & p' & H1 & H2 & H3 & H4 & H5 & H6).
    exists n, m, s', p'. repeat split; try done;
      simpl; rewrite lookup_insert_ne by done; apply H6.
Qed.

Lemma process_one_consistent (mage_names mage_names' : MageNames) (id : Z) :
  process_one_mage_id chmap mage_names id = Ok mage_names' →
  consistent chmap mage_names → consistent chmap mage_names'.
Proof.
  unfold process_one_mage_id. intros H Hcon.
  apply rbind_ok_inv in H as (ged & Hged & H).
  destruct ged; simpl in H.
  - apply rbind_ok_inv in H as (s & Hs & H).
    apply rbind_ok_inv in H as (p & Hp & H).
    injection H as <-. by apply consistent_entries.
  - by injection H as <-.
Qed.

Lemma process_from_consistent (mage_ids : list Z) (mage_names mage_names' : MageNames) :
  process_mage_id_from chmap mage_names mage_ids = Ok mage_names' →
  consistent chmap mage_names → consistent chmap mage_names'.
Proof.
  revert mage_names. induction mage_ids as [|id ids IH]; intros mage_names H Hcon.
  - by injection H as <-.
  - simpl in H. apply rbind_ok_inv in H as (names1 & H1 & H).
    eapply IH; [exact H|]. by eapply process_one_consistent.
Qed.

Lemma process_one_keys (mage_names mage_names' : MageNames) (id id' : Z) :
  process_one_mage_id chmap mage_names id' = Ok mage_names' →
  in_mappings mage_names' id → id = id' ∨ in_mappings mage_names id.
Proof.
  intros H Hin. destruct (decide (id = id')) as [->|Hne]; [by left|right].
  destruct (process_one_other_key _ _ _ _ H Hne) as (H1 & H2 & H3 & H4).
  unfold in_mappings in *. by rewrite <- H1, <- H2, <- H3, <- H4.
Qed.

Lemma process_from_keys (mage_ids : list Z) (mage_names mage_names' : MageNames) (id : Z) :
  process_mage_id_from chmap mage_names mage_ids = Ok mage_names' →
  in_mappings mage_names' id → id ∈ mage_ids ∨ in_mappings mage_names id.
Proof.
  revert mage_names. induction mage_ids as [|id' ids IH]; intros mage_names H Hin.
  - injection H as <-. by right.
  - simpl in H. apply rbind_ok_inv in H as (names1 & H1 & H).
    destruct (IH _ H Hin) as [Hids|Hin1]; [left; by right|].
    destruct (process_one_keys _ _ _ _ H1 Hin1) as [->|Hin0]; [left; by left | by right].
Qed.

(** X3. Whatever the resolver returns, a key of any one of its four
    mappings is an identifier of the input list and a key of all four:
    its flag digit is set, the string and position stored are the ones
    its digits 3-4 and 5-6 encode, and the name and channel label stored
    are those of one germanium detector of the channel map at that
    location. *)
Theorem process_mage_id_consistent (mage_ids : list Z) (mage_names : MageNames) (id : Z) :
  process_mage_id chmap mage_ids = Ok mage_names →
  in_mappings mage_names id →
  id ∈ mage_ids
  ∧ ∃ name meta s p,
      (name, meta) ∈ chmap
      ∧ system meta = "geds"
      ∧ loc_string (location meta) = s ∧ loc_position (location meta) = p
      ∧ is_ged (py_str id) = Ok true
      ∧ mage_string (py_str id) = Ok s ∧ mage_pos (py_str id) = Ok p
      ∧ mn_name mage_names !! id = Some name
      ∧ mn_channel mage_names !! id = Some (ch_label (daq_rawid meta))
      ∧ mn_string mage_names !! id = Some s
      ∧ mn_position mage_names !! id = Some p.
Proof.
  intros H Hin. split.
  - destruct (process_from_keys _ _ _ _ H Hin) as [Hids|Hemp]; [exact Hids|].
    destruct (consistent_empty id Hemp) as (n & m & s & p & _ & _ & _ & _ & _ & Hr & _).
    simpl in Hr. by rewrite lookup_empty in Hr.
  - destruct (process_from_consistent _ _ _ H consistent_empty id Hin)
      as (name & meta & s & p & Hmem & Hged & Hs & Hp & Hm & Hn & Hc & Hst & Hpo).
    exists name, meta, s, p.
    unfold chmap_entry_matches in Hm.
    apply andb_prop in Hm as [Hm Hm3]. apply andb_prop in Hm as [Hm1 Hm2].
    apply String.eqb_eq in Hm1. apply Z.eqb_eq in Hm2, Hm3.
    repeat split; done.
Qed.

End ResolverContents.
Lemma process_mage_id_resolves_witness :
  ∃ mage_names,
    process_mage_id (Example.chmap ++ [("V09999X", Example.geds 2 3 1104003 "icpc")])
      [1010203; 0] = Ok mage_names
    ∧ mn_name mage_names !! 1010203 = Some "V09999X"
    ∧ mn_channel mage_names !! 1010203 = Some "ch1104003"
    ∧ mn_string mage_names !! 1010203 = Some 2
    ∧ mn_position mage_names !! 1010203 = Some 3.
Proof.
  eexists. split; [vm_compute; reflexivity|].
  apply (process_mage_id_resolves
           (Example.chmap ++ [("V09999X", Example.geds 2 3 1104003 "icpc")])
           [1010203; 0] _ 1010203 2 3 Example.chmap [] "V09999X"
           (Example.geds 2 3 1104003 "icpc"));
    [vm_compute; reflexivity | by left | reflexivity | reflexivity | reflexivity
    | reflexivity | reflexivity | constructor].
Defined.

Lemma process_mage_id_consistent_witness :
  process_mage_id Example.chmap [1010203; 1010203] = Ok Example.names_one_channel
  ∧ in_mappings Example.names_one_channel 1010203
  ∧ 1010203 ∈ [1010203; 1010203]
  ∧ ∃ name meta s p,
      (name, meta) ∈ Example.chmap
      ∧ system meta = "geds"
      ∧ loc_string (location meta) = s ∧ loc_position (location meta) = p
      ∧ is_ged (py_str 1010203) = Ok true
      ∧ mage_string (py_str 1010203) = Ok s ∧ mage_pos (py_str 1010203) = Ok p
      ∧ mn_name Example.names_one_channel !! 1010203 = Some name
      ∧ mn_channel Example.names_one_channel !! 1010203 = Some (ch_label (daq_rawid meta))
      ∧ mn_string Example.names_one_channel !! 1010203 = Some s
      ∧ mn_position Example.names_one_channel !! 1010203 = Some p.
Proof.
  assert (Hin : in_mappings Example.names_one_channel 1010203).
  { left. vm_compute. eauto. }
  split; [reflexivity|]. split; [exact Hin|].
  exact (process_mage_id_consistent Example.chmap [1010203; 1010203]
           Example.names_one_channel 1010203 eq_refl Hin).
Defined.
(** ** Period and run of an input file *)

Lemma substring_digits_prefix (n : nat) (s : string) :
  digits_prefix n s = true →
  String.length (String.substring 0 n s) = n
  ∧ all_digits (String.substring 0 n s) = true.
Proof.
  revert s. induction n as [|n IH]; intros s H.
  - by destruct s.
  - destruct s as [|c s]; [discriminate|]. simpl in H.
    apply andb_prop in H as [Hc Hs]. destruct (IH s Hs) as [Hl Hd].
    simpl. rewrite Hl, Hc, Hd. done.
Qed.

Lemma findall_tags (letter : ascii) (n skip : nat) (text : string) :
  Forall (is_tag letter n) (findall_letter_digits letter n skip text).
Proof.
  revert skip. induction text as [|c rest IH]; intros skip; [constructor|].
  simpl. destruct skip as [|k]; [|apply IH].
  destruct (Ascii.eqb c letter && digits_prefix n rest) eqn:E; [|apply IH].
  apply andb_prop in E as [Hc Hd]. apply Ascii.eqb_eq in Hc as ->.
  constructor; [|apply IH].
  destruct (substring_digits_prefix n rest Hd) as [Hl Ha].
  by exists (String.substring 0 n rest).
Qed.

Lemma str_split_go_nonempty (sep : ascii) (cur s : string) :
  str_split_go sep cur s ≠ [].
Proof.
  revert cur. induction s as [|c s IH]; intros cur; simpl; [done|].
  destruct (Ascii.eqb c sep); [done | apply IH].
Qed.

Lemma last_cons_nonempty {A} (x : A) (l : list A) : l ≠ [] → last (x :: l) = last l.
Proof. by destruct l. Qed.

Lemma append_empty_r (s : string) : s +:+ EmptyString = s.
Proof.
  induction s as [|a s IH]; [done|].
  change (String a (s +:+ EmptyString) = String a s). by rewrite IH.
Qed.

Lemma append_snoc (cur s : string) (c : ascii) :
  (cur +:+ String c EmptyString) +:+ s = cur +:+ String c s.
Proof.
  induction cur as [|a cur IH]; [done|].
  change (String a ((cur +:+ String c EmptyString) +:+ s) = String a (cur +:+ String c s)).
  by rewrite IH.
Qed.

Lemma str_split_go_sep_free (sep : ascii) (cur s : string) :
  sep_free sep s = true → str_split_go sep cur s = [cur +:+ s].
Proof.
  revert cur. induction s as [|c s IH]; intros cur H; simpl.
  - by rewrite append_empty_r.
  - simpl in H. apply andb_prop in H as [Hc Hs].
    destruct (Ascii.eqb c sep); [discriminate|].
    rewrite IH by done. by rewrite append_snoc.
Qed.

Lemma str_split_go_last (sep : ascii) (cur dir base : string) :
  sep_free sep base = true →
  last (str_split_go sep cur (dir +:+ String sep base)) = Some base.
Proof.
  intros Hb. revert cur. induction dir as [|c dir IH]; intros cur; simpl.
  - rewrite Ascii.eqb_refl. rewrite last_cons_nonempty by apply str_split_go_nonempty.
    by rewrite str_split_go_sep_free.
  - destruct (Ascii.eqb c sep); [|apply IH].
    rewrite last_cons_nonempty by apply str_split_go_nonempty. apply IH.
Qed.

Lemma last_is_Some {A} (l : list A) : l ≠ [] → is_Some (last l).
Proof.
  induction l as [|x l IH]; [done|]. intros _.
  destruct l as [|y l]; [by eexists|]. apply IH. done.
Qed.

(** X4. Whenever the period and run of a file name are found, the period
    is the letter p followed by two digits and the run the letter r
    followed by three digits, the defaults p03 and r000 included: the
    run key built from them always has this shape. *)
Theorem period_and_run_shape (file_name period run : string) :
  period_and_run file_name = Ok (period, run) →
  is_tag "p" 2 period ∧ is_tag "r" 3 run.
Proof.
  unfold period_and_run. intros H.
  apply rbind_ok_inv in H as (file_end & _ & H).
  pose proof (findall_tags "p" 2 0 file_end) as Hp.
  pose proof (findall_tags "r" 3 0 file_end) as Hr.
  fold (get_period file_end) in Hp. fold (get_run file_end) in Hr.
  destruct (get_period file_end) as [|p ps]; simpl in H.
  - injection H as <- <-. split; [by exists "03" | by exists "000"].
  - destruct (get_run file_end) as [|r rs]; simpl in H; [discriminate|].
    injection H as <- <-. split; [by inversion Hp | by inversion Hr].
Qed.

(** X5. Only the last component of the path counts, and there are three
    outcomes: without a period tag in it the file gets period p03 and run
    r000, even when it carries a run tag; with a period tag and a run tag
    it gets the first of each; with a period tag and no run tag the
    script raises IndexError. *)
Theorem period_and_run_cases (dir base : string) :
  sep_free "/" base = true →
  period_and_run (dir +:+ "/" +:+ base) = period_and_run base
  ∧ period_and_run base =
      match get_period base, get_run base with
      | [], _ => Ok ("p03", "r000")
      | p :: _, r :: _ => Ok (p, r)
      | _ :: _, [] => Err IndexError
      end.
Proof.
  intros Hb.
  assert (H1 : last (str_split "/" (dir +:+ "/" +:+ base)) = Some base).
  { unfold str_split. by apply str_split_go_last. }
  assert (H2 : last (str_split "/" base) = Some base).
  { unfold str_split. by rewrite str_split_go_sep_free. }
  unfold period_and_run. rewrite H1, H2. simpl. split; [done|].
  destruct (get_period base) as [|p ps]; [done|].
  by destruct (get_run base).
Qed.

Lemma period_and_run_shape_witness :
  period_and_run "sim/l200-p04-r012-evt.root" = Ok ("p04", "r012")
  ∧ is_tag "p" 2 "p04" ∧ is_tag "r" 3 "r012".
Proof.
  split; [reflexivity|].
  exact (period_and_run_shape "sim/l200-p04-r012-evt.root" "p04" "r012" eq_refl).
Defined.

Lemma period_and_run_cases_witness :
  sep_free "/" "r005-evt.root" = true
  ∧ period_and_run ("sim/p04" +:+ "/" +:+ "r005-evt.root") = period_and_run "r005-evt.root"
  ∧ period_and_run "r005-evt.root" = Ok ("p03", "r000").
Proof.
  split; [reflexivity|].
  exact (period_and_run_cases "sim/p04" "r005-evt.root" eq_refl).
Defined.
(** ** The converter and the categoriser *)

Lemma mapR_err_inv {A B} (f : A → result B) (l : list A) (e : PyError) :
  mapR f l = Err e → ∃ x, x ∈ l ∧ f x = Err e.
Proof.
  induction l as [|x l IH]; [discriminate|].
  simpl. destruct (f x) as [y|e'] eqn:Ex; simpl.
  - destruct (mapR f l) as [ys|e'']; [discriminate|]. simpl.
    intros [= ->]. destruct (IH eq_refl) as (x' & Hin & Hx').
    exists x'. split; [by right | done].
  - intros [= ->]. exists x. split; [by left | done].
Qed.

(** X6. The converter built from a mapping either returns, for an input
    that is not empty and whose every element is a key, the values of the
    elements in order; or raises ValueError on the empty input; or raises
    KeyError when the input is not empty and one of its elements is not a
    key. *)
Theorem get_vectorised_converter_cases (mapping : gmap Z Z) (arr : list Z) :
  match get_vectorised_converter mapping arr with
  | Ok out =>
      arr ≠ [] ∧ length out = length arr
      ∧ ∀ i c, arr !! i = Some c → is_Some (mapping !! c) ∧ out !! i = mapping !! c
  | Err e =>
      (arr = [] ∧ e = ValueError)
      ∨ (arr ≠ [] ∧ e = KeyError ∧ ∃ c, c ∈ arr ∧ mapping !! c = None)
  end.
Proof.
  destruct (get_vectorised_converter mapping arr) as [out|e] eqn:E.
  - destruct arr as [|c0 arr0] eqn:Earr; [discriminate|]. rewrite <- Earr in *.
    assert (Hm : mapR (λ mage_id, from_option KeyError (mapping !! mage_id)) arr = Ok out).
    { rewrite <- E. by rewrite Earr. }
    apply mapR_ok_Forall2 in Hm.
    split; [by rewrite Earr|]. split; [symmetry; by eapply Forall2_length|].
    intros i c Hi.
    destruct (Forall2_lookup_l _ _ _ _ _ Hm Hi) as (v & Hv & Hc).
    destruct (mapping !! c) as [v'|]; [|discriminate]. injection Hc as ->.
    split; [eauto | done].
  - destruct arr as [|c0 arr0] eqn:Earr.
    + left. split; [done|]. by injection E as <-.
    + right. split; [done|]. rewrite <- Earr in *.
      assert (Hm : mapR (λ mage_id, from_option KeyError (mapping !! mage_id)) arr = Err e).
      { rewrite <- E. by rewrite Earr. }
      apply mapR_err_inv in Hm as (c & Hin & Hc).
      destruct (mapping !! c) as [v|] eqn:Ec; [discriminate|].
      injection Hc as <-. split; [done|]. eauto.
Qed.

Lemma string_diff_of_zero (s1 s2 : Z) :
  string_diff_of s1 s2 = 0 ↔ (s1 - s2) `mod` 11 = 0.
Proof.
  unfold string_diff_of.
  pose proof (Z.mod_pos_bound (s1 - s2) 11 ltac:(lia)) as Ha.
  pose proof (Z.mod_pos_bound (- s1 + s2) 11 ltac:(lia)) as Hb.
  assert (Hiff : (s1 - s2) `mod` 11 = 0 ↔ (- s1 + s2) `mod` 11 = 0).
  { replace (- s1 + s2) with (- (s1 - s2)) by lia.
    rewrite !Z.mod_divide by lia. symmetry. apply Z.divide_opp_r. }
  lia.
Qed.

(** X7. The categories and the string distances of the same array of
    resolved channel pairs agree: an event of category 1 has string
    distance 0 and floor distance 1, an event of category 2 has string
    distance 0 and a floor distance other than 1, and an event with a
    string distance other than 0 is of category 3. The converse fails
    where the string indices differ by a multiple of 11: such an event is
    of category 3 and has string distance 0. *)
Theorem categories_and_distances (ms mp : gmap Z Z) (pairs : list (Z * Z))
    (i : nat) (c1 c2 s1 s2 p1 p2 : Z) :
  resolved ms mp pairs →
  pairs !! i = Some (c1, c2) →
  ms !! c1 = Some s1 → ms !! c2 = Some s2 →
  mp !! c1 = Some p1 → mp !! c2 = Some p2 →
  ∃ categories string_diff floor_diff c d f,
    get_m2_categories (pair_row <$> pairs)
      (get_vectorised_converter ms) (get_vectorised_converter mp) = Ok categories
    ∧ get_string_row_diff (pair_row <$> pairs)
        (get_vectorised_converter ms) (get_vectorised_converter mp)
      = Ok (string_diff, floor_diff)
    ∧ length categories = length pairs
    ∧ length string_diff = length pairs
    ∧ length floor_diff = length pairs
    ∧ categories !! i = Some c ∧ string_diff !! i = Some d ∧ floor_diff !! i = Some f
    ∧ (c = 1 → d = 0 ∧ f = 1)
    ∧ (c = 2 → d = 0 ∧ f ≠ 1)
    ∧ (d ≠ 0 → c = 3)
    ∧ (c = 3 ∧ d = 0 ↔ s1 ≠ s2 ∧ (s1 - s2) `mod` 11 = 0).
Proof.
  intros Hres Hi Hs1 Hs2 Hp1 Hp2.
  assert (Hne : pairs ≠ []) by (intros ->; discriminate).
  exists ((λ pr, category_of (mapped ms pr.1) (mapped ms pr.2)
                             (mapped mp pr.1) (mapped mp pr.2)) <$> pairs),
    ((λ pr, string_diff_of (mapped ms pr.1) (mapped ms pr.2)) <$> pairs),
    ((λ pr, Z.abs (mapped mp pr.1 - mapped mp pr.2)) <$> pairs),
    (category_of s1 s2 p1 p2), (string_diff_of s1 s2), (Z.abs (p1 - p2)).
  split; [by apply get_m2_categories_pairs|].
  split; [by apply get_string_row_diff_pairs|].
  rewrite !length_fmap, !list_lookup_fmap, Hi. simpl.
  rewrite (mapped_lookup _ _ _ Hs1), (mapped_lookup _ _ _ Hs2),
    (mapped_lookup _ _ _ Hp1), (mapped_lookup _ _ _ Hp2).
  do 6 (split; [done|]).
  rewrite category_of_spec.
  pose proof (string_diff_of_zero s1 s2) as Hz.
  assert (Hsame : s1 = s2 → (s1 - s2) `mod` 11 = 0).
  { intros ->. by rewrite Z.sub_diag. }
  repeat case_decide; repeat split; try lia; try tauto; intros; try lia; try tauto.
Qed.

Lemma resolved_wrapped :
  resolved (list_to_map [(1010301, 3); (1011401, 14)])
    (list_to_map [(1010301, 1); (1011401, 1)]) [(1010301, 1011401)].
Proof.
  intros pr Hpr. apply list_elem_of_singleton in Hpr as ->.
  repeat split; vm_compute; eauto.
Defined.

Lemma categories_and_distances_witness :
  resolved (list_to_map [(1010301, 3); (1011401, 14)])
    (list_to_map [(1010301, 1); (1011401, 1)]) [(1010301, 1011401)]
  ∧ ∃ categories string_diff floor_diff c d f,
      get_m2_categories (pair_row <$> [(1010301, 1011401)])
        (get_vectorised_converter (list_to_map [(1010301, 3); (1011401, 14)]))
        (get_vectorised_converter (list_to_map [(1010301, 1); (1011401, 1)]))
      = Ok categories
      ∧ get_string_row_diff (pair_row <$> [(1010301, 1011401)])
          (get_vectorised_converter (list_to_map [(1010301, 3); (1011401, 14)]))
          (get_vectorised_converter (list_to_map [(1010301, 1); (1011401, 1)]))
        = Ok (string_diff, floor_diff)
      ∧ length categories = 1%nat
      ∧ length string_diff = 1%nat
      ∧ length floor_diff = 1%nat
      ∧ categories !! 0%nat = Some c ∧ string_diff !! 0%nat = Some d
      ∧ floor_diff !! 0%nat = Some f
      ∧ (c = 1 → d = 0 ∧ f = 1)
      ∧ (c = 2 → d = 0 ∧ f ≠ 1)
      ∧ (d ≠ 0 → c = 3)
      ∧ (c = 3 ∧ d = 0 ↔ 3 ≠ 14 ∧ (3 - 14) `mod` 11 = 0).
Proof.
  split; [exact resolved_wrapped|].
  exact (categories_and_distances _ _ [(1010301, 1011401)] 0 1010301 1011401 3 14 1 1
           resolved_wrapped eq_refl eq_refl eq_refl eq_refl eq_refl).
Defined.

(** ** A raw file without entries *)

Section RawFiles.

Variable chmap : ChannelMap.
Variable rconfig : RConfig.
Variable runs : list (string * list string).
Variable clean : list RawEvent → list Event.
Variable eval_cut : string → list Event → list bool.

Lemma count_raw_primaries_run (raw : list RawFile) (st : State) :
  Forall (λ f, is_Some (head (fNEvents f))) raw →
  count_raw_primaries raw st
  = (Ok tt, set_n_primaries_total
              (n_primaries_total st + Z_sum (raw_primaries <$> raw)) st).
Proof.
  unfold count_raw_primaries. intros H. revert st.
  induction H as [|f raw [n Hn] _ IH]; intros st.
  - simpl. destruct st. unfold set_n_primaries_total. simpl. do 2 f_equal. lia.
  - assert (Hf : raw_primaries f = n) by (unfold raw_primaries; by rewrite Hn).
    cbn [for_each]. rewrite M_bind_eq, M_bind_eq. unfold liftR. rewrite Hn. simpl.
    rewrite IH. rewrite Hf.
    change (list_fmap RawFile Z raw_primaries raw) with (raw_primaries <$> raw).
    unfold set_n_primaries_total. simpl. do 2 f_equal. lia.
Qed.

(** X8. The primaries of the raw files are counted before any histogram
    exists: a raw file whose tree has no entry makes the script raise
    IndexError with every histogram dictionary still empty, the counter
    holding the primaries of the raw files before it. *)
Theorem raw_file_without_entries (args : Args) (pre post : list RawFile) (f : RawFile) :
  raw_files args = pre ++ f :: post →
  Forall (λ g, is_Some (head (fNEvents g))) pre →
  fNEvents f = [] →
  ∃ st,
    main chmap rconfig runs clean eval_cut args = (Err IndexError, st)
    ∧ hists st = ∅ ∧ run_hists st = ∅ ∧ sum_hists st = ∅ ∧ hists_2d st = ∅
    ∧ n_primaries_total st = Z_sum (raw_primaries <$> pre).
Proof.
  intros Hraw Hpre Hf.
  eexists. split.
  - unfold main, build_pdf. rewrite M_bind_eq, Hraw.
    unfold count_raw_primaries. rewrite for_each_app, M_bind_eq.
    fold (count_raw_primaries pre). rewrite (count_raw_primaries_run pre _ Hpre).
    cbn [for_each]. rewrite M_bind_eq, M_bind_eq. unfold liftR. rewrite Hf. simpl.
    reflexivity.
  - simpl. repeat split; done.
Qed.

End RawFiles.

Lemma raw_file_without_entries_witness :
  ∃ st,
    Example.main {| raw_files := [{| fNEvents := [700; 700] |}; {| fNEvents := [] |}];
                    input_files := input_files Example.args_two_files |}
      = (Err IndexError, st)
    ∧ hists st = ∅ ∧ run_hists st = ∅ ∧ sum_hists st = ∅ ∧ hists_2d st = ∅
    ∧ n_primaries_total st = 700.
Proof.
  apply (raw_file_without_entries Example.chmap Example.rconfig Example.runs
           Example.clean Example.eval_cut
           {| raw_files := [{| fNEvents := [700; 700] |}; {| fNEvents := [] |}];
              input_files := input_files Example.args_two_files |}
           [{| fNEvents := [700; 700] |}] [] {| fNEvents := [] |});
    [reflexivity | repeat constructor; by eexists | reflexivity].
Defined.

(** ** A run that ends normally has resolved every hit *)



Section EveryHitResolved.

Variable chmap : ChannelMap.
Variable rconfig : RConfig.
Variable runs : list (string * list string).
Variable clean : list RawEvent → list Event.
Variable eval_cut : string → list Event → list bool.




End EveryHitResolved.

(** ** A frame rule for the fill loop

    A relation between states that every update of the fill loop
    respects, each taken with the kind of cut that performs it, is
    respected by the processing of a cut, a batch, a file and of all
    files. *)

Section FrameRule.

Variable chmap : ChannelMap.
Variable rconfig : RConfig.
Variable clean : list RawEvent → list Event.
Variable eval_cut : string → list Event → list bool.

Context (R : State → State → Prop) `{!PreOrder R}.

Hypothesis R_hists : ∀ f c cd k,
  (c, cd) ∈ cuts rconfig → is_sum cd = false → is_2d cd = false →
  respects R (modify_with hists set_hists (update2 f c k)).
Hypothesis R_run_hists : ∀ f c cd k,
  (c, cd) ∈ cuts rconfig → is_sum cd = false → is_2d cd = false →
  respects R (modify_with run_hists set_run_hists (update2 f c k)).
Hypothesis R_sum_hists : ∀ f c cd,
  (c, cd) ∈ cuts rconfig → is_sum cd = true → is_2d cd = false →
  respects R (modify_with sum_hists set_sum_hists (update2 f c "all")).
Hypothesis R_hists_2d : ∀ f c cd k,
  (c, cd) ∈ cuts rconfig → is_2d cd = true →
  respects R (modify_with hists_2d set_hists_2d (update2 f c k)).
Hypothesis R_primaries : ∀ n, respects R (add_primaries n).

Lemma frame_process_cut (period run : string) (mage_ids : list Z)
    (chmap_mage : MageNames) (array : list Event) (c : string * CutSpec) :
  c ∈ cuts rconfig →
  respects R (process_cut rconfig eval_cut period run mage_ids chmap_mage array c).
Proof.
  destruct c as [c cd]. intros Hc. unfold process_cut. cbn [fst snd].
  apply respects_bind; [apply _ | apply respects_liftR; apply _ |]. intros array_cut.
  destruct (is_sum cd) eqn:Hsum, (is_2d cd) eqn:H2d; cbn [negb andb].
  - apply respects_bind; [apply _ | apply respects_liftR; apply _ |]. intros e1.
    apply respects_bind; [apply _ | apply respects_liftR; apply _ |]. intros e2.
    apply respects_bind; [apply _ | apply respects_liftR; apply _ |]. intros arr.
    apply respects_for_each; [apply _|]. intros name _. unfold fill_bucket.
    apply respects_bind; [apply _ | apply respects_liftR; apply _ |]. intros tmp.
    destruct (Nat.eqb _ 0); [apply respects_ret; apply _ | by eapply R_hists_2d].
  - destruct (Nat.eqb _ 0); [apply respects_ret; apply _ | by eapply R_sum_hists].
  - apply respects_bind; [apply _ | apply respects_liftR; apply _ |]. intros e1.
    apply respects_bind; [apply _ | apply respects_liftR; apply _ |]. intros e2.
    apply respects_bind; [apply _ | apply respects_liftR; apply _ |]. intros arr.
    apply respects_for_each; [apply _|]. intros name _. unfold fill_bucket.
    apply respects_bind; [apply _ | apply respects_liftR; apply _ |]. intros tmp.
    destruct (Nat.eqb _ 0); [apply respects_ret; apply _ | by eapply R_hists_2d].
  - apply respects_for_each; [apply _|]. intros id _. unfold fill_channel.
    apply respects_bind; [apply _ | apply respects_liftR; apply _ |]. intros _rawid.
    destruct (Nat.eqb _ 0); [apply respects_ret; apply _|].
    apply respects_bind; [apply _ | by eapply R_hists |]. intros _.
    by eapply R_run_hists.
Qed.

Lemma frame_process_batch (period run : string) (array : list RawEvent) :
  respects R (process_batch chmap rconfig clean eval_cut period run array).
Proof.
  unfold process_batch.
  apply respects_bind; [apply _ | apply respects_liftR; apply _ |]. intros chmap_mage.
  apply respects_for_each; [apply _|]. intros c Hc. by apply frame_process_cut.
Qed.

Lemma frame_process_file (f : InputFile) :
  respects R (process_file chmap rconfig clean eval_cut f).
Proof.
  unfold process_file.
  apply respects_bind; [apply _ | apply respects_liftR; apply _ |]. intros pr.
  destruct (Nat.eqb _ 0); [apply respects_raise; apply _|].
  apply respects_bind; [apply _ | apply respects_liftR; apply _ |]. intros n.
  apply respects_bind; [apply _ | apply R_primaries |]. intros _.
  apply respects_for_each; [apply _|]. intros array _. apply frame_process_batch.
Qed.

Lemma frame_fill_all (files : list InputFile) :
  respects R (fill_all chmap rconfig clean eval_cut files).
Proof.
  apply respects_for_each; [apply _|]. intros f _. apply frame_process_file.
Qed.

End FrameRule.

Section FrameGrouping.

Variable chmap : ChannelMap.
Variable rconfig : RConfig.

Context (R : State → State → Prop) `{!PreOrder R}.

Hypothesis R_any_hists : ∀ f, respects R (modify_with hists set_hists f).

Lemma frame_make_grouped : respects R (make_grouped chmap rconfig).
Proof.
  unfold make_grouped.
  apply respects_bind; [apply _ | apply respects_get_state; apply _ |]. intros st.
  apply respects_for_each; [apply _|]. intros c _. unfold make_grouped_cut.
  apply respects_bind; [apply _ | apply R_any_hists |]. intros _.
  apply respects_bind; [apply _ | |].
  { apply respects_for_each; [apply _|]. intros t _. apply R_any_hists. }
  intros _. apply respects_for_each; [apply _|]. intros item _.
  unfold add_channel_to_groups.
  apply respects_bind; [apply _ | apply respects_liftR; apply _ |]. intros name.
  apply respects_bind; [apply _ | apply respects_liftR; apply _ |]. intros meta.
  apply respects_bind; [apply _ | apply respects_get_state; apply _ |]. intros st1.
  apply respects_bind; [apply _ | apply respects_liftR; apply _ |]. intros h.
  apply respects_bind; [apply _ | apply R_any_hists |]. intros _.
  apply respects_bind; [apply _ | apply respects_get_state; apply _ |]. intros st2.
  apply respects_bind; [apply _ | apply respects_liftR; apply _ |]. intros h'.
  apply R_any_hists.
Qed.

End FrameGrouping.

(** ** The per-run and summed histograms of a two-dimensional cut *)

#[global] Instance keeps_run_and_sum_preorder (c : string) : PreOrder (keeps_run_and_sum c).
Proof.
  split.
  - intros st. by split.
  - intros st1 st2 st3 [H1 H1'] [H2 H2']. split; congruence.
Qed.

Lemma NoDup_fst_unique {A B} (l : list (A * B)) (a : A) (b1 b2 : B) :
  NoDup (l.*1) → (a, b1) ∈ l → (a, b2) ∈ l → b1 = b2.
Proof.
  induction l as [|[a' b'] l IH]; intros Hnd H1 H2.
  - by apply elem_of_nil in H1.
  - rewrite fmap_cons in Hnd. apply NoDup_cons in Hnd as [Hnot Hnd].
    apply elem_of_cons in H1 as [E1|H1]; apply elem_of_cons in H2 as [E2|H2].
    + congruence.
    + injection E1 as -> ->. exfalso. apply Hnot.
      apply list_elem_of_fmap. by exists (a', b2).
    + injection E2 as -> ->. exfalso. apply Hnot.
      apply list_elem_of_fmap. by exists (a', b1).
    + by apply IH.
Qed.

Lemma cond_insert_values {V C} (test : C → bool) (key : C → string) (v : V)
    (P : V → Prop) (l : list C) (d0 : gmap string V) (c : string) (m : V) :
  P v → (∀ c m, d0 !! c = Some m → P m) →
  foldl (λ (d : gmap string V) x, if test x then <[key x := v]> d else d) d0 l !! c
    = Some m →
  P m.
Proof.
  intros Hv. revert d0. induction l as [|x l IH]; intros d0 H0 H; simpl in H.
  - by eapply H0.
  - eapply IH; [|exact H]. intros c' m' Hc'.
    destruct (test x); [|by eapply H0].
    destruct (decide (key x = c')) as [E|Hne].
    + rewrite E, lookup_insert_eq in Hc'. by injection Hc' as <-.
    + rewrite lookup_insert_ne in Hc' by done. by eapply H0.
Qed.

Lemma cond_insert_exists {V C} (test : C → bool) (key : C → string) (v : V)
    (P : V → Prop) (l : list C) (d0 : gmap string V) (c : string) :
  P v →
  (∃ x, x ∈ l ∧ key x = c ∧ test x = true) ∨ (∃ m, d0 !! c = Some m ∧ P m) →
  ∃ m, foldl (λ (d : gmap string V) x, if test x then <[key x := v]> d else d) d0 l !! c
       = Some m ∧ P m.
Proof.
  intros Hv. revert d0. induction l as [|x l IH]; intros d0 H; simpl.
  - destruct H as [(x & Hin & _)|H]; [by apply elem_of_nil in Hin | done].
  - apply IH. destruct H as [(x' & Hin & Hk & Ht)|(m & Hm & HP)].
    + apply elem_of_cons in Hin as [->|Hin]; [|left; eauto].
      right. rewrite Ht, Hk, lookup_insert_eq. eauto.
    + right. destruct (test x); [|eauto].
      destruct (decide (key x = c)) as [E|Hne].
      * rewrite E, lookup_insert_eq. eauto.
      * rewrite lookup_insert_ne by done. eauto.
Qed.

Lemma update2_other_cut {V} (f : V → V) (c c0 k : string)
    (d d' : gmap string (gmap string V)) :
  update2 f c k d = Ok d' → c ≠ c0 → d' !! c0 = d !! c0.
Proof.
  intros H Hne. apply update2_ok_inv in H as (m & h & _ & _ & ->).
  by rewrite lookup_insert_ne.
Qed.

Section TwoDimensionalCutFrame.

Variable chmap : ChannelMap.
Variable rconfig : RConfig.
Variable runs : list (string * list string).
Variable clean : list RawEvent → list Event.
Variable eval_cut : string → list Event → list bool.

Lemma new_run_hists_values (keys : list string) (m0 : gmap string TH1F) (k : string)
    (h : TH1F) :
  (∀ k h, m0 !! k = Some h → h = TH1F_new (cfg rconfig)) →
  foldl (λ (m : gmap string TH1F) k, <[k := TH1F_new (cfg rconfig)]> m) m0 keys !! k
    = Some h →
  h = TH1F_new (cfg rconfig).
Proof.
  revert m0. induction keys as [|k0 keys IH]; intros m0 H0 H; simpl in H.
  - by eapply H0.
  - eapply IH; [|exact H]. intros k' h' Hk'.
    destruct (decide (k0 = k')) as [->|Hne].
    + rewrite lookup_insert_eq in Hk'. by injection Hk' as <-.
    + rewrite lookup_insert_ne in Hk' by done. by eapply H0.
Qed.

Lemma new_run_hists_keys (keys : list string) (m0 : gmap string TH1F) (k : string) :
  k ∈ keys ∨ is_Some (m0 !! k) →
  is_Some (foldl (λ (m : gmap string TH1F) k, <[k := TH1F_new (cfg rconfig)]> m)
             m0 keys !! k).
Proof.
  revert m0. induction keys as [|k0 keys IH]; intros m0 H; simpl.
  - destruct H as [H|H]; [by apply elem_of_nil in H | done].
  - apply IH. destruct H as [H|H].
    + apply elem_of_cons in H as [->|H]; [right | by left].
      rewrite lookup_insert_eq. eauto.
    + right. destruct (decide (k0 = k)) as [->|Hne].
      * rewrite lookup_insert_eq. eauto.
      * by rewrite lookup_insert_ne.
Qed.

Lemma init_run_hists_new (c k : string) (m : gmap string TH1F) (h : TH1F) :
  init_run_hists rconfig runs !! c = Some m → m !! k = Some h →
  h = TH1F_new (cfg rconfig).
Proof.
  intros Hm Hk. unfold init_run_hists in Hm.
  revert k h Hk.
  eapply (cond_insert_values (λ c : string * CutSpec, negb (is_sum c.2)) fst _
            (λ m, ∀ k h, m !! k = Some h → h = TH1F_new (cfg rconfig)));
    [| |exact Hm].
  - intros k h. apply new_run_hists_values. intros k' h' H'.
    by rewrite lookup_empty in H'.
  - intros c' m' H'. by rewrite lookup_empty in H'.
Qed.

Lemma init_run_hists_exists (c : string) (cd : CutSpec) :
  (c, cd) ∈ cuts rconfig → is_sum cd = false →
  ∃ m, init_run_hists rconfig runs !! c = Some m
       ∧ ∀ k, k ∈ run_keys runs → is_Some (m !! k).
Proof.
  intros Hc Hsum. unfold init_run_hists.
  apply (cond_insert_exists (λ c : string * CutSpec, negb (is_sum c.2)) fst _
           (λ m, ∀ k, k ∈ run_keys runs → is_Some (m !! k))).
  - intros k Hk. apply new_run_hists_keys. by left.
  - left. exists (c, cd). simpl. by rewrite Hsum.
Qed.

Lemma init_sum_hists_new (c k : string) (m : gmap string TH1F) (h : TH1F) :
  init_sum_hists rconfig !! c = Some m → m !! k = Some h →
  h = TH1F_new (cfg rconfig).
Proof.
  intros Hm Hk. unfold init_sum_hists in Hm.
  revert k h Hk.
  eapply (cond_insert_values (λ c : string * CutSpec, is_sum c.2) fst _
            (λ m, ∀ k h, m !! k = Some h → h = TH1F_new (cfg rconfig)));
    [| |exact Hm].
  - intros k h H'. apply lookup_singleton_Some in H' as [_ <-]. done.
  - intros c' m' H'. by rewrite lookup_empty in H'.
Qed.

Lemma init_sum_hists_exists (c : string) (cd : CutSpec) :
  (c, cd) ∈ cuts rconfig → is_sum cd = true →
  ∃ m, init_sum_hists rconfig !! c = Some m ∧ is_Some (m !! "all").
Proof.
  intros Hc Hsum. unfold init_sum_hists.
  apply (cond_insert_exists (λ c : string * CutSpec, is_sum c.2) fst _
           (λ m, is_Some (m !! "all"))).
  - rewrite lookup_singleton_eq. eauto.
  - left. exists (c, cd). by simpl.
Qed.

Section OneCut.

Variables (c : string) (cd : CutSpec).
Hypothesis Hnames : NoDup (cuts rconfig).*1.
Hypothesis Hc : (c, cd) ∈ cuts rconfig.
Hypothesis H2d : is_2d cd = true.

Lemma other_cut_name (c' : string) (cd' : CutSpec) :
  (c', cd') ∈ cuts rconfig → is_2d cd' = false → c' ≠ c.
Proof.
  intros Hc' H2d' ->.
  pose proof (NoDup_fst_unique _ _ _ _ Hnames Hc Hc') as E. congruence.
Qed.

Lemma keeps_fill_all (files : list InputFile) :
  respects (keeps_run_and_sum c) (fill_all chmap rconfig clean eval_cut files).
Proof.
  apply frame_fill_all; [apply _|..].
  - intros f c' cd' k _ _ _. apply respects_modify_with; [apply _|].
    intros st d _. by split.
  - intros f c' cd' k Hc' _ H2d'. apply respects_modify_with; [apply _|].
    intros st d Hd. split; [|done]. simpl.
    eapply update2_other_cut; [exact Hd | by eapply other_cut_name].
  - intros f c' cd' Hc' _ H2d'. apply respects_modify_with; [apply _|].
    intros st d Hd. split; [done|]. simpl.
    eapply update2_other_cut; [exact Hd | by eapply other_cut_name].
  - intros f c' cd' k _ _. apply respects_modify_with; [apply _|].
    intros st d _. by split.
  - intros n st. by split.
Qed.

Lemma keeps_make_grouped :
  respects (keeps_run_and_sum c) (make_grouped chmap rconfig).
Proof.
  apply frame_make_grouped; [apply _|].
  intros f. apply respects_modify_with; [apply _|]. intros st d _. by split.
Qed.

End OneCut.

(** X10. With cut names that are distinct, as the keys of the
    configuration are, a two-dimensional cut fills nothing but its
    two-dimensional histograms: when the script writes its output, the
    per-run histograms of that cut (one per analysis run, when the cut is
    not flagged as summed) and its summed histogram (when it is) are
    still as they were created, without an entry. *)
Theorem two_dimensional_cut_fills_no_run_hists (args : Args) (out : Output) (st : State)
    (c : string) (cd : CutSpec) :
  NoDup (cuts rconfig).*1 →
  main chmap rconfig runs clean eval_cut args = (Ok out, st) →
  (c, cd) ∈ cuts rconfig → is_2d cd = true →
  (∀ m k h, out_run_hists out !! c = Some m → m !! k = Some h →
     h = TH1F_new (cfg rconfig) ∧ entries h = 0%nat)
  ∧ (∀ m k h, out_sum_hists out !! c = Some m → m !! k = Some h →
       h = TH1F_new (cfg rconfig) ∧ entries h = 0%nat)
  ∧ (is_sum cd = false →
       ∃ m, out_run_hists out !! c = Some m
            ∧ ∀ k, k ∈ run_keys runs → is_Some (m !! k))
  ∧ (is_sum cd = true →
       ∃ m, out_sum_hists out !! c = Some m ∧ is_Some (m !! "all")).
Proof.
  intros Hnames H Hc H2d.
  apply main_ok_inv in H as (st1 & st2 & st3 & H1 & H2 & H3 & H4 & H5).
  assert (E2 : run_hists st2 = init_run_hists rconfig runs
               ∧ sum_hists st2 = init_sum_hists rconfig).
  { unfold init_histograms in H2. by injection H2 as <-. }
  destruct E2 as [Erun Esum].
  pose proof (keeps_fill_all c cd Hnames Hc H2d (input_files args) st2) as [Hr3 Hs3].
  rewrite H3 in Hr3, Hs3. simpl in Hr3, Hs3.
  pose proof (keeps_make_grouped c st3) as [Hr4 Hs4].
  rewrite H4 in Hr4, Hs4. simpl in Hr4, Hs4.
  assert (Eout : out_run_hists out = run_hists st ∧ out_sum_hists out = sum_hists st).
  { unfold write_output in H5. by injection H5 as <-. }
  destruct Eout as [-> ->].
  rewrite Hr4, Hr3, Erun, Hs4, Hs3, Esum.
  split; [|split; [|split]].
  - intros m k h Hm Hk. pose proof (init_run_hists_new _ _ _ _ Hm Hk) as ->.
    split; [done | apply entries_replicate_0].
  - intros m k h Hm Hk. pose proof (init_sum_hists_new _ _ _ _ Hm Hk) as ->.
    split; [done | apply entries_replicate_0].
  - intros Hsum. by eapply init_run_hists_exists.
  - intros Hsum. by eapply init_sum_hists_exists.
Qed.

End TwoDimensionalCutFrame.

Lemma two_dimensional_cut_fills_no_run_hists_witness :
  NoDup (cuts Example.rconfig).*1
  ∧ Example.main Example.args_two_files = (Ok Example.out_two_files, Example.st_two_files)
  ∧ ∃ m, out_run_hists Example.out_two_files !! "mul2_2d" = Some m
         ∧ ∀ k, k ∈ run_keys Example.runs → is_Some (m !! k).
Proof.
  assert (Hnd : NoDup (cuts Example.rconfig).*1).
  { change (NoDup ["raw"; "mul_esum"; "mul2_2d"]).
    repeat (apply NoDup_cons; split;
            [intros H; repeat (apply elem_of_cons in H as [H|H]; [discriminate|]);
             by apply elem_of_nil in H|]).
    apply NoDup_nil_2. }
  split; [exact Hnd|]. split; [exact run_two_files|].
  destruct (two_dimensional_cut_fills_no_run_hists Example.chmap Example.rconfig
              Example.runs Example.clean Example.eval_cut Example.args_two_files
              _ _ "mul2_2d" (Example.cut "mul == 2" false true) Hnd run_two_files)
    as (_ & _ & H & _); [by right; right; left | reflexivity |].
  exact (H eq_refl).
Defined.

(** ** The detector table of make_tier_evt_config_file.py *)

Lemma chmap_lookup_from_absent (name : string) (l : ChannelMap) (acc : option ChannelMeta) :
  name ∉ l.*1 →
  foldl (λ (acc : option ChannelMeta) (entry : string * ChannelMeta),
           if String.eqb entry.1 name then Some entry.2 else acc) acc l = acc.
Proof.
  revert acc. induction l as [|[n m] l IH]; intros acc Hnot; [done|].
  simpl. rewrite fmap_cons in Hnot. apply not_elem_of_cons in Hnot as [Hne Hnot].
  simpl in Hne. destruct (String.eqb_spec n name) as [->|_]; [done|].
  by apply IH.
Qed.

Lemma chmap_lookup_from_distinct (name : string) (meta : ChannelMeta) (l : ChannelMap)
    (acc : option ChannelMeta) :
  NoDup l.*1 → (name, meta) ∈ l →
  foldl (λ (acc : option ChannelMeta) (entry : string * ChannelMeta),
           if String.eqb entry.1 name then Some entry.2 else acc) acc l = Some meta.
Proof.
  revert acc. induction l as [|[n m] l IH]; intros acc Hnd Hin.
  - by apply elem_of_nil in Hin.
  - rewrite fmap_cons in Hnd. apply NoDup_cons in Hnd as [Hnot Hnd]. simpl in Hnot.
    apply elem_of_cons in Hin as [E|Hin].
    + injection E as <- <-. simpl. rewrite String.eqb_refl.
      by apply chmap_lookup_from_absent.
    + simpl. by apply IH.
Qed.

Lemma chmap_lookup_distinct (chmap : ChannelMap) (name : string) (meta : ChannelMeta) :
  distinct_names chmap → (name, meta) ∈ chmap → chmap_lookup chmap name = Ok meta.
Proof.
  intros Hnd Hin. unfold chmap_lookup.
  by rewrite (chmap_lookup_from_distinct name meta chmap None Hnd Hin).
Qed.

Lemma usability_mask_not_no_psd (dataset mask : string) :
  usability_mask dataset mask ≠ "no_psd".
Proof.
  unfold usability_mask.
  destruct (String.eqb dataset "golden");
    destruct (String.eqb_spec mask "no_psd"); done.
Qed.

Section EvtConfigFacts.

Variable dataset : string.
Variable chmap : ChannelMap.
Variable channelmap : gmap string GedMeta.
Variable all_det : gmap string Q.
Variable data : gmap string (option (list Q)).
Variable math_sqrt : Q → Q.

Local Abbreviation evt_entry := (evt_entry dataset chmap channelmap all_det data math_sqrt).
Local Abbreviation written_for := (written_for dataset channelmap all_det data).

Lemma evt_entry_ok_inv (outstr outstr' : gmap Z EvtEntry) (entry : string * ChannelMeta) :
  chmap_lookup chmap entry.1 = Ok entry.2 →
  evt_entry outstr entry.1 = Ok outstr' →
  ∃ v, outstr' = <[mageid_of entry := v]> outstr ∧ written_for entry v.
Proof.
  intros Hlook H. unfold evt_entry in H.
  apply rbind_ok_inv in H as (ged & Hged & H).
  apply rbind_ok_inv in H as (fccd & Hfccd & H).
  rewrite Hlook in H. simpl in H.
  destruct (channelmap !! entry.1) as [ged'|] eqn:Eged; [|discriminate].
  injection Hged as ->.
  destruct (all_det !! entry.1) as [fccd'|] eqn:Efccd; [|discriminate].
  injection Hfccd as ->.
  fold (mageid_of entry) in H.
  destruct (data !! ("ch" +:+ py_str (ged_daq_rawid ged))) as [pars|] eqn:Edata.
  - apply rbind_ok_inv in H as (eres & _ & H).
    apply rbind_ok_inv in H as (e0 & _ & H).
    apply rbind_ok_inv in H as (s0 & _ & H).
    apply rbind_ok_inv in H as (e1 & _ & H).
    apply rbind_ok_inv in H as (s1 & _ & H).
    injection H as <-. eexists. split; [done|].
    exists ged. unfold ch_label. rewrite Edata. simpl.
    repeat split; try done; eauto.
  - injection H as <-. eexists. split; [done|].
    exists ged. unfold ch_label. rewrite Edata. simpl.
    repeat split; try done; by intros [? ?].
Qed.

(** The loop over the germanium detectors of a part [l] of the channel
    map: what it leaves under a key is what it has written for the last
    germanium detector of [l] with this identifier, or what was there
    when no detector of [l] has it. *)
Lemma evt_loop_last (l : ChannelMap) (out0 out : gmap Z EvtEntry) (k : Z) :
  (∀ e, e ∈ l → chmap_lookup chmap e.1 = Ok e.2) →
  foldR evt_entry out0
    (filter (λ entry : string * ChannelMeta, system entry.2 = "geds") l).*1 = Ok out →
  (out !! k = out0 !! k
   ∧ Forall (λ e, system e.2 = "geds" → mageid_of e ≠ k) l)
  ∨ (∃ l1 entry l2 v,
       l = l1 ++ entry :: l2
       ∧ system entry.2 = "geds" ∧ mageid_of entry = k
       ∧ Forall (λ e, system e.2 = "geds" → mageid_of e ≠ k) l2
       ∧ out !! k = Some v ∧ written_for entry v).
Proof.
  revert out0. induction l as [|e l IH]; intros out0 Hlook H.
  - injection H as <-. left. split; [done | constructor].
  - assert (Hlook' : ∀ e', e' ∈ l → chmap_lookup chmap e'.1 = Ok e'.2).
    { intros e' He'. apply Hlook. by right. }
    destruct (decide (system e.2 = "geds")) as [Hg|Hg].
    + rewrite (filter_cons_True
                 (λ entry : string * ChannelMeta, system entry.2 = "geds")) in H by done. rewrite fmap_cons in H. simpl in H.
      apply rbind_ok_inv in H as (out1 & H1 & H).
      apply evt_entry_ok_inv in H1 as (v & -> & Hv); [|apply Hlook; by left].
      destruct (IH _ Hlook' H) as [[Hk Hall]|(l1 & entry & l2 & v' & -> & Hge & Hid & Hl2 & Hk & Hv')].
      * destruct (decide (mageid_of e = k)) as [Ek|Ek].
        -- right. exists [], e, l, v. rewrite Hk, Ek, lookup_insert_eq. done.
        -- left. rewrite Hk, lookup_insert_ne by done. split; [done|].
           constructor; [done | exact Hall].
      * right. exists (e :: l1), entry, l2, v'. done.
    + rewrite (filter_cons_False
                 (λ entry : string * ChannelMeta, system entry.2 = "geds")) in H by done.
      destruct (IH _ Hlook' H) as [[Hk Hall]|(l1 & entry & l2 & v' & -> & Hge & Hid & Hl2 & Hk & Hv')].
      * left. split; [done|]. constructor; [done | exact Hall].
      * right. exists (e :: l1), entry, l2, v'. done.
Qed.

End EvtConfigFacts.

Lemma roundtrip_spec (s p : Z) :
  0 ≤ s < 100 → 0 ≤ p < 100 →
  is_ged (py_str (mageid s p)) = Ok true
  ∧ mage_string (py_str (mageid s p)) = Ok s
  ∧ mage_pos (py_str (mageid s p)) = Ok p.
Proof.
  intros Hs Hp.
  pose proof roundtrip_all as H.
  rewrite forallb_forall in H.
  specialize (H s ltac:(apply list_elem_of_In, elem_of_seqZ; lia)).
  rewrite forallb_forall in H.
  specialize (H p ltac:(apply list_elem_of_In, elem_of_seqZ; lia)).
  unfold roundtrip_ok in H.
  destruct (is_ged _) as [[|]|]; try discriminate.
  destruct (mage_string _) as [s'|]; try discriminate.
  destruct (mage_pos _) as [p'|]; try discriminate.
  apply andb_prop in H as [H1 H2].
  apply Z.eqb_eq in H1, H2. by subst.
Qed.

Section EvtConfigTable.

Variable dataset : string.
Variable chmap : ChannelMap.
Variable channelmap : gmap string GedMeta.
Variable all_det : gmap string Q.
Variable data : gmap string (option (list Q)).
Variable math_sqrt : Q → Q.

Local Abbreviation run :=
  (make_tier_evt_config dataset chmap channelmap all_det data math_sqrt).
Local Abbreviation written_for := (written_for dataset channelmap all_det data).

Lemma returned_inv (outstr : gmap Z EvtEntry) :
  run = Returned outstr →
  (dataset = "golden" ∨ dataset = "silver")
  ∧ foldR (evt_entry dataset chmap channelmap all_det data math_sqrt) ∅
      (filter (λ entry : string * ChannelMeta, system entry.2 = "geds") chmap).*1
    = Ok outstr.
Proof.
  unfold make_tier_evt_config, detlist. intros H.
  destruct (String.eqb_spec dataset "golden") as [Eg|_];
    [|destruct (String.eqb_spec dataset "silver") as [Es|_]]; simpl in H;
    try discriminate;
    (split; [by auto|]);
    destruct (foldR _ _ _) as [o|e]; try discriminate; by injection H as ->.
Qed.

Lemma table_last (outstr : gmap Z EvtEntry) (k : Z) :
  distinct_names chmap →
  run = Returned outstr →
  (outstr !! k = None
   ∧ Forall (λ e, system e.2 = "geds" → mageid_of e ≠ k) chmap)
  ∨ (∃ l1 entry l2 v,
       chmap = l1 ++ entry :: l2
       ∧ system entry.2 = "geds" ∧ mageid_of entry = k
       ∧ Forall (λ e, system e.2 = "geds" → mageid_of e ≠ k) l2
       ∧ outstr !! k = Some v ∧ written_for entry v).
Proof.
  intros Hnd H. apply returned_inv in H as [_ H].
  assert (Hlook : ∀ e, e ∈ chmap → chmap_lookup chmap e.1 = Ok e.2).
  { intros [n m] He. by apply chmap_lookup_distinct. }
  destruct (evt_loop_last dataset chmap channelmap all_det data math_sqrt
              chmap ∅ outstr k Hlook H) as [[Hk Hall]|Hex].
  - left. rewrite Hk, lookup_empty. done.
  - by right.
Qed.

(** X11. When the generator returns, the dataset flag is golden or
    silver and, the names of the channel map being distinct, the keys of
    the table it writes are exactly the identifiers
    [1000000 + 10000 + 100 * string + position] of the germanium
    detectors of the channel map; under each key stands the record of
    the last germanium detector of the channel map with this identifier,
    under its own name. *)
Theorem evt_config_keys (outstr : gmap Z EvtEntry) :
  distinct_names chmap →
  run = Returned outstr →
  (dataset = "golden" ∨ dataset = "silver")
  ∧ (∀ k, is_Some (outstr !! k)
          ↔ ∃ entry, entry ∈ chmap ∧ system entry.2 = "geds"
                     ∧ k = 1000000 + 1 * 10000
                           + loc_string (location entry.2) * 100
                           + loc_position (location entry.2))
  ∧ (∀ k v, outstr !! k = Some v →
       ∃ l1 entry l2,
         chmap = l1 ++ entry :: l2
         ∧ system entry.2 = "geds" ∧ mageid_of entry = k
         ∧ Forall (λ e, system e.2 = "geds" → mageid_of e ≠ k) l2
         ∧ evt_name v = entry.1).
Proof.
  intros Hnd H. split; [by apply returned_inv in H as [? _]|]. split.
  - intros k. split.
    + intros [v Hv].
      destruct (table_last outstr k Hnd H)
        as [[Hk _]|(l1 & entry & l2 & v' & -> & Hg & Hid & _)]; [congruence|].
      exists entry. split; [apply elem_of_app; right; by left|]. split; [done|].
      rewrite <- Hid. reflexivity.
    + intros (entry & Hin & Hg & ->).
      destruct (table_last outstr (mageid_of entry) Hnd H)
        as [[_ Hall]|(l1 & entry' & l2 & v' & _ & _ & _ & _ & Hk & _)].
      * rewrite Forall_forall in Hall. by destruct (Hall entry Hin Hg).
      * unfold mageid_of, mageid, cryostat in Hk. rewrite Hk. eauto.
  - intros k v Hv.
    destruct (table_last outstr k Hnd H)
      as [[Hk _]|(l1 & entry & l2 & v' & -> & Hg & Hid & Hl2 & Hk & Hw)]; [congruence|].
    rewrite Hv in Hk. injection Hk as <-.
    destruct Hw as (ged & _ & Hname & _).
    by exists l1, entry, l2.
Qed.

(** X12. In the table the generator returns, no detector has usability
    no_psd: a detector that the analysis channel map marks no_psd is
    written as ac in the golden dataset and as on otherwise, every other
    usability is copied. The energy of a detector is three nulls when
    its channel is not a key of the calibration results, and otherwise
    two numbers and a zero. *)
Theorem evt_config_usability (outstr : gmap Z EvtEntry) (k : Z) (v : EvtEntry) :
  distinct_names chmap →
  run = Returned outstr →
  outstr !! k = Some v →
  evt_usability v ≠ "no_psd"
  ∧ ∃ ged,
      channelmap !! evt_name v = Some ged
      ∧ (analysis_usability ged ≠ "no_psd" → evt_usability v = analysis_usability ged)
      ∧ (analysis_usability ged = "no_psd" →
           evt_usability v = if decide (dataset = "golden") then "ac" else "on")
      ∧ (data !! ch_label (ged_daq_rawid ged) = None →
           evt_energy v = {| sig0 := None; sig1 := None; sig2 := None |})
      ∧ (is_Some (data !! ch_label (ged_daq_rawid ged)) →
           is_Some (sig0 (evt_energy v)) ∧ is_Some (sig1 (evt_energy v))
           ∧ sig2 (evt_energy v) = Some 0%Q).
Proof.
  intros Hnd H Hv.
  destruct (table_last outstr k Hnd H)
    as [[Hk _]|(l1 & entry & l2 & v' & -> & Hg & Hid & Hl2 & Hk & Hw)]; [congruence|].
  rewrite Hv in Hk. injection Hk as <-.
  destruct Hw as (ged & Hged & Hname & _ & Hmask & Hnull & Hnum).
  split; [rewrite Hmask; apply usability_mask_not_no_psd|].
  exists ged. rewrite Hname. split; [done|].
  rewrite Hmask. unfold usability_mask.
  repeat split; try done.
  - intros Hne. destruct (String.eqb dataset "golden");
      by destruct (String.eqb_spec (analysis_usability ged) "no_psd").
  - intros ->. simpl.
    destruct (String.eqb_spec dataset "golden"); by case_decide.
  - by apply Hnum.
  - by apply Hnum.
  - by apply Hnum.
Qed.

(** X13. The two scripts agree on the identifiers: with distinct names
    and the string and position of every germanium detector of the
    channel map in 0..99, an identifier under which the generator has
    written a detector is resolved by process_mage_id, whenever it is in
    its input, to the same detector: the name is the one written, and the
    string, position and channel label are those of that detector in the
    channel map. *)
Theorem written_ids_resolve (outstr : gmap Z EvtEntry) (k : Z) (v : EvtEntry)
    (mage_ids : list Z) (mage_names : MageNames) :
  distinct_names chmap →
  Forall (λ e, system e.2 = "geds" →
               0 ≤ loc_string (location e.2) < 100
               ∧ 0 ≤ loc_position (location e.2) < 100) chmap →
  run = Returned outstr →
  outstr !! k = Some v →
  process_mage_id chmap mage_ids = Ok mage_names →
  k ∈ mage_ids →
  ∃ meta,
    chmap_lookup chmap (evt_name v) = Ok meta
    ∧ mn_name mage_names !! k = Some (evt_name v)
    ∧ mn_channel mage_names !! k = Some (ch_label (daq_rawid meta))
    ∧ mn_string mage_names !! k = Some (loc_string (location meta))
    ∧ mn_position mage_names !! k = Some (loc_position (location meta)).
Proof.
  intros Hnd Hrange H Hv Hres Hin.
  destruct (table_last outstr k Hnd H)
    as [[Hk _]|(l1 & [name meta] & l2 & v' & Hchmap & Hg & Hid & Hl2 & Hk & Hw)];
    [congruence|].
  rewrite Hv in Hk. injection Hk as <-.
  destruct Hw as (ged & _ & Hname & _). simpl in *.
  assert (Hmem : (name, meta) ∈ chmap).
  { rewrite Hchmap. apply elem_of_app. right. by left. }
  rewrite Forall_forall in Hrange.
  destruct (Hrange _ Hmem Hg) as [Hs Hp]. simpl in Hs, Hp.
  destruct (roundtrip_spec _ _ Hs Hp) as (Hged & Hstr & Hpos).
  unfold mageid_of in Hid. simpl in Hid. rewrite Hid in Hged, Hstr, Hpos.
  exists meta. rewrite Hname.
  split; [by apply chmap_lookup_distinct|].
  apply (process_from_resolves chmap k _ _ l1 l2 name meta Hged Hstr Hpos Hchmap)
    with (mage_ids := mage_ids) (mage_names := mage_names_empty); try done.
  - unfold chmap_entry_matches. rewrite Hg. simpl. by rewrite !Z.eqb_refl.
  - rewrite Forall_forall in Hl2. apply Forall_forall. intros [n m] He.
    simpl.
    destruct (chmap_entry_matches (loc_string (location meta))
                (loc_position (location meta)) m) eqn:Em; [|done]. exfalso.
    unfold chmap_entry_matches in Em.
    apply andb_prop in Em as [Em Em3]. apply andb_prop in Em as [Em1 Em2].
    apply String.eqb_eq in Em1. apply Z.eqb_eq in Em2, Em3. simpl in *.
    apply (Hl2 _ He Em1). unfold mageid_of. simpl. rewrite Em2, Em3. exact Hid.
Qed.

End EvtConfigTable.

Lemma example_names_distinct : distinct_names Example.chmap.
Proof.
  change (NoDup ["V02160A"; "B00035C"; "C000RG1"; "S002"]).
  repeat (apply NoDup_cons; split;
          [intros H; repeat (apply elem_of_cons in H as [H|H]; [discriminate|]);
           by apply elem_of_nil in H|]).
  apply NoDup_nil_2.
Defined.

Lemma evt_example_run : EvtExample.run "golden" = Returned EvtExample.outstr.
Proof. vm_compute. reflexivity. Defined.

Lemma evt_config_keys_witness :
  distinct_names Example.chmap
  ∧ EvtExample.run "golden" = Returned EvtExample.outstr
  ∧ (∀ k, is_Some (EvtExample.outstr !! k)
          ↔ ∃ entry, entry ∈ Example.chmap ∧ system entry.2 = "geds"
                     ∧ k = 1000000 + 1 * 10000
                           + loc_string (location entry.2) * 100
                           + loc_position (location entry.2)).
Proof.
  split; [exact example_names_distinct|]. split; [exact evt_example_run|].
  exact (proj1 (proj2 (evt_config_keys "golden" Example.chmap EvtExample.channelmap
                         EvtExample.all_det EvtExample.data EvtExample.math_sqrt
                         EvtExample.outstr example_names_distinct evt_example_run))).
Defined.

Lemma evt_config_usability_witness :
  ∃ v,
    EvtExample.outstr !! 1010203 = Some v
    ∧ evt_name v = "V02160A"
    ∧ evt_usability v = "ac"
    ∧ evt_usability v ≠ "no_psd"
    ∧ is_Some (sig0 (evt_energy v)).
Proof.
  eexists. split; [vm_compute; reflexivity|].
  split; [reflexivity|]. split; [reflexivity|].
  destruct (evt_config_usability "golden" Example.chmap EvtExample.channelmap
              EvtExample.all_det EvtExample.data EvtExample.math_sqrt
              EvtExample.outstr 1010203 _ example_names_distinct evt_example_run
              ltac:(vm_compute; reflexivity))
    as (Hno & ged & Hged & _ & _ & _ & Hnum).
  split; [exact Hno|].
  apply Hnum. vm_compute in Hged. injection Hged as <-. vm_compute. eauto.
Defined.

Lemma written_ids_resolve_witness :
  ∃ v meta,
    EvtExample.outstr !! 1010203 = Some v
    ∧ process_mage_id Example.chmap [1010203; 1010203] = Ok Example.names_one_channel
    ∧ chmap_lookup Example.chmap (evt_name v) = Ok meta
    ∧ mn_name Example.names_one_channel !! 1010203 = Some (evt_name v)
    ∧ mn_channel Example.names_one_channel !! 1010203 = Some (ch_label (daq_rawid meta))
    ∧ mn_string Example.names_one_channel !! 1010203 = Some (loc_string (location meta))
    ∧ mn_position Example.names_one_channel !! 1010203
      = Some (loc_position (location meta)).
Proof.
  assert (Hrange : Forall (λ e : string * ChannelMeta, system e.2 = "geds" →
                     0 ≤ loc_string (location e.2) < 100
                     ∧ 0 ≤ loc_position (location e.2) < 100) Example.chmap).
  { repeat constructor; simpl; lia. }
  destruct (written_ids_resolve "golden" Example.chmap EvtExample.channelmap
              EvtExample.all_det EvtExample.data EvtExample.math_sqrt
              EvtExample.outstr 1010203
              {| evt_name := "V02160A"; nplus_fccd_mm := 1.1%Q;
                 evt_energy := {| sig0 := Some (EvtExample.math_sqrt 4 / 2.355)%Q;
                                  sig1 := Some (EvtExample.math_sqrt 9 / 2.355)%Q;
                                  sig2 := Some 0%Q |};
                 evt_usability := "ac" |}
              [1010203; 1010203] Example.names_one_channel
              example_names_distinct Hrange evt_example_run)
    as (meta & Hmeta); [vm_compute; reflexivity | reflexivity | by left |].
  eexists _, meta. split; [vm_compute; reflexivity|]. split; [reflexivity|].
  exact Hmeta.
Defined.

(** ** The buckets of a two-dimensional cut *)

Lemma FindBin_bound (cfg : HistConfig) (x : Q) : (FindBin cfg x ≤ nbins cfg + 1)%nat.
Proof.
  unfold FindBin.
  destruct (Qlt_le_dec x (emin cfg)) as [_|Hmin]; [lia|].
  destruct (Qlt_le_dec x (emax cfg)) as [Hmax|_]; [|lia].
  assert (Hd : (0 < emax cfg - emin cfg)%Q).
  { unfold Qminus. apply -> Qlt_minus_iff. eapply Qle_lt_trans; eauto. }
  assert (Hr : (inject_Z (Z.of_nat (nbins cfg)) * (x - emin cfg) / (emax cfg - emin cfg)
                <= inject_Z (Z.of_nat (nbins cfg)))%Q).
  { apply Qle_shift_div_r; [exact Hd|].
    apply Qmult_le_compat_nonneg.
    - split; [|apply Qle_refl].
      change 0%Q with (inject_Z 0). rewrite <- Zle_Qle. lia.
    - split.
      + unfold Qminus. by apply -> Qle_minus_iff.
      + unfold Qminus. apply Qplus_le_l. by apply Qlt_le_weak. }
  apply Qfloor_resp_le in Hr. rewrite Qfloor_Z in Hr. lia.
Qed.

Lemma entries_alter (h : list nat) (i : nat) :
  (i < length h)%nat → entries (alter S i h) = S (entries h).
Proof.
  unfold entries. revert i. induction h as [|x h IH]; intros [|i] Hi; simpl in *;
    try lia.
  specialize (IH i ltac:(lia)).
  change (alter S i h) with (list_alter S i h) in IH. rewrite IH. lia.
Qed.

Lemma TH2F_Fill_entries (cfg : HistConfig) (h : TH2F) (xy : Q * Q) :
  length h = ((nbins cfg + 2) * (nbins cfg + 2))%nat →
  length (TH2F_Fill cfg h xy) = length h
  ∧ entries (TH2F_Fill cfg h xy) = S (entries h).
Proof.
  intros Hlen. unfold TH2F_Fill. split; [apply length_alter|].
  apply entries_alter.
  pose proof (FindBin_bound cfg xy.1). pose proof (FindBin_bound cfg xy.2). nia.
Qed.

Lemma TH2F_FillN_entries (cfg : HistConfig) (h : TH2F) (x y : list Q) :
  length h = ((nbins cfg + 2) * (nbins cfg + 2))%nat →
  length (TH2F_FillN cfg h x y) = length h
  ∧ entries (TH2F_FillN cfg h x y) = (entries h + length (zip x y))%nat.
Proof.
  unfold TH2F_FillN. generalize (zip x y). intros l. revert h.
  induction l as [|xy l IH]; intros h Hlen; simpl; [split; [done | lia]|].
  destruct (TH2F_Fill_entries cfg h xy Hlen) as [Hl He].
  destruct (IH (TH2F_Fill cfg h xy)) as [Hl' He']; [congruence|].
  split; [congruence | lia].
Qed.

(** *** The indices of a value partition the array *)

Lemma where_cats_from (i : nat) (cats : list Z) :
  Forall (λ c, c = 1 ∨ c = 2 ∨ c = 3) cats →
  (length (np_where_eq_from i 1 cats) + length (np_where_eq_from i 2 cats)
   + length (np_where_eq_from i 3 cats) = length cats)%nat.
Proof.
  intros H. revert i. induction H as [|c cats Hc _ IH]; intros i; [done|].
  specialize (IH (S i)). simpl.
  destruct Hc as [-> | [-> | ->]]; simpl; lia.
Qed.

Lemma where_sd_from (i : nat) (sd : list Z) :
  Forall (λ d, 0 ≤ d ≤ 5) sd →
  (length (np_where_eq_from i 0 sd) + length (np_where_eq_from i 1 sd)
   + length (np_where_eq_from i 2 sd) + length (np_where_eq_from i 3 sd)
   + length (np_where_eq_from i 4 sd) + length (np_where_eq_from i 5 sd)
   + length (np_where_eq_from i 6 sd) = length sd)%nat.
Proof.
  intros H. revert i. induction H as [|d sd Hd _ IH]; intros i; [done|].
  specialize (IH (S i)). simpl.
  assert (Hcases : d = 0 ∨ d = 1 ∨ d = 2 ∨ d = 3 ∨ d = 4 ∨ d = 5) by lia.
  destruct Hcases as [-> | [-> | [-> | [-> | [-> | ->]]]]]; simpl; lia.
Qed.

Lemma np_take_length {A} (xs : list A) (ids : list nat) (out : list A) :
  np_take xs ids = Ok out → length out = length ids.
Proof.
  intros H. apply mapR_ok_Forall2 in H. symmetry. by eapply Forall2_length.
Qed.

(** *** Lengths of what the categoriser returns *)

Lemma mapR_length {A B} (f : A → result B) (l : list A) (l' : list B) :
  mapR f l = Ok l' → length l' = length l.
Proof.
  intros H. apply mapR_ok_Forall2 in H. symmetry. by eapply Forall2_length.
Qed.

Lemma converter_length (mapping : gmap Z Z) (arr out : list Z) :
  get_vectorised_converter mapping arr = Ok out → length out = length arr.
Proof.
  unfold get_vectorised_converter. destruct arr; [discriminate|]. apply mapR_length.
Qed.

Lemma np_vstack_ok (rows rows' : list (list Z)) :
  np_vstack rows = Ok rows' → rows' = rows.
Proof.
  unfold np_vstack. destruct rows; [discriminate|].
  destruct (forallb _ _); [|discriminate]. by intros [= <-].
Qed.

Lemma category_values (same neighbour : list bool) :
  Forall (λ c, c = 1 ∨ c = 2 ∨ c = 3)
    (zip_with Z.add
       (zip_with Z.add ((λ b, 1 * bool_to_Z b) <$> zip_with andb same neighbour)
          ((λ b, 2 * bool_to_Z b) <$> zip_with andb same (negb <$> neighbour)))
       ((λ b, 3 * bool_to_Z b) <$> (negb <$> same)))
  ∧ length
      (zip_with Z.add
         (zip_with Z.add ((λ b, 1 * bool_to_Z b) <$> zip_with andb same neighbour)
            ((λ b, 2 * bool_to_Z b) <$> zip_with andb same (negb <$> neighbour)))
         ((λ b, 3 * bool_to_Z b) <$> (negb <$> same)))
    = (length same `min` length neighbour)%nat.
Proof.
  revert neighbour. induction same as [|s same IH]; intros [|n neighbour];
    try (split; [constructor | done]).
  destruct (IH neighbour) as [Hv Hl]. split.
  - rewrite !fmap_cons. cbn [zip_with fmap list_fmap]. constructor; [|exact Hv].
    destruct s, n; simpl; auto.
  - rewrite !fmap_cons. cbn [zip_with fmap list_fmap length]. simpl in Hl |- *.
    by rewrite Hl.
Qed.

Section WithConverters.

Variables (ms mp : gmap Z Z).

Lemma get_m2_categories_ok_inv (rows : list (list Z)) (cats : list Z) :
  get_m2_categories rows (get_vectorised_converter ms) (get_vectorised_converter mp)
    = Ok cats →
  length cats = length rows ∧ Forall (λ c, c = 1 ∨ c = 2 ∨ c = 3) cats.
Proof.
  unfold get_m2_categories. intros H.
  apply rbind_ok_inv in H as (arr & Harr & H). apply np_vstack_ok in Harr as ->.
  apply rbind_ok_inv in H as (c1 & Hc1 & H). apply mapR_length in Hc1.
  apply rbind_ok_inv in H as (c2 & Hc2 & H). apply mapR_length in Hc2.
  apply rbind_ok_inv in H as (s1 & Hs1 & H). apply converter_length in Hs1.
  apply rbind_ok_inv in H as (s2 & Hs2 & H). apply converter_length in Hs2.
  apply rbind_ok_inv in H as (p1 & Hp1 & H). apply converter_length in Hp1.
  apply rbind_ok_inv in H as (p2 & Hp2 & H). apply converter_length in Hp2.
  injection H as <-.
  destruct (category_values (zip_with Z.eqb s1 s2)
              (zip_with (λ p1 p2, Z.abs (p1 - p2) =? 1) p1 p2)) as [Hv Hl].
  split; [|exact Hv].
  rewrite Hl, !length_zip_with. lia.
Qed.

Lemma get_string_row_diff_ok_inv (rows : list (list Z)) (sd fd : list Z) :
  get_string_row_diff rows (get_vectorised_converter ms) (get_vectorised_converter mp)
    = Ok (sd, fd) →
  length sd = length rows ∧ Forall (λ d, 0 ≤ d ≤ 5) sd.
Proof.
  intros H. split; [|by eapply get_string_row_diff_bounds].
  unfold get_string_row_diff in H.
  apply rbind_ok_inv in H as (arr & Harr & H). apply np_vstack_ok in Harr as ->.
  apply rbind_ok_inv in H as (c1 & Hc1 & H). apply mapR_length in Hc1.
  apply rbind_ok_inv in H as (c2 & Hc2 & H). apply mapR_length in Hc2.
  apply rbind_ok_inv in H as (s1 & Hs1 & H). apply converter_length in Hs1.
  apply rbind_ok_inv in H as (s2 & Hs2 & H). apply converter_length in Hs2.
  apply rbind_ok_inv in H as (p1 & Hp1 & H).
  apply rbind_ok_inv in H as (p2 & Hp2 & H).
  injection H as <- _. rewrite !length_zip_with. lia.
Qed.

End WithConverters.

(** *** What the selection of a bucket returns *)

Lemma select_bucket_all (e1 e2 : list Q) (rows : list (list Z))
    (cs cp : list Z → result (list Z)) :
  select_bucket "all" e1 e2 rows cs cp = Ok (e1, e2).
Proof. reflexivity. Qed.

Lemma select_bucket_cat_inv (name field : string) (k : Z) (e1 e2 : list Q)
    (rows : list (list Z)) (cs cp : list Z → result (list Z)) (tmp : list Q * list Q) :
  String.eqb name "all" = false → str_contains "cat" name = true →
  str_split "_" name !! 1%nat = Some field → py_int field = Ok k →
  select_bucket name e1 e2 rows cs cp = Ok tmp →
  ∃ cats, get_m2_categories rows cs cp = Ok cats
          ∧ np_take e1 (np_where_eq cats k) = Ok tmp.1
          ∧ np_take e2 (np_where_eq cats k) = Ok tmp.2.
Proof.
  intros Hall Hcat Hfield Hk. unfold select_bucket. rewrite Hall. cbn [negb].
  intros H.
  apply rbind_ok_inv in H as (cats & Hcats & H).
  apply rbind_ok_inv in H as (sf & _ & H).
  rewrite Hcat, Hfield in H. simpl in H. rewrite Hk in H. simpl in H.
  apply rbind_ok_inv in H as (a & Ha & H).
  apply rbind_ok_inv in H as (b & Hb & H).
  injection H as <-. by exists cats.
Qed.

Lemma select_bucket_sd_inv (name field : string) (k : Z) (e1 e2 : list Q)
    (rows : list (list Z)) (cs cp : list Z → result (list Z)) (tmp : list Q * list Q) :
  String.eqb name "all" = false → str_contains "cat" name = false →
  str_contains "sd" name = true →
  str_split "_" name !! 1%nat = Some field → py_int field = Ok k →
  select_bucket name e1 e2 rows cs cp = Ok tmp →
  ∃ sd fd, get_string_row_diff rows cs cp = Ok (sd, fd)
           ∧ np_take e1 (np_where_eq sd k) = Ok tmp.1
           ∧ np_take e2 (np_where_eq sd k) = Ok tmp.2.
Proof.
  intros Hall Hcat Hsd Hfield Hk. unfold select_bucket. rewrite Hall. cbn [negb].
  intros H.
  apply rbind_ok_inv in H as (cats & _ & H).
  apply rbind_ok_inv in H as ([sd fd] & Hsf & H).
  rewrite Hcat, Hsd, Hfield in H. simpl in H. rewrite Hk in H. simpl in H.
  apply rbind_ok_inv in H as (a & Ha & H).
  apply rbind_ok_inv in H as (b & Hb & H).
  injection H as <-. by exists sd, fd.
Qed.

Lemma zip_length_same {A B} (l : list A) (k : list B) (n : nat) :
  length l = n → length k = n → length (zip l k) = n.
Proof. intros Hl Hk. rewrite length_zip_with. lia. Qed.

(** *** One bucket *)

Section OneBucket.

Variable rconfig : RConfig.

Lemma fill_bucket_ok_effect (c : string) (e1 e2 : list Q) (rows : list (list Z))
    (cs cp : list Z → result (list Z)) (name : string) (st st' : State) :
  fill_bucket rconfig c e1 e2 rows cs cp name st = (Ok tt, st') →
  shape_2d (cfg rconfig) st →
  ∃ tmp,
    select_bucket name e1 e2 rows cs cp = Ok tmp
    ∧ shape_2d (cfg rconfig) st'
    ∧ (∀ name', bucket_entries st' c name'
                = (bucket_entries st c name'
                   + if String.eqb name' name then length (zip tmp.2 tmp.1) else 0)%nat)
    ∧ (∀ c', c' ≠ c → hists_2d st' !! c' = hists_2d st !! c').
Proof.
  unfold fill_bucket. intros H Hshape.
  apply M_bind_ok_inv in H as (tmp & st0 & Htmp & H).
  apply liftR_ok_inv in Htmp as [Htmp ->].
  exists tmp. split; [exact Htmp|].
  destruct (Nat.eqb (length tmp.1) 0) eqn:Elen.
  - apply mret_ok_inv in H as [_ ->]. split; [exact Hshape|]. split; [|done].
    intros name'. apply Nat.eqb_eq in Elen.
    assert (Hz : length (zip tmp.2 tmp.1) = 0%nat) by (rewrite length_zip_with; lia).
    rewrite Hz. destruct (String.eqb name' name); lia.
  - apply modify_with_ok_inv in H as (d' & Hd' & ->).
    apply update2_ok_inv in Hd' as (m & h & Hm & Hh & ->).
    pose proof (Hshape c m name h Hm Hh) as Hlen.
    destruct (TH2F_FillN_entries (cfg rconfig) h tmp.2 tmp.1 Hlen) as [Hl He].
    split; [|split].
    + intros c' m' name' h' Hm' Hh'. simpl in Hm'.
      destruct (decide (c = c')) as [<-|Hne].
      * rewrite lookup_insert_eq in Hm'. injection Hm' as <-.
        destruct (decide (name = name')) as [<-|Hne'].
        -- rewrite lookup_insert_eq in Hh'. injection Hh' as <-. congruence.
        -- rewrite lookup_insert_ne in Hh' by done. by eapply Hshape.
      * rewrite lookup_insert_ne in Hm' by done. by eapply Hshape.
    + intros name'. unfold bucket_entries. simpl.
      rewrite lookup_insert_eq, Hm. simpl.
      destruct (String.eqb_spec name' name) as [->|Hne].
      * rewrite lookup_insert_eq, Hh. simpl. exact He.
      * rewrite lookup_insert_ne by done. lia.
    + intros c' Hne. simpl. by rewrite lookup_insert_ne.
Qed.

End OneBucket.

(** *** The loop over the buckets *)

Section BalancedBuckets.

Variable chmap : ChannelMap.
Variable rconfig : RConfig.
Variable runs : list (string * list string).
Variable clean : list RawEvent → list Event.
Variable eval_cut : string → list Event → list bool.

Lemma fill_buckets_balanced (c : string) (e1 e2 : list Q) (rows : list (list Z))
    (ms mp : gmap Z Z) (st st' : State) :
  length e1 = length rows → length e2 = length rows →
  for_each names_m2
    (fill_bucket rconfig c e1 e2 rows
       (get_vectorised_converter ms) (get_vectorised_converter mp)) st = (Ok tt, st') →
  shape_2d (cfg rconfig) st → (∀ c', balanced st c') →
  shape_2d (cfg rconfig) st' ∧ ∀ c', balanced st' c'.
Proof.
  intros He1 He2 H Hshape Hbal.
  change names_m2 with
    ["sd_0"; "sd_1"; "sd_2"; "sd_3"; "sd_4"; "sd_5"; "sd_6"; "all";
     "cat_1"; "cat_2"; "cat_3"] in H.
  apply for_each_cons_ok_inv in H as (s1 & F1 & H).
  apply for_each_cons_ok_inv in H as (s2 & F2 & H).
  apply for_each_cons_ok_inv in H as (s3 & F3 & H).
  apply for_each_cons_ok_inv in H as (s4 & F4 & H).
  apply for_each_cons_ok_inv in H as (s5 & F5 & H).
  apply for_each_cons_ok_inv in H as (s6 & F6 & H).
  apply for_each_cons_ok_inv in H as (s7 & F7 & H).
  apply for_each_cons_ok_inv in H as (s8 & F8 & H).
  apply for_each_cons_ok_inv in H as (s9 & F9 & H).
  apply for_each_cons_ok_inv in H as (s10 & F10 & H).
  apply for_each_cons_ok_inv in H as (s11 & F11 & H).
  apply mret_ok_inv in H as [_ ->].
  apply fill_bucket_ok_effect in F1 as (t1 & S1 & Sh1 & E1 & O1); [|exact Hshape].
  apply fill_bucket_ok_effect in F2 as (t2 & S2 & Sh2 & E2 & O2); [|exact Sh1].
  apply fill_bucket_ok_effect in F3 as (t3 & S3 & Sh3 & E3 & O3); [|exact Sh2].
  apply fill_bucket_ok_effect in F4 as (t4 & S4 & Sh4 & E4 & O4); [|exact Sh3].
  apply fill_bucket_ok_effect in F5 as (t5 & S5 & Sh5 & E5 & O5); [|exact Sh4].
  apply fill_bucket_ok_effect in F6 as (t6 & S6 & Sh6 & E6 & O6); [|exact Sh5].
  apply fill_bucket_ok_effect in F7 as (t7 & S7 & Sh7 & E7 & O7); [|exact Sh6].
  apply fill_bucket_ok_effect in F8 as (t8 & S8 & Sh8 & E8 & O8); [|exact Sh7].
  apply fill_bucket_ok_effect in F9 as (t9 & S9 & Sh9 & E9 & O9); [|exact Sh8].
  apply fill_bucket_ok_effect in F10 as (t10 & S10 & Sh10 & E10 & O10); [|exact Sh9].
  apply fill_bucket_ok_effect in F11 as (t11 & S11 & Sh11 & E11 & O11); [|exact Sh10].
  split; [exact Sh11|].
  intros c'. destruct (decide (c' = c)) as [->|Hne].
  - (* the selections *)
    apply (select_bucket_sd_inv _ "0" 0) in S1 as (sd & fd & Hsd & A1 & B1);
      [|reflexivity..].
    apply (select_bucket_sd_inv _ "1" 1) in S2 as (sd2 & fd2 & Hsd2 & A2 & B2);
      [|reflexivity..].
    apply (select_bucket_sd_inv _ "2" 2) in S3 as (sd3 & fd3 & Hsd3 & A3 & B3);
      [|reflexivity..].
    apply (select_bucket_sd_inv _ "3" 3) in S4 as (sd4 & fd4 & Hsd4 & A4 & B4);
      [|reflexivity..].
    apply (select_bucket_sd_inv _ "4" 4) in S5 as (sd5 & fd5 & Hsd5 & A5 & B5);
      [|reflexivity..].
    apply (select_bucket_sd_inv _ "5" 5) in S6 as (sd6 & fd6 & Hsd6 & A6 & B6);
      [|reflexivity..].
    apply (select_bucket_sd_inv _ "6" 6) in S7 as (sd7 & fd7 & Hsd7 & A7 & B7);
      [|reflexivity..].
    rewrite select_bucket_all in S8. injection S8 as <-.
    apply (select_bucket_cat_inv _ "1" 1) in S9 as (cats & Hcats & A9 & B9);
      [|reflexivity..].
    apply (select_bucket_cat_inv _ "2" 2) in S10 as (cats2 & Hcats2 & A10 & B10);
      [|reflexivity..].
    apply (select_bucket_cat_inv _ "3" 3) in S11 as (cats3 & Hcats3 & A11 & B11);
      [|reflexivity..].
    rewrite Hsd in Hsd2, Hsd3, Hsd4, Hsd5, Hsd6, Hsd7.
    injection Hsd2 as <- _. injection Hsd3 as <- _. injection Hsd4 as <- _.
    injection Hsd5 as <- _. injection Hsd6 as <- _. injection Hsd7 as <- _.
    rewrite Hcats in Hcats2, Hcats3.
    injection Hcats2 as <-. injection Hcats3 as <-.
    apply get_string_row_diff_ok_inv in Hsd as [Lsd Vsd].
    apply get_m2_categories_ok_inv in Hcats as [Lcats Vcats].
    apply np_take_length in A1, B1, A2, B2, A3, B3, A4, B4, A5, B5, A6, B6, A7, B7,
      A9, B9, A10, B10, A11, B11.
    pose proof (where_sd_from 0 sd Vsd) as Wsd. fold (np_where_eq sd 0) in Wsd.
    fold (np_where_eq sd 1) in Wsd. fold (np_where_eq sd 2) in Wsd.
    fold (np_where_eq sd 3) in Wsd. fold (np_where_eq sd 4) in Wsd.
    fold (np_where_eq sd 5) in Wsd. fold (np_where_eq sd 6) in Wsd.
    pose proof (where_cats_from 0 cats Vcats) as Wcats.
    fold (np_where_eq cats 1) in Wcats. fold (np_where_eq cats 2) in Wcats.
    fold (np_where_eq cats 3) in Wcats.
    pose proof (zip_length_same _ _ _ B1 A1) as Z1.
    pose proof (zip_length_same _ _ _ B2 A2) as Z2.
    pose proof (zip_length_same _ _ _ B3 A3) as Z3.
    pose proof (zip_length_same _ _ _ B4 A4) as Z4.
    pose proof (zip_length_same _ _ _ B5 A5) as Z5.
    pose proof (zip_length_same _ _ _ B6 A6) as Z6.
    pose proof (zip_length_same _ _ _ B7 A7) as Z7.
    pose proof (zip_length_same _ _ _ He2 He1) as Z8.
    pose proof (zip_length_same _ _ _ B9 A9) as Z9.
    pose proof (zip_length_same _ _ _ B10 A10) as Z10.
    pose proof (zip_length_same _ _ _ B11 A11) as Z11.
    destruct (Hbal c) as [Hc Hs].
    unfold balanced.
    rewrite !E11, !E10, !E9, !E8, !E7, !E6, !E5, !E4, !E3, !E2, !E1.
    cbn [String.eqb Ascii.eqb Bool.eqb andb].
    simpl fst in *. simpl snd in *.
    lia.
  - assert (Hsame : hists_2d s11 !! c' = hists_2d st !! c').
    { rewrite O11, O10, O9, O8, O7, O6, O5, O4, O3, O2, O1 by done. done. }
    destruct (Hbal c') as [Hc Hs].
    unfold balanced, bucket_entries in *. rewrite !Hsame. by split.
Qed.

End BalancedBuckets.

(** *** The invariant along the run *)

Lemma for_each_ok_invariant {A} (I : State → Prop) (l : list A) (body : A → M unit)
    (st st' : State) (u : unit) :
  (∀ x s s', x ∈ l → body x s = (Ok tt, s') → I s → I s') →
  for_each l body st = (Ok u, st') → I st → I st'.
Proof.
  revert st. induction l as [|x l IH]; intros st Hbody H HI.
  - by apply mret_ok_inv in H as [_ ->].
  - apply for_each_cons_ok_inv in H as (st1 & H1 & H2).
    eapply IH; [|exact H2|].
    + intros y s s' Hy. apply Hbody. by right.
    + eapply Hbody; [by left | exact H1 | exact HI].
Qed.

#[global] Instance keeps_hists_2d_preorder : PreOrder keeps_hists_2d.
Proof.
  split.
  - by intros st.
  - intros st1 st2 st3 H1 H2. unfold keeps_hists_2d in *. congruence.
Qed.

#[global] Instance keeps_buckets_preorder : PreOrder keeps_buckets.
Proof.
  split.
  - intros st c m Hm. eauto.
  - intros st1 st2 st3 H1 H2 c m Hm.
    destruct (H1 c m Hm) as (m1 & Hm1 & K1).
    destruct (H2 c m1 Hm1) as (m2 & Hm2 & K2).
    exists m2. split; [done|]. intros name Hn. by apply K2, K1.
Qed.

Lemma buckets_ok_ext (cfg : HistConfig) (st st' : State) :
  keeps_hists_2d st st' → buckets_ok cfg st → buckets_ok cfg st'.
Proof.
  unfold keeps_hists_2d, buckets_ok, shape_2d, balanced, bucket_entries.
  by intros ->.
Qed.

Lemma ak_to_numpy_ok (rows rows' : list (list Z)) :
  ak_to_numpy rows = Ok rows' → rows' = rows.
Proof.
  unfold ak_to_numpy. destruct rows; [by intros [= <-]|].
  destruct (forallb _ _); [|discriminate]. by intros [= <-].
Qed.

Lemma times_1000_mapR_length {A} (f : A → result Q) (l : list A) (e : list Q) :
  times_1000 <$> mapR f l = Ok e → length e = length l.
Proof.
  destruct (mapR f l) as [l'|err] eqn:E; [|discriminate].
  intros [= <-]. unfold times_1000. rewrite length_fmap. by eapply mapR_length.
Qed.

Lemma fold_insert_const_values {V} (v : V) (keys : list string) (m0 : gmap string V)
    (k : string) (h : V) :
  (∀ k h, m0 !! k = Some h → h = v) →
  foldl (λ (m : gmap string V) k, <[k := v]> m) m0 keys !! k = Some h → h = v.
Proof.
  revert m0. induction keys as [|k0 keys IH]; intros m0 H0 H; simpl in H.
  - by eapply H0.
  - eapply IH; [|exact H]. intros k' h' Hk'.
    destruct (decide (k0 = k')) as [->|Hne].
    + rewrite lookup_insert_eq in Hk'. by injection Hk' as <-.
    + rewrite lookup_insert_ne in Hk' by done. by eapply H0.
Qed.

Lemma fold_insert_const_keys {V} (v : V) (keys : list string) (m0 : gmap string V)
    (k : string) :
  k ∈ keys ∨ is_Some (m0 !! k) →
  is_Some (foldl (λ (m : gmap string V) k, <[k := v]> m) m0 keys !! k).
Proof.
  revert m0. induction keys as [|k0 keys IH]; intros m0 H; simpl.
  - destruct H as [H|H]; [by apply elem_of_nil in H | done].
  - apply IH. destruct H as [H|H].
    + apply elem_of_cons in H as [->|H]; [right | by left].
      rewrite lookup_insert_eq. eauto.
    + right. destruct (decide (k0 = k)) as [->|Hne].
      * rewrite lookup_insert_eq. eauto.
      * by rewrite lookup_insert_ne.
Qed.

Section BucketsAlongTheRun.

Variable chmap : ChannelMap.
Variable rconfig : RConfig.
Variable runs : list (string * list string).
Variable clean : list RawEvent → list Event.
Variable eval_cut : string → list Event → list bool.

Lemma keeps_hists_2d_fill_channel (period run c : string) (chmap_mage : MageNames)
    (array_cut : list Event) (id : Z) :
  respects keeps_hists_2d (fill_channel rconfig period run c chmap_mage array_cut id).
Proof.
  unfold fill_channel.
  apply respects_bind; [apply _ | apply respects_liftR; apply _ |]. intros _rawid.
  destruct (Nat.eqb _ 0); [apply respects_ret; apply _|].
  apply respects_bind; [apply _ | |].
  - apply respects_modify_with; [apply _|]. by intros st d _.
  - intros _. apply respects_modify_with; [apply _|]. by intros st d _.
Qed.

Lemma process_cut_buckets_ok (period run : string) (mage_ids : list Z)
    (chmap_mage : MageNames) (array : list Event) (c : string * CutSpec)
    (st st' : State) :
  process_cut rconfig eval_cut period run mage_ids chmap_mage array c st = (Ok tt, st') →
  buckets_ok (cfg rconfig) st → buckets_ok (cfg rconfig) st'.
Proof.
  destruct c as [c cd]. unfold process_cut. cbn [fst snd]. intros H HI.
  apply M_bind_ok_inv in H as (array_cut & st0 & Hcut & H).
  apply liftR_ok_inv in Hcut as [_ ->].
  destruct (is_2d cd) eqn:H2d.
  - rewrite andb_false_r in H.
    apply M_bind_ok_inv in H as (e1 & st0 & He1 & H).
    apply liftR_ok_inv in He1 as [He1 ->].
    apply M_bind_ok_inv in H as (e2 & st0 & He2 & H).
    apply liftR_ok_inv in He2 as [He2 ->].
    apply M_bind_ok_inv in H as (rows & st0 & Hrows & H).
    apply liftR_ok_inv in Hrows as [Hrows ->].
    apply ak_to_numpy_ok in Hrows as ->.
    apply times_1000_mapR_length in He1, He2.
    destruct HI as [Hshape Hbal].
    eapply fill_buckets_balanced; [| |exact H|exact Hshape|exact Hbal];
      by rewrite length_fmap.
  - eapply buckets_ok_ext; [|exact HI].
    destruct (is_sum cd); cbn [negb andb] in H.
    + destruct (Nat.eqb _ 0).
      * by apply mret_ok_inv in H as [_ ->].
      * apply modify_with_ok_inv in H as (d & _ & ->). done.
    + pose proof (respects_for_each keeps_hists_2d mage_ids
                    (fill_channel rconfig period run c chmap_mage array_cut)
                    (λ id _, keeps_hists_2d_fill_channel period run c chmap_mage
                               array_cut id) st) as Hr.
      by rewrite H in Hr.
Qed.

Lemma process_file_buckets_ok (f : InputFile) (st st' : State) :
  process_file chmap rconfig clean eval_cut f st = (Ok tt, st') →
  buckets_ok (cfg rconfig) st → buckets_ok (cfg rconfig) st'.
Proof.
  unfold process_file. intros H HI.
  apply M_bind_ok_inv in H as (pr & st0 & Hpr & H).
  apply liftR_ok_inv in Hpr as [_ ->].
  destruct (Nat.eqb (num_entries f) 0); [discriminate|].
  apply M_bind_ok_inv in H as (n & st0 & Hn & H).
  apply liftR_ok_inv in Hn as [_ ->].
  apply M_bind_ok_inv in H as ([] & st1 & Hadd & H).
  unfold add_primaries in Hadd. injection Hadd as <-.
  eapply (for_each_ok_invariant (buckets_ok (cfg rconfig))); [|exact H|].
  - intros array s s' _ Hb HIs. unfold process_batch in Hb.
    apply M_bind_ok_inv in Hb as (chmap_mage & s0 & Hres & Hb).
    apply liftR_ok_inv in Hres as [_ ->].
    eapply (for_each_ok_invariant (buckets_ok (cfg rconfig))); [|exact Hb|exact HIs].
    intros c0 s1 s1' _. apply process_cut_buckets_ok.
  - eapply buckets_ok_ext; [|exact HI]. done.
Qed.

Lemma init_buckets_new (c name : string) (m : gmap string TH2F) (h : TH2F) :
  init_hists_2d rconfig !! c = Some m → m !! name = Some h →
  h = TH2F_new (cfg rconfig).
Proof.
  intros Hm Hk. unfold init_hists_2d in Hm.
  revert name h Hk.
  eapply (cond_insert_values (λ c : string * CutSpec, is_2d c.2) fst _
            (λ m, ∀ k h, m !! k = Some h → h = TH2F_new (cfg rconfig)));
    [| |exact Hm].
  - intros k h. apply fold_insert_const_values. intros k' h' H'.
    by rewrite lookup_empty in H'.
  - intros c' m' H'. by rewrite lookup_empty in H'.
Qed.

Lemma init_buckets_exist (c : string) (cd : CutSpec) :
  (c, cd) ∈ cuts rconfig → is_2d cd = true →
  ∃ m, init_hists_2d rconfig !! c = Some m
       ∧ ∀ name, name ∈ names_m2 → is_Some (m !! name).
Proof.
  intros Hc H2d. unfold init_hists_2d.
  apply (cond_insert_exists (λ c : string * CutSpec, is_2d c.2) fst _
           (λ m, ∀ name, name ∈ names_m2 → is_Some (m !! name))).
  - intros name Hname. apply fold_insert_const_keys. by left.
  - left. by exists (c, cd).
Qed.

Lemma init_buckets_ok (st : State) :
  hists_2d st = init_hists_2d rconfig → buckets_ok (cfg rconfig) st.
Proof.
  intros E.
  assert (Hnew : ∀ c m name h, hists_2d st !! c = Some m → m !! name = Some h →
                   h = TH2F_new (cfg rconfig)).
  { intros c m name h Hm Hh. rewrite E in Hm. by eapply init_buckets_new. }
  assert (Hzero : ∀ c name, bucket_entries st c name = 0%nat).
  { intros c name. unfold bucket_entries.
    destruct (hists_2d st !! c) as [m|] eqn:Em; [|done]. simpl.
    destruct (m !! name) as [h|] eqn:Eh; [|done]. simpl.
    rewrite (Hnew _ _ _ _ Em Eh). apply entries_replicate_0. }
  split.
  - intros c m name h Hm Hh. rewrite (Hnew _ _ _ _ Hm Hh).
    unfold TH2F_new. by rewrite length_replicate.
  - intros c. unfold balanced. by rewrite !Hzero.
Qed.

Lemma keeps_buckets_fill_all (files : list InputFile) :
  respects keeps_buckets (fill_all chmap rconfig clean eval_cut files).
Proof.
  apply frame_fill_all; [apply _|..].
  - intros f c cd k _ _ _. apply respects_modify_with; [apply _|].
    intros st d _ c' m Hm. eauto.
  - intros f c cd k _ _ _. apply respects_modify_with; [apply _|].
    intros st d _ c' m Hm. eauto.
  - intros f c cd _ _ _. apply respects_modify_with; [apply _|].
    intros st d _ c' m Hm. eauto.
  - intros f c cd k _ _. apply respects_modify_with; [apply _|].
    intros st d Hd c' m Hm. simpl.
    apply update2_ok_inv in Hd as (m0 & h & Hm0 & Hh & ->).
    destruct (decide (c = c')) as [<-|Hne].
    + rewrite lookup_insert_eq. eexists. split; [done|].
      intros name Hname. rewrite Hm in Hm0. injection Hm0 as <-.
      destruct (decide (k = name)) as [<-|Hne'].
      * rewrite lookup_insert_eq. eauto.
      * by rewrite lookup_insert_ne.
    + rewrite lookup_insert_ne by done. eauto.
  - intros n st c m Hm. eauto.
Qed.

(** X14. When the script writes its output, every two-dimensional cut
    has its eleven histograms, each with the bins of both axes, and they
    are consistent: the number of entries of the bucket ["all"] is the
    sum of the entries of the three category buckets, and also the sum
    of the entries of the string-distance buckets ["sd_0"] to ["sd_6"];
    categories and string distances each split the events of the cut. *)
Theorem buckets_partition_all (args : Args) (out : Output) (st : State)
    (c : string) (cd : CutSpec) :
  main chmap rconfig runs clean eval_cut args = (Ok out, st) →
  (c, cd) ∈ cuts rconfig → is_2d cd = true →
  out_hists_2d out = hists_2d st
  ∧ (∃ m, hists_2d st !! c = Some m
          ∧ ∀ name, name ∈ names_m2 →
              ∃ h, m !! name = Some h
                   ∧ length h = ((nbins (cfg rconfig) + 2) * (nbins (cfg rconfig) + 2))%nat)
  ∧ bucket_entries st c "all"
    = (bucket_entries st c "cat_1" + bucket_entries st c "cat_2"
       + bucket_entries st c "cat_3")%nat
  ∧ bucket_entries st c "all"
    = (bucket_entries st c "sd_0" + bucket_entries st c "sd_1"
       + bucket_entries st c "sd_2" + bucket_entries st c "sd_3"
       + bucket_entries st c "sd_4" + bucket_entries st c "sd_5"
       + bucket_entries st c "sd_6")%nat.
Proof.
  intros H Hc H2d.
  apply main_ok_inv in H as (st1 & st2 & st3 & H1 & H2 & H3 & H4 & H5).
  assert (E2 : hists_2d st2 = init_hists_2d rconfig).
  { unfold init_histograms in H2. by injection H2 as <-. }
  assert (I3 : buckets_ok (cfg rconfig) st3).
  { unfold fill_all in H3.
    eapply (for_each_ok_invariant (buckets_ok (cfg rconfig))); [|exact H3|].
    - intros f s s' _. apply process_file_buckets_ok.
    - by apply init_buckets_ok. }
  assert (E4 : keeps_hists_2d st3 st).
  { pose proof (frame_make_grouped chmap rconfig keeps_hists_2d
                  (λ f, respects_modify_with keeps_hists_2d hists set_hists f
                          (λ s d _, eq_refl)) st3) as Hr.
    by rewrite H4 in Hr. }
  destruct (buckets_ok_ext _ _ _ E4 I3) as [Hshape Hbal].
  split; [unfold write_output in H5; by injection H5 as <-|].
  split.
  - destruct (init_buckets_exist c cd Hc H2d) as (m0 & Hm0 & K0).
    rewrite <- E2 in Hm0.
    pose proof (keeps_buckets_fill_all (input_files args) st2) as Hk.
    rewrite H3 in Hk. simpl in Hk.
    destruct (Hk c m0 Hm0) as (m3 & Hm3 & K3).
    rewrite <- E4 in Hm3. exists m3. split; [done|].
    intros name Hname. destruct (K3 name (K0 name Hname)) as [h Hh].
    exists h. split; [done|]. by eapply Hshape.
  - apply Hbal.
Qed.

End BucketsAlongTheRun.

Lemma buckets_partition_all_witness :
  Example.main Example.args_two_files = (Ok Example.out_two_files, Example.st_two_files)
  ∧ bucket_entries Example.st_two_files "mul2_2d" "all" = 2%nat
  ∧ bucket_entries Example.st_two_files "mul2_2d" "all"
    = (bucket_entries Example.st_two_files "mul2_2d" "cat_1"
       + bucket_entries Example.st_two_files "mul2_2d" "cat_2"
       + bucket_entries Example.st_two_files "mul2_2d" "cat_3")%nat.
Proof.
  split; [exact run_two_files|]. split; [vm_compute; reflexivity|].
  destruct (buckets_partition_all Example.chmap Example.rconfig Example.runs
              Example.clean Example.eval_cut Example.args_two_files
              Example.out_two_files Example.st_two_files
              "mul2_2d" (Example.cut "mul == 2" false true) run_two_files)
    as (_ & _ & H & _); [by right; right; left | reflexivity | exact H].
Defined.

(** ** One entry per selected event *)

Lemma TH1F_FillN_entries (cfg : HistConfig) (h : TH1F) (x : list Q) :
  length h = (nbins cfg + 2)%nat →
  length (TH1F_FillN cfg h x) = length h
  ∧ entries (TH1F_FillN cfg h x) = (entries h + length x)%nat.
Proof.
  unfold TH1F_FillN. revert h.
  induction x as [|e x IH]; intros h Hlen; simpl; [split; [done | lia]|].
  assert (Hl : length (TH1F_Fill cfg h e) = length h) by apply length_alter.
  assert (He : entries (TH1F_Fill cfg h e) = S (entries h)).
  { apply entries_alter. pose proof (FindBin_bound cfg e). lia. }
  destruct (IH (TH1F_Fill cfg h e)) as [Hl' He']; [congruence|].
  split; [congruence | lia].
Qed.

Lemma for_each_ok_accum {A} (I : State → Prop) (μ : State → nat) (w : A → nat)
    (l : list A) (body : A → M unit) (st st' : State) (u : unit) :
  (∀ x s s', x ∈ l → body x s = (Ok tt, s') → I s →
     I s' ∧ μ s' = (μ s + w x)%nat) →
  for_each l body st = (Ok u, st') → I st →
  I st' ∧ μ st' = (μ st + sum_list_with w l)%nat.
Proof.
  revert st. induction l as [|x l IH]; intros st Hbody H HI.
  - apply mret_ok_inv in H as [_ ->]. simpl. split; [done | lia].
  - apply for_each_cons_ok_inv in H as (st1 & H1 & H2).
    destruct (Hbody x st st1 ltac:(by left) H1 HI) as [HI1 Hμ1].
    destruct (IH st1 (λ y s s' Hy, Hbody y s s' ltac:(by right)) H2 HI1) as [HI' Hμ'].
    split; [done|]. simpl. lia.
Qed.

Lemma cut_weight_absent (eval_cut : string → list Event → list bool)
    (array : list Event) (c : string) (l : list (string * CutSpec)) :
  c ∉ l.*1 → sum_list_with (cut_weight eval_cut array c) l = 0%nat.
Proof.
  induction l as [|[c0 cd0] l IH]; intros Hnot; [done|].
  rewrite fmap_cons in Hnot. apply not_elem_of_cons in Hnot as [Hne Hnot].
  simpl. rewrite IH by done. unfold cut_weight. simpl.
  destruct (String.eqb_spec c0 c) as [->|_]; [done | lia].
Qed.

Lemma cut_weight_unique (eval_cut : string → list Event → list bool)
    (array : list Event) (c : string) (cd : CutSpec) (l : list (string * CutSpec)) :
  NoDup l.*1 → (c, cd) ∈ l →
  sum_list_with (cut_weight eval_cut array c) l = selected_of eval_cut cd array.
Proof.
  induction l as [|[c0 cd0] l IH]; intros Hnd Hin.
  - by apply elem_of_nil in Hin.
  - rewrite fmap_cons in Hnd. apply NoDup_cons in Hnd as [Hnot Hnd]. simpl in Hnot.
    apply elem_of_cons in Hin as [E|Hin].
    + injection E as <- <-. simpl. rewrite cut_weight_absent by done.
      unfold cut_weight. simpl. rewrite String.eqb_refl. lia.
    + simpl. rewrite IH by done. unfold cut_weight at 1. simpl.
      destruct (String.eqb_spec c0 c) as [->|_]; [|lia].
      exfalso. apply Hnot. apply list_elem_of_fmap. by exists (c, cd).
Qed.

#[global] Instance keeps_sum_hists_preorder : PreOrder keeps_sum_hists.
Proof.
  split.
  - by intros st.
  - intros st1 st2 st3 H1 H2. unfold keeps_sum_hists in *. congruence.
Qed.

#[global] Instance keeps_sum_keys_preorder : PreOrder keeps_sum_keys.
Proof.
  split.
  - intros st c m Hm. eauto.
  - intros st1 st2 st3 H1 H2 c m Hm.
    destruct (H1 c m Hm) as (m1 & Hm1 & K1).
    destruct (H2 c m1 Hm1) as (m2 & Hm2 & K2).
    exists m2. split; [done|]. intros name Hn. by apply K2, K1.
Qed.

(** *** A frame rule for one cut *)

Section FrameOneCut.

Variable rconfig : RConfig.
Variable eval_cut : string → list Event → list bool.

Context (R : State → State → Prop) `{!PreOrder R}.

Variables (c : string) (cd : CutSpec).

Hypothesis R_plain : is_sum cd = false → is_2d cd = false → ∀ f k,
  respects R (modify_with hists set_hists (update2 f c k))
  ∧ respects R (modify_with run_hists set_run_hists (update2 f c k)).
Hypothesis R_sum : is_sum cd = true → is_2d cd = false → ∀ f,
  respects R (modify_with sum_hists set_sum_hists (update2 f c "all")).
Hypothesis R_2d : is_2d cd = true → ∀ f k,
  respects R (modify_with hists_2d set_hists_2d (update2 f c k)).

Lemma frame_one_cut (period run : string) (mage_ids : list Z)
    (chmap_mage : MageNames) (array : list Event) :
  respects R (process_cut rconfig eval_cut period run mage_ids chmap_mage array (c, cd)).
Proof.
  unfold process_cut. cbn [fst snd].
  apply respects_bind; [apply _ | apply respects_liftR; apply _ |]. intros array_cut.
  destruct (is_sum cd) eqn:Hsum, (is_2d cd) eqn:H2d; cbn [negb andb].
  - apply respects_bind; [apply _ | apply respects_liftR; apply _ |]. intros e1.
    apply respects_bind; [apply _ | apply respects_liftR; apply _ |]. intros e2.
    apply respects_bind; [apply _ | apply respects_liftR; apply _ |]. intros arr.
    apply respects_for_each; [apply _|]. intros name _. unfold fill_bucket.
    apply respects_bind; [apply _ | apply respects_liftR; apply _ |]. intros tmp.
    destruct (Nat.eqb _ 0); [apply respects_ret; apply _ | by apply R_2d].
  - destruct (Nat.eqb _ 0); [apply respects_ret; apply _ | by apply R_sum].
  - apply respects_bind; [apply _ | apply respects_liftR; apply _ |]. intros e1.
    apply respects_bind; [apply _ | apply respects_liftR; apply _ |]. intros e2.
    apply respects_bind; [apply _ | apply respects_liftR; apply _ |]. intros arr.
    apply respects_for_each; [apply _|]. intros name _. unfold fill_bucket.
    apply respects_bind; [apply _ | apply respects_liftR; apply _ |]. intros tmp.
    destruct (Nat.eqb _ 0); [apply respects_ret; apply _ | by apply R_2d].
  - apply respects_for_each; [apply _|]. intros id _. unfold fill_channel.
    apply respects_bind; [apply _ | apply respects_liftR; apply _ |]. intros _rawid.
    destruct (Nat.eqb _ 0); [apply respects_ret; apply _|].
    apply respects_bind; [apply _ | by apply R_plain |]. intros _.
    by apply R_plain.
Qed.

End FrameOneCut.

(** *** From one cut to the whole run *)

Section Accumulate.

Variable chmap : ChannelMap.
Variable rconfig : RConfig.
Variable clean : list RawEvent → list Event.
Variable eval_cut : string → list Event → list bool.

Variables (I : State → Prop) (μ : State → nat) (c : string) (cd : CutSpec).

Hypothesis Hnames : NoDup (cuts rconfig).*1.
Hypothesis Hc : (c, cd) ∈ cuts rconfig.
Hypothesis I_primaries : ∀ n st, I st → I (set_n_primaries_total n st).
Hypothesis μ_primaries : ∀ n st, μ (set_n_primaries_total n st) = μ st.
Hypothesis cut_effect : ∀ period run mage_ids chmap_mage array c0 st st',
  c0 ∈ cuts rconfig →
  process_cut rconfig eval_cut period run mage_ids chmap_mage array c0 st = (Ok tt, st') →
  I st → I st' ∧ μ st' = (μ st + cut_weight eval_cut array c c0)%nat.

Lemma process_batch_effect (period run : string) (batch : list RawEvent)
    (st st' : State) :
  process_batch chmap rconfig clean eval_cut period run batch st = (Ok tt, st') →
  I st → I st' ∧ μ st' = (μ st + selected_of eval_cut cd (clean batch))%nat.
Proof.
  unfold process_batch. intros Hb HI.
  apply M_bind_ok_inv in Hb as (chmap_mage & s0 & Hres & Hb).
  apply liftR_ok_inv in Hres as [_ ->].
  rewrite <- (cut_weight_unique eval_cut (clean batch) c cd (cuts rconfig) Hnames Hc).
  eapply (for_each_ok_accum I μ); [|exact Hb|exact HI].
  intros c0 s2 s2' Hc0. by apply cut_effect.
Qed.

Lemma process_file_effect (f : InputFile) (st st' : State) :
  process_file chmap rconfig clean eval_cut f st = (Ok tt, st') →
  I st →
  I st'
  ∧ μ st' = (μ st + sum_list_with (λ batch, selected_of eval_cut cd (clean batch))
                      (simTree f))%nat.
Proof.
  unfold process_file. intros Hf HI.
  apply M_bind_ok_inv in Hf as (pr & s0 & Hpr & Hf).
  apply liftR_ok_inv in Hpr as [_ ->].
  destruct (Nat.eqb (num_entries f) 0); [discriminate|].
  apply M_bind_ok_inv in Hf as (n & s0 & Hn & Hf).
  apply liftR_ok_inv in Hn as [_ ->].
  apply M_bind_ok_inv in Hf as ([] & s1 & Hadd & Hf).
  unfold add_primaries in Hadd. injection Hadd as <-.
  rewrite <- (μ_primaries (n_primaries_total st + n) st).
  eapply (for_each_ok_accum I μ); [|exact Hf|by apply I_primaries].
  intros batch s1 s1' _. apply process_batch_effect.
Qed.

Lemma fill_all_effect (files : list InputFile) (st st' : State) :
  fill_all chmap rconfig clean eval_cut files st = (Ok tt, st') →
  I st → I st' ∧ μ st' = (μ st + selected_in_run clean eval_cut cd files)%nat.
Proof.
  unfold fill_all, selected_in_run. intros H HI.
  eapply (for_each_ok_accum I μ); [|exact H|exact HI].
  intros f s s' _. apply process_file_effect.
Qed.

End Accumulate.

Section CountingCuts.

Variable chmap : ChannelMap.
Variable rconfig : RConfig.
Variable runs : list (string * list string).
Variable clean : list RawEvent → list Event.
Variable eval_cut : string → list Event → list bool.

Lemma not_sum_keeps_sum_hists (c0 : string) (cd0 : CutSpec) (period run : string)
    (mage_ids : list Z) (chmap_mage : MageNames) (array : list Event) :
  is_sum cd0 && negb (is_2d cd0) = false →
  respects keeps_sum_hists
    (process_cut rconfig eval_cut period run mage_ids chmap_mage array (c0, cd0)).
Proof.
  intros Hkind. apply frame_one_cut; [apply _|..].
  - intros _ _ f k. split; apply respects_modify_with; try apply _;
      by intros st d _.
  - intros Hs H2. rewrite Hs, H2 in Hkind. discriminate.
  - intros _ f k. apply respects_modify_with; [apply _|]. by intros st d _.
Qed.

Lemma not_2d_keeps_hists_2d (c0 : string) (cd0 : CutSpec) (period run : string)
    (mage_ids : list Z) (chmap_mage : MageNames) (array : list Event) :
  is_2d cd0 = false →
  respects keeps_hists_2d
    (process_cut rconfig eval_cut period run mage_ids chmap_mage array (c0, cd0)).
Proof.
  intros Hkind. apply frame_one_cut; [apply _|..].
  - intros _ _ f k. split; apply respects_modify_with; try apply _;
      by intros st d _.
  - intros _ _ f. apply respects_modify_with; [apply _|]. by intros st d _.
  - intros H2. rewrite H2 in Hkind. discriminate.
Qed.

Lemma sum_cut_ok_effect (c0 : string) (cd0 : CutSpec) (period run : string)
    (mage_ids : list Z) (chmap_mage : MageNames) (array : list Event) (st st' : State) :
  is_sum cd0 = true → is_2d cd0 = false →
  process_cut rconfig eval_cut period run mage_ids chmap_mage array (c0, cd0) st
    = (Ok tt, st') →
  shape_sum (cfg rconfig) st →
  shape_sum (cfg rconfig) st'
  ∧ sum_entries st' c0 = (sum_entries st c0 + selected_of eval_cut cd0 array)%nat
  ∧ (∀ c, c ≠ c0 → sum_hists st' !! c = sum_hists st !! c).
Proof.
  intros Hsum H2d H Hshape. unfold process_cut in H. cbn [fst snd] in H.
  apply M_bind_ok_inv in H as (array_cut & st0 & Hcut & H).
  apply liftR_ok_inv in Hcut as [Hcut ->].
  rewrite Hsum, H2d in H. cbn [negb andb] in H.
  unfold selected_of. rewrite Hcut.
  assert (Hlen : length (times_1000 ((λ ev, ak_sum (energy ev)) <$> array_cut))
                 = length array_cut).
  { unfold times_1000. by rewrite !length_fmap. }
  rewrite Hlen in H.
  destruct (Nat.eqb (length array_cut) 0) eqn:E0.
  - apply mret_ok_inv in H as [_ ->]. apply Nat.eqb_eq in E0.
    split; [done|]. split; [lia | done].
  - apply modify_with_ok_inv in H as (d & Hd & ->).
    apply update2_ok_inv in Hd as (m & h & Hm & Hh & ->).
    pose proof (Hshape c0 m "all" h Hm Hh) as Hl.
    destruct (TH1F_FillN_entries (cfg rconfig) h
                (times_1000 ((λ ev, ak_sum (energy ev)) <$> array_cut)) Hl) as [Hl' He'].
    split; [|split].
    + intros c' m' k' h' Hm' Hh'. simpl in Hm'.
      destruct (decide (c0 = c')) as [<-|Hne].
      * rewrite lookup_insert_eq in Hm'. injection Hm' as <-.
        destruct (decide ("all" = k')) as [<-|Hne'].
        -- rewrite lookup_insert_eq in Hh'. injection Hh' as <-. congruence.
        -- rewrite lookup_insert_ne in Hh' by done. by eapply Hshape.
      * rewrite lookup_insert_ne in Hm' by done. by eapply Hshape.
    + unfold sum_entries. simpl. rewrite lookup_insert_eq, Hm. simpl.
      rewrite lookup_insert_eq, Hh. simpl. rewrite He', Hlen. done.
    + intros c Hne. simpl. by rewrite lookup_insert_ne.
Qed.

Section SumCut.

Variables (c : string) (cd : CutSpec).
Hypothesis Hnames : NoDup (cuts rconfig).*1.
Hypothesis Hc : (c, cd) ∈ cuts rconfig.
Hypothesis Hsum : is_sum cd = true.
Hypothesis H2d : is_2d cd = false.

Lemma process_cut_sum_effect (period run : string) (mage_ids : list Z)
    (chmap_mage : MageNames) (array : list Event) (c0 : string * CutSpec)
    (st st' : State) :
  c0 ∈ cuts rconfig →
  process_cut rconfig eval_cut period run mage_ids chmap_mage array c0 st = (Ok tt, st') →
  shape_sum (cfg rconfig) st →
  shape_sum (cfg rconfig) st'
  ∧ sum_entries st' c = (sum_entries st c + cut_weight eval_cut array c c0)%nat.
Proof.
  destruct c0 as [c0 cd0]. intros Hc0 H Hshape. unfold cut_weight. simpl.
  destruct (is_sum cd0 && negb (is_2d cd0)) eqn:Hkind.
  - apply andb_prop in Hkind as [Hs0 H20]. apply negb_true_iff in H20.
    destruct (sum_cut_ok_effect _ _ _ _ _ _ _ _ _ Hs0 H20 H Hshape) as (Hsh & He & Ho).
    split; [done|].
    destruct (String.eqb_spec c0 c) as [->|Hne]; [done|].
    unfold sum_entries. rewrite Ho by done. lia.
  - pose proof (not_sum_keeps_sum_hists c0 cd0 period run mage_ids chmap_mage array
                  Hkind st) as Hr.
    rewrite H in Hr. simpl in Hr. unfold keeps_sum_hists in Hr.
    split.
    + unfold shape_sum. rewrite Hr. exact Hshape.
    + destruct (String.eqb_spec c0 c) as [->|Hne].
      * pose proof (NoDup_fst_unique _ _ _ _ Hnames Hc Hc0) as <-.
        rewrite Hsum, H2d in Hkind. discriminate.
      * unfold sum_entries. rewrite Hr. lia.
Qed.

Lemma fill_all_sum_effect (files : list InputFile) (st st' : State) :
  fill_all chmap rconfig clean eval_cut files st = (Ok tt, st') →
  shape_sum (cfg rconfig) st →
  shape_sum (cfg rconfig) st'
  ∧ sum_entries st' c
    = (sum_entries st c + selected_in_run clean eval_cut cd files)%nat.
Proof.
  apply (fill_all_effect chmap rconfig clean eval_cut
           (shape_sum (cfg rconfig)) (λ s, sum_entries s c) c cd Hnames Hc);
    [done | done |].
  intros period run mage_ids chmap_mage array c0 s s'.
  apply process_cut_sum_effect.
Qed.

End SumCut.

Lemma keeps_sum_keys_fill_all (files : list InputFile) :
  respects keeps_sum_keys (fill_all chmap rconfig clean eval_cut files).
Proof.
  apply frame_fill_all; [apply _|..].
  - intros f c cd k _ _ _. apply respects_modify_with; [apply _|].
    intros st d _ c' m Hm. eauto.
  - intros f c cd k _ _ _. apply respects_modify_with; [apply _|].
    intros st d _ c' m Hm. eauto.
  - intros f c cd _ _ _. apply respects_modify_with; [apply _|].
    intros st d Hd c' m Hm. simpl.
    apply update2_ok_inv in Hd as (m0 & h & Hm0 & Hh & ->).
    destruct (decide (c = c')) as [<-|Hne].
    + rewrite lookup_insert_eq. eexists. split; [done|].
      intros name Hname. rewrite Hm in Hm0. injection Hm0 as <-.
      destruct (decide ("all" = name)) as [<-|Hne'].
      * rewrite lookup_insert_eq. eauto.
      * by rewrite lookup_insert_ne.
    + rewrite lookup_insert_ne by done. eauto.
  - intros f c cd k _ _. apply respects_modify_with; [apply _|].
    intros st d _ c' m Hm. eauto.
  - intros n st c m Hm. eauto.
Qed.

(** X15. With distinct cut names, the summed histogram of a summed cut
    holds, when the script writes its output, exactly one entry per
    record that passed the cut, over all batches of all input files
    (records whose summed energy is outside the range are counted in
    the underflow and overflow bins). *)
Theorem sum_cut_counts_selected_events (args : Args) (out : Output) (st : State)
    (c : string) (cd : CutSpec) :
  NoDup (cuts rconfig).*1 →
  main chmap rconfig runs clean eval_cut args = (Ok out, st) →
  (c, cd) ∈ cuts rconfig → is_sum cd = true → is_2d cd = false →
  ∃ m h,
    out_sum_hists out !! c = Some m ∧ m !! "all" = Some h
    ∧ length h = (nbins (cfg rconfig) + 2)%nat
    ∧ entries h = selected_in_run clean eval_cut cd (input_files args).
Proof.
  intros Hnames H Hc Hsum H2d.
  apply main_ok_inv in H as (st1 & st2 & st3 & H1 & H2 & H3 & H4 & H5).
  assert (E2 : sum_hists st2 = init_sum_hists rconfig).
  { unfold init_histograms in H2. by injection H2 as <-. }
  assert (Hnew : ∀ c m k h, sum_hists st2 !! c = Some m → m !! k = Some h →
                   h = TH1F_new (cfg rconfig)).
  { intros c' m k h Hm Hh. rewrite E2 in Hm. by eapply init_sum_hists_new. }
  assert (I2 : shape_sum (cfg rconfig) st2).
  { intros c' m k h Hm Hh. rewrite (Hnew _ _ _ _ Hm Hh). apply length_TH1F_new. }
  destruct (init_sum_hists_exists rconfig c cd Hc Hsum) as (m2 & Hm2 & [h2 Hh2]).
  rewrite <- E2 in Hm2.
  assert (Z2 : sum_entries st2 c = 0%nat).
  { unfold sum_entries. rewrite Hm2. simpl. rewrite Hh2. simpl.
    rewrite (Hnew _ _ _ _ Hm2 Hh2). apply entries_replicate_0. }
  destruct (fill_all_sum_effect c cd Hnames Hc Hsum H2d _ _ _ H3 I2) as [I3 E3].
  assert (E4 : keeps_sum_hists st3 st).
  { pose proof (frame_make_grouped chmap rconfig keeps_sum_hists
                  (λ f, respects_modify_with keeps_sum_hists hists set_hists f
                          (λ s d _, eq_refl)) st3) as Hr.
    by rewrite H4 in Hr. }
  assert (Eout : out_sum_hists out = sum_hists st).
  { unfold write_output in H5. by injection H5 as <-. }
  rewrite Eout, E4.
  pose proof (keeps_sum_keys_fill_all (input_files args) st2) as Hk.
  rewrite H3 in Hk. simpl in Hk.
  destruct (Hk c m2 Hm2) as (m3 & Hm3 & K3).
  destruct (K3 "all" ltac:(eauto)) as [h3 Hh3].
  exists m3, h3. split; [done|]. split; [done|].
  split; [by eapply I3|].
  rewrite Z2 in E3. unfold sum_entries in E3. rewrite Hm3 in E3. simpl in E3.
  rewrite Hh3 in E3. simpl in E3. exact E3.
Qed.

Lemma fill_buckets_all (c : string) (e1 e2 : list Q) (rows : list (list Z))
    (cs cp : list Z → result (list Z)) (st st' : State) :
  length e1 = length rows → length e2 = length rows →
  for_each names_m2 (fill_bucket rconfig c e1 e2 rows cs cp) st = (Ok tt, st') →
  shape_2d (cfg rconfig) st →
  bucket_entries st' c "all" = (bucket_entries st c "all" + length rows)%nat
  ∧ ∀ c', c' ≠ c → hists_2d st' !! c' = hists_2d st !! c'.
Proof.
  intros He1 He2 H Hshape.
  change names_m2 with
    ["sd_0"; "sd_1"; "sd_2"; "sd_3"; "sd_4"; "sd_5"; "sd_6"; "all";
     "cat_1"; "cat_2"; "cat_3"] in H.
  apply for_each_cons_ok_inv in H as (s1 & F1 & H).
  apply for_each_cons_ok_inv in H as (s2 & F2 & H).
  apply for_each_cons_ok_inv in H as (s3 & F3 & H).
  apply for_each_cons_ok_inv in H as (s4 & F4 & H).
  apply for_each_cons_ok_inv in H as (s5 & F5 & H).
  apply for_each_cons_ok_inv in H as (s6 & F6 & H).
  apply for_each_cons_ok_inv in H as (s7 & F7 & H).
  apply for_each_cons_ok_inv in H as (s8 & F8 & H).
  apply for_each_cons_ok_inv in H as (s9 & F9 & H).
  apply for_each_cons_ok_inv in H as (s10 & F10 & H).
  apply for_each_cons_ok_inv in H as (s11 & F11 & H).
  apply mret_ok_inv in H as [_ ->].
  apply fill_bucket_ok_effect in F1 as (t1 & S1 & Sh1 & E1 & O1); [|exact Hshape].
  apply fill_bucket_ok_effect in F2 as (t2 & S2 & Sh2 & E2 & O2); [|exact Sh1].
  apply fill_bucket_ok_effect in F3 as (t3 & S3 & Sh3 & E3 & O3); [|exact Sh2].
  apply fill_bucket_ok_effect in F4 as (t4 & S4 & Sh4 & E4 & O4); [|exact Sh3].
  apply fill_bucket_ok_effect in F5 as (t5 & S5 & Sh5 & E5 & O5); [|exact Sh4].
  apply fill_bucket_ok_effect in F6 as (t6 & S6 & Sh6 & E6 & O6); [|exact Sh5].
  apply fill_bucket_ok_effect in F7 as (t7 & S7 & Sh7 & E7 & O7); [|exact Sh6].
  apply fill_bucket_ok_effect in F8 as (t8 & S8 & Sh8 & E8 & O8); [|exact Sh7].
  apply fill_bucket_ok_effect in F9 as (t9 & S9 & Sh9 & E9 & O9); [|exact Sh8].
  apply fill_bucket_ok_effect in F10 as (t10 & S10 & Sh10 & E10 & O10); [|exact Sh9].
  apply fill_bucket_ok_effect in F11 as (t11 & S11 & Sh11 & E11 & O11); [|exact Sh10].
  split.
  - rewrite select_bucket_all in S8. injection S8 as <-.
    pose proof (zip_length_same _ _ _ He2 He1) as Z8.
    rewrite E11, E10, E9, E8, E7, E6, E5, E4, E3, E2, E1.
    cbn [String.eqb Ascii.eqb Bool.eqb andb].
    simpl fst in *. simpl snd in *. lia.
  - intros c' Hne.
    rewrite O11, O10, O9, O8, O7, O6, O5, O4, O3, O2, O1 by done. done.
Qed.

Section TwoDimensionalCut.

Variables (c : string) (cd : CutSpec).
Hypothesis Hnames : NoDup (cuts rconfig).*1.
Hypothesis Hc : (c, cd) ∈ cuts rconfig.
Hypothesis H2d : is_2d cd = true.

Lemma process_cut_all_effect (period run : string) (mage_ids : list Z)
    (chmap_mage : MageNames) (array : list Event) (c0 : string * CutSpec)
    (st st' : State) :
  c0 ∈ cuts rconfig →
  process_cut rconfig eval_cut period run mage_ids chmap_mage array c0 st = (Ok tt, st') →
  buckets_ok (cfg rconfig) st →
  buckets_ok (cfg rconfig) st'
  ∧ bucket_entries st' c "all"
    = (bucket_entries st c "all" + cut_weight eval_cut array c c0)%nat.
Proof.
  intros Hc0 H HI.
  split; [by eapply process_cut_buckets_ok|].
  destruct c0 as [c0 cd0]. unfold cut_weight. simpl.
  destruct (is_2d cd0) eqn:H20.
  - unfold process_cut in H. cbn [fst snd] in H.
    apply M_bind_ok_inv in H as (array_cut & st0 & Hcut & H).
    apply liftR_ok_inv in Hcut as [Hcut ->].
    rewrite H20, andb_false_r in H.
    apply M_bind_ok_inv in H as (e1 & st0 & He1 & H).
    apply liftR_ok_inv in He1 as [He1 ->].
    apply M_bind_ok_inv in H as (e2 & st0 & He2 & H).
    apply liftR_ok_inv in He2 as [He2 ->].
    apply M_bind_ok_inv in H as (rows & st0 & Hrows & H).
    apply liftR_ok_inv in Hrows as [Hrows ->].
    apply ak_to_numpy_ok in Hrows as ->.
    apply times_1000_mapR_length in He1, He2.
    destruct HI as [Hshape _].
    assert (Hl1 : length e1 = length (mage_id <$> array_cut))
      by (by rewrite length_fmap).
    assert (Hl2 : length e2 = length (mage_id <$> array_cut))
      by (by rewrite length_fmap).
    destruct (fill_buckets_all c0 e1 e2 _ _ _ st st' Hl1 Hl2 H Hshape)
      as [Hall Hother].
    unfold selected_of. rewrite Hcut.
    destruct (String.eqb_spec c0 c) as [->|Hne].
    + rewrite Hall, length_fmap. done.
    + unfold bucket_entries. rewrite Hother by done. lia.
  - pose proof (not_2d_keeps_hists_2d c0 cd0 period run mage_ids chmap_mage array
                  H20 st) as Hr.
    rewrite H in Hr. simpl in Hr. unfold keeps_hists_2d in Hr.
    destruct (String.eqb_spec c0 c) as [->|Hne].
    + pose proof (NoDup_fst_unique _ _ _ _ Hnames Hc Hc0) as <-. congruence.
    + unfold bucket_entries. rewrite Hr. lia.
Qed.

Lemma fill_all_all_effect (files : list InputFile) (st st' : State) :
  fill_all chmap rconfig clean eval_cut files st = (Ok tt, st') →
  buckets_ok (cfg rconfig) st →
  buckets_ok (cfg rconfig) st'
  ∧ bucket_entries st' c "all"
    = (bucket_entries st c "all" + selected_in_run clean eval_cut cd files)%nat.
Proof.
  apply (fill_all_effect chmap rconfig clean eval_cut
           (buckets_ok (cfg rconfig)) (λ s, bucket_entries s c "all") c cd Hnames Hc);
    [done | done |].
  intros period run mage_ids chmap_mage array c0 s s'.
  apply process_cut_all_effect.
Qed.

End TwoDimensionalCut.

(** X16. With distinct cut names, the bucket ["all"] of a two-dimensional
    cut holds, when the script writes its output, exactly one entry per
    record that passed the cut, over all batches of all input files. *)
Theorem all_bucket_counts_selected_events (args : Args) (out : Output) (st : State)
    (c : string) (cd : CutSpec) :
  NoDup (cuts rconfig).*1 →
  main chmap rconfig runs clean eval_cut args = (Ok out, st) →
  (c, cd) ∈ cuts rconfig → is_2d cd = true →
  ∃ m h,
    out_hists_2d out !! c = Some m ∧ m !! "all" = Some h
    ∧ entries h = selected_in_run clean eval_cut cd (input_files args).
Proof.
  intros Hnames H Hc H2d.
  apply main_ok_inv in H as (st1 & st2 & st3 & H1 & H2 & H3 & H4 & H5).
  assert (E2 : hists_2d st2 = init_hists_2d rconfig).
  { unfold init_histograms in H2. by injection H2 as <-. }
  pose proof (init_buckets_ok rconfig st2 E2) as I2.
  assert (Z2 : bucket_entries st2 c "all" = 0%nat).
  { unfold bucket_entries. rewrite E2.
    destruct (init_hists_2d rconfig !! c) as [m|] eqn:Em; [|done]. simpl.
    destruct (m !! "all") as [h|] eqn:Eh; [|done]. simpl.
    rewrite (init_buckets_new rconfig _ _ _ _ Em Eh). apply entries_replicate_0. }
  destruct (fill_all_all_effect c cd Hnames Hc H2d _ _ _ H3 I2) as [I3 E3].
  assert (E4 : keeps_hists_2d st3 st).
  { pose proof (frame_make_grouped chmap rconfig keeps_hists_2d
                  (λ f, respects_modify_with keeps_hists_2d hists set_hists f
                          (λ s d _, eq_refl)) st3) as Hr.
    by rewrite H4 in Hr. }
  assert (Eout : out_hists_2d out = hists_2d st).
  { unfold write_output in H5. by injection H5 as <-. }
  destruct (init_buckets_exist rconfig c cd Hc H2d) as (m0 & Hm0 & K0).
  rewrite <- E2 in Hm0.
  pose proof (keeps_buckets_fill_all chmap rconfig clean eval_cut (input_files args) st2)
    as Hk.
  rewrite H3 in Hk. simpl in Hk.
  destruct (Hk c m0 Hm0) as (m & Hm & K3).
  destruct (K3 "all") as [h Hh].
  { apply K0. apply list_elem_of_In. simpl. tauto. }
  exists m, h. rewrite Eout, E4. split; [done|]. split; [done|].
  rewrite Z2 in E3. unfold bucket_entries in E3. rewrite Hm in E3.
  simpl in E3. rewrite Hh in E3. simpl in E3. exact E3.
Qed.

End CountingCuts.

Lemma example_cut_names_distinct : NoDup (cuts Example.rconfig).*1.
Proof.
  change (NoDup ["raw"; "mul_esum"; "mul2_2d"]).
  repeat (apply NoDup_cons; split;
          [intros H; repeat (apply elem_of_cons in H as [H|H]; [discriminate|]);
           by apply elem_of_nil in H|]).
  apply NoDup_nil_2.
Defined.

Lemma sum_cut_counts_selected_events_witness :
  NoDup (cuts Example.rconfig).*1
  ∧ Example.main Example.args_two_files = (Ok Example.out_two_files, Example.st_two_files)
  ∧ selected_in_run Example.clean Example.eval_cut (Example.cut "" true false)
      (input_files Example.args_two_files) = 4%nat
  ∧ ∃ m h,
      out_sum_hists Example.out_two_files !! "mul_esum" = Some m ∧ m !! "all" = Some h
      ∧ length h = 6%nat
      ∧ entries h = selected_in_run Example.clean Example.eval_cut
                      (Example.cut "" true false) (input_files Example.args_two_files).
Proof.
  split; [exact example_cut_names_distinct|]. split; [exact run_two_files|].
  split; [vm_compute; reflexivity|].
  apply (sum_cut_counts_selected_events Example.chmap Example.rconfig Example.runs
           Example.clean Example.eval_cut Example.args_two_files
           Example.out_two_files Example.st_two_files
           "mul_esum" (Example.cut "" true false)
           example_cut_names_distinct run_two_files);
    [by right; left | reflexivity | reflexivity].
Defined.

Lemma all_bucket_counts_selected_events_witness :
  NoDup (cuts Example.rconfig).*1
  ∧ Example.main Example.args_two_files = (Ok Example.out_two_files, Example.st_two_files)
  ∧ selected_in_run Example.clean Example.eval_cut (Example.cut "mul == 2" false true)
      (input_files Example.args_two_files) = 2%nat
  ∧ ∃ m h,
      out_hists_2d Example.out_two_files !! "mul2_2d" = Some m ∧ m !! "all" = Some h
      ∧ entries h = selected_in_run Example.clean Example.eval_cut
                      (Example.cut "mul == 2" false true)
                      (input_files Example.args_two_files).
Proof.
  split; [exact example_cut_names_distinct|]. split; [exact run_two_files|].
  split; [vm_compute; reflexivity|].
  apply (all_bucket_counts_selected_events Example.chmap Example.rconfig Example.runs
           Example.clean Example.eval_cut Example.args_two_files
           Example.out_two_files Example.st_two_files
           "mul2_2d" (Example.cut "mul == 2" false true)
           example_cut_names_distinct run_two_files);
    [by right; right; left | reflexivity].
Defined.

(** ** The detector types the grouping needs *)

#[global] Instance keeps_channel_keys_preorder : PreOrder keeps_channel_keys.
Proof.
  split.
  - intros st c m k Hm Hk. left. eauto.
  - intros st1 st2 st3 H1 H2 c m3 k Hm3 Hk3.
    destruct (H2 c m3 k Hm3 Hk3) as [(m2 & Hm2 & Hk2)|Hgroup]; [|by right].
    by apply (H1 c m2 k).
Qed.




Section GroupingTypes.

Variable chmap : ChannelMap.
Variable rconfig : RConfig.
Variable runs : list (string * list string).
Variable clean : list RawEvent → list Event.
Variable eval_cut : string → list Event → list bool.







End GroupingTypes.


(** ** Channels and runs of a plain cut *)




#[global] Instance keeps_plain_preorder : PreOrder keeps_plain.
Proof.
  split.
  - by intros st.
  - intros st1 st2 st3 [H1 H1'] [H2 H2']. split; congruence.
Qed.

#[global] Instance keeps_run_hists_preorder : PreOrder keeps_run_hists.
Proof.
  split.
  - by intros st.
  - intros st1 st2 st3 H1 H2. unfold keeps_run_hists in *. congruence.
Qed.

#[global] Instance keeps_run_cuts_preorder : PreOrder keeps_run_cuts.
Proof.
  split.
  - by intros st c.
  - intros st1 st2 st3 H1 H2 c Hc. by apply H2, H1.
Qed.


Section ChannelsAndRuns.

Variable chmap : ChannelMap.
Variable rconfig : RConfig.
Variable runs : list (string * list string).
Variable clean : list RawEvent → list Event.
Variable eval_cut : string → list Event → list bool.











End ChannelsAndRuns.


(** ** The smaller energy on the first axis *)













Section Diagonal.

Variable chmap : ChannelMap.
Variable rconfig : RConfig.
Variable runs : list (string * list string).
Variable clean : list RawEvent → list Event.
Variable eval_cut : string → list Event → list bool.





End Diagonal.



(** ** When the categoriser returns *)

Lemma categoriser_same_error (rows : list (list Z))
    (cs cp : list Z → result (list Z)) (e : PyError) :
  get_m2_categories rows cs cp = Err e ↔ get_string_row_diff rows cs cp = Err e.
Proof.
  unfold get_m2_categories, get_string_row_diff.
  destruct (np_vstack rows) as [arr|e0]; [simpl | by split; intros [= ->]].
  destruct (np_column 0 arr) as [c1|e0]; [simpl | by split; intros [= ->]].
  destruct (np_column 1 arr) as [c2|e0]; [simpl | by split; intros [= ->]].
  destruct (cs c1) as [s1|e0]; [simpl | by split; intros [= ->]].
  destruct (cs c2) as [s2|e0]; [simpl | by split; intros [= ->]].
  destruct (cp c1) as [p1|e0]; [simpl | by split; intros [= ->]].
  destruct (cp c2) as [p2|e0]; [simpl | by split; intros [= ->]].
  split; discriminate.
Qed.

Lemma np_vstack_regular (rows : list (list Z)) :
  rows ≠ [] → (∀ r1 r2, r1 ∈ rows → r2 ∈ rows → length r1 = length r2) →
  np_vstack rows = Ok rows.
Proof.
  destruct rows as [|row rest]; [done|]. intros _ Hreg. simpl.
  replace (forallb _ _) with true; [done|].
  symmetry. apply forallb_forall. intros r Hr. apply Nat.eqb_eq.
  apply Hreg; [right; by apply list_elem_of_In | by left].
Qed.

Lemma np_vstack_ok_regular (rows rows' : list (list Z)) :
  np_vstack rows = Ok rows' →
  rows ≠ [] ∧ ∀ r1 r2, r1 ∈ rows → r2 ∈ rows → length r1 = length r2.
Proof.
  unfold np_vstack. destruct rows as [|row rest]; [discriminate|].
  destruct (forallb _ _) eqn:E; [|discriminate]. intros _. split; [done|].
  rewrite forallb_forall in E.
  assert (Hrow : ∀ r, r ∈ row :: rest → length r = length row).
  { intros r Hr. apply elem_of_cons in Hr as [->|Hr]; [done|].
    apply Nat.eqb_eq, E. by apply list_elem_of_In. }
  intros r1 r2 H1 H2. by rewrite (Hrow r1 H1), (Hrow r2 H2).
Qed.

Lemma converter_ok_resolved (mapping : gmap Z Z) (arr out : list Z) (c : Z) :
  get_vectorised_converter mapping arr = Ok out → c ∈ arr → is_Some (mapping !! c).
Proof.
  unfold get_vectorised_converter. destruct arr as [|c0 arr0] eqn:E; [discriminate|].
  rewrite <- E. clear E. intros H Hin. apply mapR_ok_Forall2 in H.
  apply list_elem_of_lookup in Hin as [i Hi].
  destruct (Forall2_lookup_l _ _ _ _ _ H Hi) as (v & _ & Hv).
  destruct (mapping !! c); [eauto | discriminate].
Qed.

Lemma np_column_ok_elem (j : nat) (rows : list (list Z)) (col : list Z)
    (row : list Z) :
  np_column j rows = Ok col → row ∈ rows → ∃ c, row !! j = Some c ∧ c ∈ col.
Proof.
  unfold np_column. intros H Hin. apply mapR_ok_Forall2 in H.
  apply list_elem_of_lookup in Hin as [i Hi].
  destruct (Forall2_lookup_l _ _ _ _ _ H Hi) as (c & Hc & Hrow).
  exists c. split.
  - destruct (row !! j); [by injection Hrow as -> | discriminate].
  - by eapply list_elem_of_lookup_2.
Qed.

Lemma np_column_usable (j : nat) (rows : list (list Z)) :
  (∀ row, row ∈ rows → is_Some (row !! j)) →
  np_column j rows = Ok ((λ row, default 0 (row !! j)) <$> rows).
Proof.
  intros H. unfold np_column. apply mapR_fmap_total. apply Forall_forall.
  intros row Hrow. destruct (H row Hrow) as [c ->]. done.
Qed.

Section Usable.

Variables (ms mp : gmap Z Z).

Lemma usable_columns (rows : list (list Z)) :
  usable ms mp rows →
  ∃ c1 c2 s1 s2 p1 p2,
    np_vstack rows = Ok rows
    ∧ np_column 0 rows = Ok c1 ∧ np_column 1 rows = Ok c2
    ∧ get_vectorised_converter ms c1 = Ok s1
    ∧ get_vectorised_converter ms c2 = Ok s2
    ∧ get_vectorised_converter mp c1 = Ok p1
    ∧ get_vectorised_converter mp c2 = Ok p2.
Proof.
  intros (Hne & Hreg & Hrows).
  eexists _, _, _, _, _, _.
  split; [by apply np_vstack_regular|].
  split; [apply (np_column_usable 0)|split; [apply (np_column_usable 1)|]].
  - intros row Hrow. destruct (Hrows row Hrow) as (x1 & x2 & -> & _). eauto.
  - intros row Hrow. destruct (Hrows row Hrow) as (x1 & x2 & _ & -> & _). eauto.
  - split_and!; (apply converter_resolved; [done|]);
      intros row Hrow; destruct (Hrows row Hrow)
        as (x1 & x2 & E1 & E2 & H1 & H2 & H3 & H4); by rewrite ?E1, ?E2.
Qed.

Lemma columns_usable (rows arr : list (list Z)) (c1 c2 s1 s2 p1 p2 : list Z) :
  np_vstack rows = Ok arr →
  np_column 0 arr = Ok c1 → np_column 1 arr = Ok c2 →
  get_vectorised_converter ms c1 = Ok s1 →
  get_vectorised_converter ms c2 = Ok s2 →
  get_vectorised_converter mp c1 = Ok p1 →
  get_vectorised_converter mp c2 = Ok p2 →
  usable ms mp rows.
Proof.
  intros Harr Hc1 Hc2 Hs1 Hs2 Hp1 Hp2.
  pose proof (np_vstack_ok_regular _ _ Harr) as [Hne Hreg].
  apply np_vstack_ok in Harr as ->.
  split; [done|]. split; [done|].
  intros row Hrow.
  destruct (np_column_ok_elem _ _ _ _ Hc1 Hrow) as (x1 & Hx1 & Hin1).
  destruct (np_column_ok_elem _ _ _ _ Hc2 Hrow) as (x2 & Hx2 & Hin2).
  exists x1, x2. split_and!; [done|done|..].
  - exact (converter_ok_resolved _ _ _ _ Hs1 Hin1).
  - exact (converter_ok_resolved _ _ _ _ Hs2 Hin2).
  - exact (converter_ok_resolved _ _ _ _ Hp1 Hin1).
  - exact (converter_ok_resolved _ _ _ _ Hp2 Hin2).
Qed.

(** X20. With converters built from two mappings, get_m2_categories and
    get_string_row_diff return for the same channel arrays: those with at
    least one row, rows of one length, and in every row two leading
    channels that are keys of both mappings.  On any other array both
    raise, and they raise the same exception; on the empty array it is
    ValueError. *)
Theorem categoriser_returns_iff (rows : list (list Z)) :
  ((∃ cats, get_m2_categories rows (get_vectorised_converter ms)
              (get_vectorised_converter mp) = Ok cats)
   ↔ usable ms mp rows)
  ∧ ((∃ sf, get_string_row_diff rows (get_vectorised_converter ms)
              (get_vectorised_converter mp) = Ok sf)
     ↔ usable ms mp rows)
  ∧ (∀ e, get_m2_categories rows (get_vectorised_converter ms)
            (get_vectorised_converter mp) = Err e
          ↔ get_string_row_diff rows (get_vectorised_converter ms)
              (get_vectorised_converter mp) = Err e)
  ∧ get_m2_categories [] (get_vectorised_converter ms)
      (get_vectorised_converter mp) = Err ValueError.
Proof.
  split; [|split; [|split; [|done]]].
  - split.
    + intros [cats H]. unfold get_m2_categories in H.
      apply rbind_ok_inv in H as (arr & Harr & H).
      apply rbind_ok_inv in H as (c1 & Hc1 & H).
      apply rbind_ok_inv in H as (c2 & Hc2 & H).
      apply rbind_ok_inv in H as (s1 & Hs1 & H).
      apply rbind_ok_inv in H as (s2 & Hs2 & H).
      apply rbind_ok_inv in H as (p1 & Hp1 & H).
      apply rbind_ok_inv in H as (p2 & Hp2 & H).
      by eapply columns_usable.
    + intros H.
      destruct (usable_columns rows H)
        as (c1 & c2 & s1 & s2 & p1 & p2 & E0 & E1 & E2 & E3 & E4 & E5 & E6).
      unfold get_m2_categories. rewrite E0. simpl. rewrite E1. simpl.
      rewrite E2. simpl. rewrite E3. simpl. rewrite E4. simpl.
      rewrite E5. simpl. rewrite E6. simpl. by eexists.
  - split.
    + intros [sf H]. unfold get_string_row_diff in H.
      apply rbind_ok_inv in H as (arr & Harr & H).
      apply rbind_ok_inv in H as (c1 & Hc1 & H).
      apply rbind_ok_inv in H as (c2 & Hc2 & H).
      apply rbind_ok_inv in H as (s1 & Hs1 & H).
      apply rbind_ok_inv in H as (s2 & Hs2 & H).
      apply rbind_ok_inv in H as (p1 & Hp1 & H).
      apply rbind_ok_inv in H as (p2 & Hp2 & H).
      by eapply columns_usable.
    + intros H.
      destruct (usable_columns rows H)
        as (c1 & c2 & s1 & s2 & p1 & p2 & E0 & E1 & E2 & E3 & E4 & E5 & E6).
      unfold get_string_row_diff. rewrite E0. simpl. rewrite E1. simpl.
      rewrite E2. simpl. rewrite E3. simpl. rewrite E4. simpl.
      rewrite E5. simpl. rewrite E6. simpl. by eexists.
  - intros e. apply categoriser_same_error.
Qed.

End Usable.

(** ** When the loop over the detectors runs to its end *)

Lemma foldR_ok_iff {A B} (body : B → A → result B) (P : A → Prop) (l : list A) (b : B) :
  (∀ b x, x ∈ l → (∃ b', body b x = Ok b') ↔ P x) →
  (∃ b', foldR body b l = Ok b') ↔ Forall P l.
Proof.
  revert b. induction l as [|x l IH]; intros b H; simpl.
  - split; [constructor | eauto].
  - split.
    + intros [b' Hb']. apply rbind_ok_inv in Hb' as (b1 & H1 & Hb').
      constructor.
      * apply (H b x); [by left | eauto].
      * apply (IH b1); [intros; apply H; by right | eauto].
    + intros HP. apply Forall_cons in HP as [Hx Hl].
      destruct (proj2 (H b x ltac:(by left)) Hx) as [b1 H1]. rewrite H1. simpl.
      apply IH; [intros; apply H; by right | done].
Qed.

Lemma foldR_err_inv {A B} (body : B → A → result B) (l : list A) (b : B) (e : PyError) :
  foldR body b l = Err e → ∃ b' x, x ∈ l ∧ body b' x = Err e.
Proof.
  revert b. induction l as [|x l IH]; intros b H; simpl in H; [discriminate|].
  destruct (body b x) as [b1|e1] eqn:E1; simpl in H.
  - destruct (IH _ H) as (b' & y & Hy & Hb'). exists b', y. split; [by right | done].
  - injection H as ->. exists b, x. split; [by left | done].
Qed.

Lemma chmap_lookup_from_some (name : string) (l : ChannelMap) (acc : option ChannelMeta) :
  is_Some acc ∨ name ∈ l.*1 →
  is_Some (foldl (λ (acc : option ChannelMeta) (entry : string * ChannelMeta),
                    if String.eqb entry.1 name then Some entry.2 else acc) acc l).
Proof.
  revert acc. induction l as [|[n m] l IH]; intros acc H; simpl.
  - destruct H as [H|H]; [done | by apply elem_of_nil in H].
  - apply IH. destruct (String.eqb_spec n name) as [->|Hne]; [left; eauto|].
    destruct H as [H|H]; [by left|]. rewrite fmap_cons in H.
    apply elem_of_cons in H as [H|H]; [by destruct Hne | by right].
Qed.

Lemma chmap_lookup_member (chmap : ChannelMap) (name : string) :
  name ∈ chmap.*1 → ∃ meta, chmap_lookup chmap name = Ok meta.
Proof.
  intros H. unfold chmap_lookup.
  destruct (chmap_lookup_from_some name chmap None (or_intror H)) as [meta ->].
  by exists meta.
Qed.

Section EvtConfigOutcome.

Variable dataset : string.
Variable chmap : ChannelMap.
Variable channelmap : gmap string GedMeta.
Variable all_det : gmap string Q.
Variable data : gmap string (option (list Q)).
Variable math_sqrt : Q → Q.

Local Abbreviation evt_entry := (evt_entry dataset chmap channelmap all_det data math_sqrt).

Lemma evt_entry_returns_iff (outstr : gmap Z EvtEntry) (gedname : string) :
  gedname ∈ chmap.*1 →
  (∃ outstr', evt_entry outstr gedname = Ok outstr') ↔ complete channelmap all_det data gedname.
Proof.
  intros Hin. destruct (chmap_lookup_member chmap gedname Hin) as [meta Hmeta].
  unfold evt_entry, complete, ch_label. rewrite Hmeta.
  destruct (channelmap !! gedname) as [ged|]; simpl;
    [|split; [by intros [? ?] | by intros (? & ? & _)]].
  destruct (all_det !! gedname) as [fccd|]; simpl;
    [|split; [by intros [? ?] | by intros (? & _ & [? ?] & _)]].
  destruct (data !! ("ch" +:+ py_str (ged_daq_rawid ged))) as [pars|] eqn:Edata.
  2: { split; [|eauto]. intros _. exists ged. split_and!; [done|eauto|].
       intros pars. rewrite Edata. discriminate. }
  split.
  - intros [o H].
    apply rbind_ok_inv in H as (eres & Heres & H).
    apply rbind_ok_inv in H as (e0 & He0 & H).
    apply rbind_ok_inv in H as (s0 & Hs0 & H).
    apply rbind_ok_inv in H as (e1 & He1 & H).
    apply rbind_ok_inv in H as (s1 & Hs1 & H).
    exists ged. split_and!; [done|eauto|].
    intros pars'. rewrite Edata. intros [= <-]. exists eres, e0, e1.
    destruct pars as [eres'|]; [|discriminate]. injection Heres as ->.
    destruct (eres !! 0%nat) as [x0|]; [|discriminate]. injection He0 as ->.
    destruct (eres !! 1%nat) as [x1|]; [|discriminate]. injection He1 as ->.
    unfold py_sqrt in Hs0, Hs1.
    destruct (Qlt_le_dec e0 0); [discriminate|].
    destruct (Qlt_le_dec e1 0); [discriminate|]. done.
  - intros (ged' & [= <-] & _ & Hpars).
    destruct (Hpars pars Edata) as (eres & e0 & e1 & -> & E0 & E1 & H0 & H1).
    simpl. rewrite E0. simpl. unfold py_sqrt.
    destruct (Qlt_le_dec e0 0) as [Hlt|_];
      [by destruct (Qlt_not_le _ _ Hlt)|]. simpl.
    rewrite E1. simpl.
    destruct (Qlt_le_dec e1 0) as [Hlt|_];
      [by destruct (Qlt_not_le _ _ Hlt)|]. simpl. eauto.
Qed.

Lemma evt_entry_err_kind (outstr : gmap Z EvtEntry) (gedname : string) (e : PyError) :
  evt_entry outstr gedname = Err e →
  e = KeyError ∨ e = IndexError ∨ e = ValueError.
Proof.
  unfold evt_entry, chmap_lookup.
  destruct (channelmap !! gedname) as [ged|]; simpl; [|intros [= <-]; auto].
  destruct (all_det !! gedname) as [fccd|]; simpl; [|intros [= <-]; auto].
  destruct (foldl _ None chmap) as [meta|]; simpl; [|intros [= <-]; auto].
  destruct (data !! _) as [pars|]; [|discriminate].
  destruct pars as [eres|]; simpl; [|intros [= <-]; auto].
  destruct (eres !! 0%nat) as [e0|]; simpl; [|intros [= <-]; auto].
  unfold py_sqrt.
  destruct (Qlt_le_dec e0 0); simpl; [intros [= <-]; auto|].
  destruct (eres !! 1%nat) as [e1|]; simpl; [|intros [= <-]; auto].
  destruct (Qlt_le_dec e1 0); simpl; [intros [= <-]; auto|]. discriminate.
Qed.

(** X21. The loop over the germanium detectors
    ([for gedname in detlist]) runs to its end exactly when the inputs
    are complete for every germanium detector of the channel map: the
    detector is a key of the analysis channel map and of the dead-layer
    table and, if its channel is a key of the calibration results, these
    hold at least two resolution parameters of which the first two are
    not negative.  When the loop does not run to its end it raises
    KeyError, IndexError or ValueError, at a germanium detector for which
    the inputs are not complete.  The dataset flag plays no part in
    this. *)
Theorem evt_loop_outcome :
  ((∃ outstr, foldR evt_entry ∅ (detlist chmap) = Ok outstr)
   ↔ ∀ entry, entry ∈ chmap → system entry.2 = "geds" →
       complete channelmap all_det data entry.1)
  ∧ (∀ e, foldR evt_entry ∅ (detlist chmap) = Err e →
       (e = KeyError ∨ e = IndexError ∨ e = ValueError)
       ∧ ∃ entry, entry ∈ chmap ∧ system entry.2 = "geds"
                  ∧ ¬ complete channelmap all_det data entry.1).
Proof.
  assert (Hdet : ∀ name, name ∈ detlist chmap →
            ∃ entry, entry ∈ chmap ∧ system entry.2 = "geds" ∧ name = entry.1).
  { intros name Hin. unfold detlist in Hin.
    apply list_elem_of_fmap in Hin as (entry & -> & Hin).
    apply list_elem_of_filter in Hin as [Hg Hin]. by exists entry. }
  assert (Hmem : ∀ name, name ∈ detlist chmap → name ∈ chmap.*1).
  { intros name Hin. destruct (Hdet name Hin) as (entry & Hin' & _ & ->).
    apply list_elem_of_fmap. by exists entry. }
  split.
  - rewrite (foldR_ok_iff evt_entry (complete channelmap all_det data)).
    + unfold detlist. rewrite Forall_forall. split.
      * intros H entry Hin Hg. apply H. apply list_elem_of_fmap.
        exists entry. split; [done|]. by apply list_elem_of_filter.
      * intros H name Hin. apply list_elem_of_fmap in Hin as (entry & -> & Hin).
        apply list_elem_of_filter in Hin as [Hg Hin]. by apply H.
    + intros b name Hin. apply evt_entry_returns_iff. by apply Hmem.
  - intros e E. apply foldR_err_inv in E as (b & name & Hin & E).
    split; [by eapply evt_entry_err_kind|].
    destruct (Hdet name Hin) as (entry & Hin' & Hg & ->).
    exists entry. split; [done|]. split; [done|].
    intros Hc. apply (evt_entry_returns_iff b entry.1 (Hmem _ Hin)) in Hc as [o Ho].
    rewrite Ho in E. discriminate E.
Qed.

End EvtConfigOutcome.
